(** * shelob: an embeddable SSH server framework

    A shallow embedding of the session channel handler, the public-key
    permission wrapper and the connection acceptor of the Go sources, with
    the properties of their specification stated over it.

    Conventions of the embedding.
    - A Go [int], [uint32], [uint64] or [time.Duration] is a [Z]; operations
      that can leave the type's range write the wrap-around out.
    - A Go [[]byte] is a [list byte]; a Go [string] is a [string].
    - A Go [map[string]T] is a [gmap string T]; a nil pointer, nil map, nil
      channel or nil function value is [None].
    - Calls that leave the process (replies, sends, closes, spawned
      goroutines, emitted events) are recorded, in program order, in a trace
      of effects returned next to the new state.
    - Objects the code writes to through a pointer its caller keeps (the
      [ssh.Permissions] a public-key callback returns) live in a heap of
      objects and maps, and a pointer is an address in it.
    - Library functions of golang.org/x/crypto/ssh, github.com/google/shlex
      and the net package are parameters of the model. *)

From Stdlib Require Import ZArith List Bool Lia.
From Stdlib Require Import Strings.String Strings.Ascii Strings.Byte.
From stdpp Require Import gmap strings list fin_maps.
Import ListNotations.

Local Open Scope string_scope.
Local Open Scope list_scope.
Local Open Scope Z_scope.

(** Go's [error] values are compared by the message they carry. *)
Definition error := string.

(** A Go result pair [(v, err)] in which exactly one side is meaningful. *)
Inductive result (A : Type) : Type :=
| Ok (a : A)
| Err (e : error).
Arguments Ok {A} a.
Arguments Err {A} e.

(** ** Machine integers *)

(** Reduction of a mathematical integer to Go's signed 64-bit [int]. *)
Definition wrap64 (x : Z) : Z := (x + 2 ^ 63) mod 2 ^ 64 - 2 ^ 63.

(** Go's [int] addition and subtraction. *)
Definition int_add (x y : Z) : Z := wrap64 (x + y).
Definition int_sub (x y : Z) : Z := wrap64 (x - y).
Definition int_mul (x y : Z) : Z := wrap64 (x * y).

(** The conversion [uint32(code)] of a Go [int]. *)
Definition uint32 (x : Z) : Z := x mod 2 ^ 32.

(** [atomic.CompareAndSwapUint64(&v, old, new)]: the new content of the
    cell and whether the swap happened. *)
Definition CompareAndSwapUint64 (v old new : Z) : Z * bool :=
  if v =? old then (new, true) else (v, false).

(** ** signal.go *)

Module Signals.

(** The values of package syscall that [toSignal] can return. *)
Inductive Signal : Set :=
| syscall_SIGABRT | syscall_SIGALRM | syscall_SIGFPE | syscall_SIGHUP
| syscall_SIGILL | syscall_SIGINT | syscall_SIGKILL | syscall_SIGPIPE
| syscall_SIGQUIT | syscall_SIGSEGV | syscall_SIGTERM | syscall_SIGUSR1
| syscall_SIGUSR2.

Definition SIGABRT := "ABRT".
Definition SIGALRM := "ALRM".
Definition SIGFPE := "FPE".
Definition SIGHUP := "HUP".
Definition SIGILL := "ILL".
Definition SIGINT := "INT".
Definition SIGKILL := "KILL".
Definition SIGPIPE := "PIPE".
Definition SIGQUIT := "QUIT".
Definition SIGSEGV := "SEGV".
Definition SIGTERM := "TERM".
Definition SIGUSR1 := "USR1".
Definition SIGUSR2 := "USR2".

(** The thirteen POSIX signal names of RFC 4254 section 6.10. *)
Definition rfc4254_names : list string :=
  [SIGABRT; SIGALRM; SIGFPE; SIGHUP; SIGILL; SIGINT; SIGKILL; SIGPIPE;
   SIGQUIT; SIGSEGV; SIGTERM; SIGUSR1; SIGUSR2].

(** [toSignal]: a [switch] over the name, tried case by case. *)
Definition toSignal (sig : string) : result Signal :=
  if String.eqb sig SIGABRT then Ok syscall_SIGABRT
  else if String.eqb sig SIGALRM then Ok syscall_SIGALRM
  else if String.eqb sig SIGFPE then Ok syscall_SIGFPE
  else if String.eqb sig SIGHUP then Ok syscall_SIGHUP
  else if String.eqb sig SIGILL then Ok syscall_SIGILL
  else if String.eqb sig SIGINT then Ok syscall_SIGINT
  else if String.eqb sig SIGKILL then Ok syscall_SIGKILL
  else if String.eqb sig SIGPIPE then Ok syscall_SIGPIPE
  else if String.eqb sig SIGQUIT then Ok syscall_SIGQUIT
  else if String.eqb sig SIGSEGV then Ok syscall_SIGSEGV
  else if String.eqb sig SIGTERM then Ok syscall_SIGTERM
  else if String.eqb sig SIGUSR1 then Ok syscall_SIGUSR1
  else if String.eqb sig SIGUSR2 then Ok syscall_SIGUSR2
  else Err "unknown signal".

(** Whether [toSignal] returned a non-nil error. *)
Definition is_err {A} (r : result A) : bool :=
  match r with Ok _ => false | Err _ => true end.

End Signals.

(** ** bytes.Replace *)

Module GoBytes.

Definition LF : byte := x0a.
Definition CR : byte := x0d.

(** [bytes.HasPrefix(s, pat)]. *)
Fixpoint HasPrefix (s pat : list byte) {struct pat} : bool :=
  match pat, s with
  | [], _ => true
  | _ :: _, [] => false
  | a :: pat', b :: s' => Byte.eqb a b && HasPrefix s' pat'
  end.

(** The scan of [bytes.Replace(s, old, new, n)] for a non-empty [old]: the
    instances of [old] are found from the left and do not overlap, each is
    replaced by [new], and a non-negative [n] bounds their number. [fuel]
    bounds the positions still to visit. *)
Fixpoint replace_scan (fuel : nat) (s old new : list byte) (n : Z) : list byte :=
  match fuel with
  | O => s
  | S fuel' =>
      if n =? 0 then s
      else match s with
           | [] => []
           | b :: s' =>
               if HasPrefix s old
               then new ++ replace_scan fuel' (skipn (length old) s) old new (n - 1)
               else b :: replace_scan fuel' s' old new n
           end
  end.

(** [bytes.Replace(s, old, new, n)], for the non-empty patterns the sources
    use (the empty pattern, which Go matches at every rune boundary, has no
    call site). *)
Definition Replace (s old new : list byte) (n : Z) : list byte :=
  replace_scan (length s) s old new n.

End GoBytes.

(** ** The session channel handler *)

Module Session.
Import Signals GoBytes.

(** Modelled from the spec: the declarations of [Window] and [Pty] are not
    among the sources; the spec gives a window as (cols, rows, widthPx,
    heightPx) and a PTY descriptor as a term string, an initial window and
    opaque encoded modes. *)
Record Window : Set := mkWindow { cols : Z; rows : Z; widthPx : Z; heightPx : Z }.
Record Pty : Set := mkPty { Term : string; Pty_Window : Window; Modes : list byte }.

(** The library and helper functions the request loop calls: the decoders
    of [ssh.Unmarshal] at the two payload shapes it is used with,
    [shlex.Split] with its error dropped, and the two PTY payload parsers. *)
Record Extern : Type := mkExtern {
  Unmarshal_KeyValue : list byte -> string * string;
  Unmarshal_string : list byte -> string;
  shlex_Split : string -> list string;
  parsePtyRequest : list byte -> Pty * bool;
  parseWinchRequest : list byte -> Window * bool
}.

(** [*ssh.Request], as far as the loop reads it. *)
Record Request : Type := mkRequest {
  ReqType : string;
  WantReply : bool;
  Payload : list byte
}.

(** A signal sink is a channel of the user's handler, named by a number. *)
Definition Sink := nat.

(** The window channel [make(chan Window, 1)]: its buffered windows and
    whether it has been closed. *)
Record WinChan : Set := mkWinChan { buffered : list Window; closed : bool }.

Definition winch_cap : nat := 1%nat.

(** [type session struct]: the fields the request loop and the handler's
    task share. The embedded channel, the parent connection and the user's
    handler are outside the process state; calls on them are effects. *)
Record session : Type := mkSession {
  handled : Z;
  exited : Z;
  agentRequested : Z;
  env : list string;
  cmd : list string;
  pty : option Pty;
  winch : option WinChan
}.

Definition set_handled (s : session) (v : Z) : session :=
  mkSession v (exited s) (agentRequested s) (env s) (cmd s) (pty s) (winch s).
Definition set_exited (s : session) (v : Z) : session :=
  mkSession (handled s) v (agentRequested s) (env s) (cmd s) (pty s) (winch s).
Definition set_agentRequested (s : session) (v : Z) : session :=
  mkSession (handled s) (exited s) v (env s) (cmd s) (pty s) (winch s).
Definition set_env (s : session) (v : list string) : session :=
  mkSession (handled s) (exited s) (agentRequested s) v (cmd s) (pty s) (winch s).
Definition set_cmd (s : session) (v : list string) : session :=
  mkSession (handled s) (exited s) (agentRequested s) (env s) v (pty s) (winch s).
Definition set_pty (s : session) (v : option Pty) : session :=
  mkSession (handled s) (exited s) (agentRequested s) (env s) (cmd s) v (winch s).
Definition set_winch (s : session) (v : option WinChan) : session :=
  mkSession (handled s) (exited s) (agentRequested s) (env s) (cmd s) (pty s) v.

(** What a session does to the world outside its own fields. *)
Inductive effect : Type :=
| Reply (ok : bool)
    (* req.Reply(ok, nil) *)
| SpawnHandler
    (* go s.Exit(s.handler(ctx, s)) *)
| SpawnFlush (ch : option Sink) (buf : list Signal)
    (* go func(ch, buf) { for _, sig := range buf { ch <- sig } }(...) *)
| SinkSend (ch : Sink) (sig : Signal)
    (* signalCh <- sig, from the request loop *)
| SendRequest (name : string) (wantReply : bool) (payload : list byte)
    (* s.Channel.SendRequest(name, wantReply, payload) *)
| CloseWinch
    (* close(s.winch) *)
| ChannelClose
    (* s.Channel.Close() *)
| ConnClose
    (* s.conn.Close() *)
| ChannelWrite (p : list byte).
    (* s.Channel.Write(p) *)

(** The sends a flush task performs, in order. A send on a nil channel
    blocks for ever, so a task spawned for a nil sink delivers nothing. *)
Definition flush_task (ch : option Sink) (buf : list Signal) : list effect :=
  match ch with
  | Some c => map (SinkSend c) buf
  | None => []
  end.

(** *** Numbers on the wire *)

Definition byte_of_Z (z : Z) : byte :=
  match Byte.of_N (Z.to_N (z mod 256)) with
  | Some b => b
  | None => x00
  end.

Definition Z_of_byte (b : byte) : Z := Z.of_N (Byte.to_N b).

(** [ssh.Marshal(&struct{ Status uint32 }{v})]: four bytes, most
    significant first. *)
Definition Marshal_uint32 (v : Z) : list byte :=
  [byte_of_Z (Z.shiftr v 24); byte_of_Z (Z.shiftr v 16);
   byte_of_Z (Z.shiftr v 8); byte_of_Z v].

(** The unsigned integer a big-endian byte string denotes. *)
Definition be_value (bs : list byte) : Z :=
  fold_left (fun acc b => acc * 256 + Z_of_byte b) bs 0.

(** *** session.handle, hasBeenHandled *)

Definition hasBeenHandled (s : session) : bool := handled s =? 1.

Definition handle (X : Extern) (s : session) (req : Request) : session * list effect :=
  let '(h, swapped) := CompareAndSwapUint64 (handled s) 0 1 in
  let s1 := set_handled s h in
  if negb swapped then (s1, [Reply false])
  else
    let s2 := set_cmd s1 (shlex_Split X (Unmarshal_string X (Payload req))) in
    (s2, [Reply true; SpawnHandler]).

(** *** session.Exit *)

(** How a call of [Exit] ends: with a nil error, with an error, or in a
    run-time panic. *)
Inductive ret : Type :=
| RetNil
| RetErr (e : error)
| RetPanic (msg : string).

(** [sendErr] is the error [SendRequest] returns on this call, if any. *)
Definition Exit (s : session) (code : Z) (sendErr : option error)
  : session * ret * list effect :=
  let '(e, swapped) := CompareAndSwapUint64 (exited s) 0 1 in
  let s1 := set_exited s e in
  if negb swapped then (s1, RetErr "exit called more than once", [])
  else
    let send := SendRequest "exit-status" false (Marshal_uint32 (uint32 code)) in
    match sendErr with
    | Some err => (s1, RetErr err, [send])
    | None =>
        match winch s1 with
        | None => (s1, RetPanic "close of nil channel", [send])
        | Some ch =>
            if closed ch then (s1, RetPanic "close of closed channel", [send])
            else (set_winch s1 (Some (mkWinChan (buffered ch) true)), RetNil,
                  [send; CloseWinch; ChannelClose; ConnClose])
        end
    end.

(** *** session.Write *)

(** The two passes of the PTY branch of [Write]. *)
Definition normalize (p : list byte) : list byte :=
  Replace (Replace p [LF] [CR; LF] (-1)) [CR; CR; LF] [CR; LF] (-1).

(** [chanWrite] is what the embedded channel's [Write] returns for the
    bytes it is given. *)
Definition Write (s : session) (p : list byte)
    (chanWrite : list byte -> Z * option error)
  : (Z * option error) * list effect :=
  match pty s with
  | Some _ =>
      let m := Z.of_nat (length p) in
      let p' := normalize p in
      let '(n, err) := chanWrite p' in
      let n' := if n >? m then m else n in
      ((n', err), [ChannelWrite p'])
  | None => (chanWrite p, [ChannelWrite p])
  end.

(** The normalization as one pass over the input: a line feed gets a
    carriage return in front of it unless one is already there.
    [prev_cr] says whether the byte before the current one is a carriage
    return. *)
Fixpoint crlf (prev_cr : bool) (p : list byte) : list byte :=
  match p with
  | [] => []
  | b :: p' =>
      if Byte.eqb b LF
      then (if prev_cr then [LF] else [CR; LF]) ++ crlf false p'
      else b :: crlf (Byte.eqb b CR) p'
  end.

(** Every line feed of [p] has a carriage return in front of it, where
    [prev_cr] stands for the byte before [p]. *)
Fixpoint crlf_normal (prev_cr : bool) (p : list byte) : bool :=
  match p with
  | [] => true
  | b :: p' =>
      (if Byte.eqb b LF then prev_cr else true) && crlf_normal (Byte.eqb b CR) p'
  end.

(** *** sessionChannelHandler.handleRequests *)

(** [type sessionChannelHandler struct]; its [handler] field is the user's
    function, whose start is the effect [SpawnHandler]. *)
Record sessionChannelHandler : Set := mkHandler {
  allowPty : bool;
  allowAgentFwd : bool
}.

Definition agentRequestType := "auth-agent-req@openssh.com".

(** The state of one run of [handleRequests]: the session it created and
    its two local variables. *)
Record LoopState : Type := mkLoop {
  sess : session;
  signalCh : option Sink;
  signalBuffer : list Signal
}.

Definition set_sess (st : LoopState) (s : session) : LoopState :=
  mkLoop s (signalCh st) (signalBuffer st).

(** The session and locals [handleRequests] starts from. *)
Definition new_session : session := mkSession 0 0 0 [] [] None None.
Definition init : LoopState := mkLoop new_session None [].

(** The case one [select] of the loop takes: the context is done, a sink
    (or nil) arrives on the registration channel, a request arrives ([None]
    is the nil a closed request channel yields), or no case is ready. *)
Inductive sel : Type :=
| SelDone
| SelSink (sigCh : option Sink)
| SelReq (req : option Request)
| SelDefault.

(** How one iteration ends: the loop goes round again, the function
    returns, the iteration is parked at a channel send that cannot proceed
    in this state, or the goroutine panics. [Blocked] and [Panicked] are
    the points of the send [sess.winch <- win]; the state there, with the
    window assigned, is [Alone.at_send]. *)
Inductive outcome : Type :=
| Continue (st : LoopState) (tr : list effect)
| Returned
| Blocked
| Panicked (tr : list effect).

Definition handlePtyReq (X : Extern) (s : session) (req : Request)
  : session * list effect :=
  if hasBeenHandled s then (s, [Reply false])
  else match pty s with
       | Some _ => (s, [Reply false])
       | None =>
           let '(ptyReq, ok) := parsePtyRequest X (Payload req) in
           if negb ok then (s, [Reply false])
           else
             let s1 := set_pty s (Some ptyReq) in
             let s2 := set_winch s1 (Some (mkWinChan [Pty_Window ptyReq] false)) in
             (s2, [Reply ok])
       end.

(** The [window-change] case once a PTY is known to be present. *)
Definition handleWindowChange (X : Extern) (st : LoopState) (p : Pty) (req : Request)
  : outcome :=
  let s := sess st in
  let '(win, ok) := parseWinchRequest X (Payload req) in
  if ok then
    let s1 := set_pty s (Some (mkPty (Term p) win (Modes p))) in
    match winch s1 with
    | None => Blocked
    | Some ch =>
        if closed ch then Panicked []
        else if (length (buffered ch) <? winch_cap)%nat
             then Continue
                    (set_sess st (set_winch s1 (Some (mkWinChan (buffered ch ++ [win]) false))))
                    [Reply ok]
             else Blocked
    end
  else Continue st [Reply ok].

(** The [signal] case. *)
Definition handleSignal (X : Extern) (st : LoopState) (req : Request) : outcome :=
  match toSignal (Unmarshal_string X (Payload req)) with
  | Err _ => Continue st []
  | Ok sig =>
      match signalCh st with
      | Some ch => Continue st [SinkSend ch sig]
      | None =>
          if (length (signalBuffer st) <? 128)%nat
          then Continue (mkLoop (sess st) (signalCh st) (signalBuffer st ++ [sig])) []
          else Continue st []
      end
  end.

(** One iteration of the [for { select { ... } }] of [handleRequests]. *)
Definition handleRequests_iter (X : Extern) (h : sessionChannelHandler)
    (st : LoopState) (i : sel) : outcome :=
  match i with
  | SelDone => Returned
  | SelSink sigCh =>
      let st1 := mkLoop (sess st) sigCh (signalBuffer st) in
      if (0 <? length (signalBuffer st1))%nat
      then Continue st1 [SpawnFlush (signalCh st1) (signalBuffer st1)]
      else Continue st1 []
  | SelReq None => Continue st []
  | SelReq (Some req) =>
      let t := ReqType req in
      if String.eqb t "shell" || String.eqb t "exec" then
        let '(s1, tr) := handle X (sess st) req in Continue (set_sess st s1) tr
      else if String.eqb t "env" then
        if hasBeenHandled (sess st) then Continue st [Reply false]
        else
          let '(k, v) := Unmarshal_KeyValue X (Payload req) in
          let s1 := set_env (sess st) (env (sess st) ++ [String.append k (String.append "=" v)]) in
          Continue (set_sess st s1) [Reply true]
      else if String.eqb t "signal" then handleSignal X st req
      else if String.eqb t "pty-req" then
        if negb (allowPty h) then Continue st [Reply false]
        else let '(s1, tr) := handlePtyReq X (sess st) req in Continue (set_sess st s1) tr
      else if String.eqb t "window-change" then
        match pty (sess st) with
        | None => Continue st [Reply false]
        | Some p => handleWindowChange X st p req
        end
      else if String.eqb t agentRequestType then
        if allowAgentFwd h
        then Continue (set_sess st (set_agentRequested (sess st) 1)) [Reply true]
        else Continue st [Reply false]
      else Continue st [Reply false]
  | SelDefault => Continue st []
  end.

(** *** The session as a system of two tasks *)

(** The request loop and the calls made on the session by those who hold
    it after [handle]. The operand of [go s.Exit(s.handler(ctx, s))] is
    evaluated by the loop, so the handler is called within the iteration
    that starts it and only its [Exit] runs in a task of its own; the
    handler may start tasks that keep the session. The schedules of this
    system let those calls fall between any two iterations, in any state:
    the executions of the code are among them. [returned] says that
    [handleRequests] has returned, [crashed] that a goroutine has
    panicked. *)
Record Sys : Type := mkSys {
  loop : LoopState;
  returned : bool;
  crashed : bool
}.

Definition start : Sys := mkSys init false false.

(** What can happen next: an iteration of the request loop, a call of
    [Exit] from the handler's task (with the error its send meets, if any),
    or the handler receiving a window from the window channel. *)
Inductive action : Type :=
| LoopIter (i : sel)
| CallExit (code : Z) (sendErr : option error)
| RecvWinch.

(** One step of the system. A step that cannot be taken in the current
    state (the loop has returned, a send is parked, the process has
    crashed) leaves the system as it is. *)
Definition sys_step (X : Extern) (h : sessionChannelHandler) (y : Sys) (a : action)
  : Sys * list effect :=
  if crashed y then (y, [])
  else match a with
       | LoopIter i =>
           if returned y then (y, [])
           else match handleRequests_iter X h (loop y) i with
                | Continue st tr => (mkSys st false false, tr)
                | Returned => (mkSys (loop y) true false, [])
                | Blocked => (y, [])
                | Panicked tr => (mkSys (loop y) (returned y) true, tr)
                end
       | CallExit code sendErr =>
           let '(s1, r, tr) := Exit (sess (loop y)) code sendErr in
           let y1 := mkSys (set_sess (loop y) s1) (returned y) in
           match r with
           | RetPanic _ => (y1 true, tr)
           | _ => (y1 false, tr)
           end
       | RecvWinch =>
           match winch (sess (loop y)) with
           | Some (mkWinChan (w :: ws) c) =>
               (mkSys (set_sess (loop y) (set_winch (sess (loop y)) (Some (mkWinChan ws c))))
                      (returned y) false, [])
           | _ => (y, [])
           end
       end.

(** A schedule run from a state: the state reached and the effects so
    far, oldest first. *)
Fixpoint run (X : Extern) (h : sessionChannelHandler) (y : Sys) (l : list action)
  : Sys * list effect :=
  match l with
  | [] => (y, [])
  | a :: l' =>
      let '(y1, tr1) := sys_step X h y a in
      let '(y2, tr2) := run X h y1 l' in
      (y2, tr1 ++ tr2)
  end.

(** The number of times the user's handler is started in a trace. *)
Definition is_spawn (e : effect) : bool :=
  match e with SpawnHandler => true | _ => false end.
Definition spawns (tr : list effect) : nat := length (filter is_spawn tr).

(** The number of [exit-status] requests sent in a trace. *)
Definition is_exit_status (e : effect) : bool :=
  match e with
  | SendRequest name _ _ => String.eqb name "exit-status"
  | _ => false
  end.
Definition exit_statuses (tr : list effect) : nat := length (filter is_exit_status tr).

(** The closes in a trace. *)
Definition is_close (e : effect) : bool :=
  match e with CloseWinch | ChannelClose | ConnClose => true | _ => false end.
Definition closes (tr : list effect) : nat := length (filter is_close tr).

(** The loop iterated over the given cases from a state, as long as it
    continues; [None] once it has returned, parked or panicked. *)
Fixpoint iterate (X : Extern) (h : sessionChannelHandler) (st : LoopState) (l : list sel)
  : option (LoopState * list effect) :=
  match l with
  | [] => Some (st, [])
  | i :: l' =>
      match handleRequests_iter X h st i with
      | Continue st1 tr1 =>
          match iterate X h st1 l' with
          | Some (st2, tr2) => Some (st2, tr1 ++ tr2)
          | None => None
          end
      | _ => None
      end
  end.

(** Whether the loop, driven by the given cases, returns at some point. *)
Fixpoint returns (X : Extern) (h : sessionChannelHandler) (st : LoopState) (l : list sel)
  : bool :=
  match l with
  | [] => false
  | i :: l' =>
      match handleRequests_iter X h st i with
      | Continue st1 _ => returns X h st1 l'
      | Returned => true
      | _ => false
      end
  end.

(** The signals a sequence of [signal] requests decodes to, in arrival
    order; requests with an unknown name decode to nothing. *)
Definition valid_signals (X : Extern) (reqs : list Request) : list Signal :=
  flat_map (fun r => match toSignal (Unmarshal_string X (Payload r)) with
                     | Ok sig => [sig]
                     | Err _ => []
                     end) reqs.

(** The select cases of a sequence of requests arriving one after the
    other. *)
Definition arrivals (reqs : list Request) : list sel :=
  map (fun r => SelReq (Some r)) reqs.

End Session.

(** ** Addresses and connections of package net *)

Module Net.

(** [*net.TCPAddr]; [IP] is the text [tcpAddr.IP.String()] gives. *)
Record TCPAddr : Set := mkTCPAddr { IP : string; Port : Z }.

(** [*net.TCPConn]: the two addresses of an accepted connection, which stay
    readable after [Close], and a number telling connections apart. *)
Record TCPConn : Set := mkTCPConn {
  conn_id : nat;
  LocalAddr : TCPAddr;
  RemoteAddr : TCPAddr
}.

(** [time.Duration] counts nanoseconds. *)
Definition Millisecond : Z := 1000000.
Definition Second : Z := 1000000000.

End Net.

(** ** The public-key permission wrapper and session.PublicKey *)

Module Auth.
Import Net.

(** [ssh.Permissions]; a nil map is [None]. *)
Record Permissions : Type := mkPermissions {
  CriticalOptions : option (gmap string string);
  Extensions : option (gmap string string)
}.

(** An [ssh.PublicKey], by what its methods [Type] and [Marshal] return. *)
Record PublicKey : Set := mkPublicKey {
  key_Type : string;
  key_Marshal : list byte
}.

(** [ssh.ConnMetadata], by what its methods return. *)
Record ConnMetadata : Set := mkConnMetadata {
  meta_User : string;
  meta_RemoteAddr : TCPAddr
}.

(** The functions of golang.org/x/crypto/ssh the wrapper and the session
    call. *)
Record SSHLib : Type := mkSSHLib {
  FingerprintLegacyMD5 : PublicKey -> string;
  ParsePublicKey : list byte -> result PublicKey
}.

(** [type PublicKeyCallback func(meta, key) (perm *ssh.Permissions, err error)],
    for a callback that makes the permissions it returns anew at every
    call, by what they hold. A callback that hands out an object it keeps
    is a [Shared.PublicKeyCallback]. *)
Definition PublicKeyCallback : Type :=
  ConnMetadata -> PublicKey -> option Permissions * option error.

Definition permKeyType := "pub-key-type".
Definition permKeyData := "pub-key-data".
Definition permKeyFingerprint := "pub-key-fingerprint".

Definition ErrNoAuth : error := "ssh: no auth passed yet".

(** [pubKeyCallbackWrapper], by what the permissions hold: after the nil
    checks the extensions map exists, and the three assignments insert
    into it. The object these assignments write to is the caller's;
    [Shared.pubKeyCallbackWrapper] has the objects, and the permissions it
    returns hold what this function gives ([content_after_wrapper]). *)
Definition pubKeyCallbackWrapper (L : SSHLib) (cb : option PublicKeyCallback)
  : PublicKeyCallback :=
  fun meta key =>
    match cb with
    | None => (None, Some ErrNoAuth)
    | Some f =>
        let '(perm, err) := f meta key in
        match err with
        | Some e => (None, Some e)
        | None =>
            let perm1 :=
              match perm with
              | None => mkPermissions None (Some ∅)
              | Some p =>
                  match Extensions p with
                  | None => mkPermissions (CriticalOptions p) (Some ∅)
                  | Some _ => p
                  end
              end in
            let ext0 := default ∅ (Extensions perm1) in
            let ext1 := <[permKeyType := key_Type key]> ext0 in
            let ext2 := <[permKeyData := string_of_list_byte (key_Marshal key)]> ext1 in
            let ext3 := <[permKeyFingerprint := FingerprintLegacyMD5 L key]> ext2 in
            (Some (mkPermissions (CriticalOptions perm1) (Some ext3)), None)
        end
    end.

(** [*ssh.ServerConn], as far as the session reads it. *)
Record ServerConn : Type := mkServerConn {
  conn_User : string;
  conn_Permissions : option Permissions
}.

(** [session.PublicKey], on the session's parent connection. *)
Definition session_PublicKey (L : SSHLib) (conn : ServerConn) : option PublicKey :=
  match conn_Permissions conn with
  | None => None
  | Some perms =>
      match Extensions perms with
      | None => None
      | Some ext =>
          match ext !! permKeyData with
          | Some keyData =>
              match ParsePublicKey L (list_byte_of_string keyData) with
              | Ok key => Some key
              | Err _ => None
              end
          | None => None
          end
      end
  end.

(** [session.Permissions]. *)
Definition session_Permissions (conn : ServerConn) : option Permissions :=
  conn_Permissions conn.

(** The connection the SSH library hands to the session after a public-key
    authentication: it carries the permissions the configured callback
    returned for the key, as they are when the callback returns. *)
Definition authenticated (cb : PublicKeyCallback) (meta : ConnMetadata)
    (key : PublicKey) : option ServerConn :=
  match cb meta key with
  | (perm, None) => Some (mkServerConn (meta_User meta) perm)
  | (_, Some _) => None
  end.

(** The extensions the wrapper starts from: the caller's, or an empty map
    when the caller gave no permissions or no extensions. *)
Definition base_extensions (perm : option Permissions) : gmap string string :=
  match perm with
  | Some p => default ∅ (Extensions p)
  | None => ∅
  end.

(** The critical options the wrapper keeps: the caller's. *)
Definition base_options (perm : option Permissions) : option (gmap string string) :=
  match perm with
  | Some p => CriticalOptions p
  | None => None
  end.

End Auth.

(** ** The server: New, ListenAndServe and the accept loop *)

Module Acceptor.
Import Net Auth.

(** The events the server facade and the accept loop emit. *)
Inductive Event : Type :=
| ServerStartedEvent
| ServerStoppedEvent
| ConnectionOpenedEvent (local remote : TCPAddr)
| ConnectionClosedEvent (local remote : TCPAddr)
| MaxConnectionsEvent
| MaxClientConnectionsEvent (local remote : TCPAddr)
| ConnectionFailedEvent (err : error)
| ListenerOpenedEvent (addr : TCPAddr)
| ListenerClosedEvent.

(** Function and interface values the server stores and calls but never
    inspects are named by a number. *)
Definition RequestHandler := nat.
Definition ChannelHandler := nat.
Definition ConnectionCallback := nat.
Definition EventHandler := nat.
Definition SignalChan := nat.

(** An [ssh.Signer], by a number telling signers apart and the type of
    its public key, [PublicKey().Type()]. *)
Record Signer : Set := mkSigner { signer_id : nat; signer_Type : string }.

(** [ssh.ServerConfig], as far as the sources touch it. [hostKeys] is what
    [AddHostKey] maintains. *)
Record ServerConfig : Type := mkServerConfig {
  NoClientAuth : bool;
  PasswordCallback : option nat;
  PublicKeyCallback : option Auth.PublicKeyCallback;
  AuthLogCallback : option nat;
  hostKeys : list Signer
}.

(** [type Config struct]. [SignalChan] is the field [Server.listen] and
    [WithSignalCh] use. *)
Record Config : Type := mkConfig {
  Addr : string;
  MaxConnections : Z;
  MaxClientConnections : Z;
  MaxDeadline : Z;
  MaxConnectionDuration : Z;
  RequestHandlers : option (gmap string RequestHandler);
  ChannelHandlers : option (gmap string ChannelHandler);
  ConnCallback : option ConnectionCallback;
  EvtHandler : option EventHandler;
  PrivateKey : option Signer;
  SrvConfig : option ServerConfig;
  SigChan : option SignalChan
}.

Definition set_Addr (c : Config) (a : string) : Config :=
  mkConfig a (MaxConnections c) (MaxClientConnections c) (MaxDeadline c)
    (MaxConnectionDuration c) (RequestHandlers c) (ChannelHandlers c)
    (ConnCallback c) (EvtHandler c) (PrivateKey c) (SrvConfig c) (SigChan c).
Definition set_MaxDeadline (c : Config) (d : Z) : Config :=
  mkConfig (Addr c) (MaxConnections c) (MaxClientConnections c) d
    (MaxConnectionDuration c) (RequestHandlers c) (ChannelHandlers c)
    (ConnCallback c) (EvtHandler c) (PrivateKey c) (SrvConfig c) (SigChan c).
Definition set_SrvConfig (c : Config) (sc : option ServerConfig) : Config :=
  mkConfig (Addr c) (MaxConnections c) (MaxClientConnections c) (MaxDeadline c)
    (MaxConnectionDuration c) (RequestHandlers c) (ChannelHandlers c)
    (ConnCallback c) (EvtHandler c) (PrivateKey c) sc (SigChan c).

(** What the server does to the world outside its own fields. *)
Inductive effect : Type :=
| Emit (e : Event)
    (* s.handleEvent(e) *)
| ListenerSetDeadline (d : Z)
    (* s.listener.SetDeadline(time.Now().Add(d)) *)
| ListenerClose
    (* s.listener.Close() *)
| Cancel
    (* s.cancel() *)
| SignalStop
    (* signal.Stop(s.config.SignalChan) *)
| TCPClose (c : TCPConn)
    (* tcpConn.Close() *)
| TCPSetDeadline (c : TCPConn) (d : Z)
    (* tcpConn.SetDeadline(time.Now().Add(d)) *)
| Spawn_handleTCPConn (c : TCPConn)
    (* go s.handleTCPConn(tcpConn) *)
| CloseDoneCh.
    (* close(s.doneCh) *)

(** [Server.handleEvent]: the events of a trace that reach the configured
    handler; none when no handler is configured. *)
Definition handleEvent (cfg : Config) (e : effect) : list Event :=
  match e, EvtHandler cfg with
  | Emit ev, Some _ => [ev]
  | _, _ => []
  end.
Definition observed (cfg : Config) (tr : list effect) : list Event :=
  flat_map (handleEvent cfg) tr.

(** [type Server struct]. [ctx_done] says the server's context is
    cancelled; [closeCh] holds the connections sent on the close channel
    and not yet received (at most [closeCh_cap]). *)
Record Server : Type := mkServer {
  ctx_done : bool;
  closeCh : list TCPConn;
  config : Config;
  sshConfig : option ServerConfig;
  srv_Addr : option TCPAddr;
  listener : option TCPAddr
}.

Definition closeCh_cap : nat := 1%nat.

Definition set_config (s : Server) (c : Config) : Server :=
  mkServer (ctx_done s) (closeCh s) c (sshConfig s) (srv_Addr s) (listener s).
Definition set_ctx_done (s : Server) (b : bool) : Server :=
  mkServer b (closeCh s) (config s) (sshConfig s) (srv_Addr s) (listener s).
Definition set_closeCh (s : Server) (q : list TCPConn) : Server :=
  mkServer (ctx_done s) q (config s) (sshConfig s) (srv_Addr s) (listener s).

(** The loop of [ssh.ServerConfig.AddHostKey]: the first host key whose
    public key has the type of the new key's is replaced by the new key;
    [None] when there is no such key. *)
Fixpoint replace_same_type (key : Signer) (l : list Signer) : option (list Signer) :=
  match l with
  | [] => None
  | k :: rest =>
      if String.eqb (signer_Type k) (signer_Type key) then Some (key :: rest)
      else match replace_same_type key rest with
           | Some rest' => Some (k :: rest')
           | None => None
           end
  end.

(** [ssh.ServerConfig.AddHostKey], as the library has it: a host key of
    the same key type is replaced, and only when there is none the key is
    added at the end. *)
Definition AddHostKey (sc : ServerConfig) (key : Signer) : ServerConfig :=
  mkServerConfig (NoClientAuth sc) (PasswordCallback sc) (PublicKeyCallback sc)
    (AuthLogCallback sc)
    (match replace_same_type key (hostKeys sc) with
     | Some l => l
     | None => hostKeys sc ++ [key]
     end).

(** [New]: the configuration as [New] leaves it, and the server or the
    error it returns. The server keeps the pointer it was given, so its
    configuration is the caller's. [ctx] says whether the caller's context
    is cancelled already: the server's context, made from it by
    [context.WithCancel], is then cancelled from the start. *)
Definition New (L : SSHLib) (ctx : bool) (conf : Config) : Config * result Server :=
  let conf1 := if MaxDeadline conf =? 0 then set_MaxDeadline conf Second else conf in
  match SrvConfig conf1 with
  | None => (conf1, Err "ssh.ServerConfig must be provided")
  | Some sc =>
      let sc1 :=
        match PublicKeyCallback sc with
        | Some cb =>
            mkServerConfig (NoClientAuth sc) (PasswordCallback sc)
              (Some (pubKeyCallbackWrapper L (Some cb))) (AuthLogCallback sc) (hostKeys sc)
        | None => sc
        end in
      let sc2 :=
        match PrivateKey conf1 with
        | Some k => AddHostKey sc1 k
        | None => sc1
        end in
      let conf2 := set_SrvConfig conf1 (Some sc2) in
      (conf2, Ok (mkServer ctx [] conf2 (Some sc2) None None))
  end.

(** The two calls of package net [ListenAndServe] makes: the address a
    text resolves to, and the address a listener is bound to. *)
Record NetEnv : Type := mkNetEnv {
  ResolveTCPAddr : string -> result TCPAddr;
  ListenTCP : TCPAddr -> result TCPAddr
}.

(** [ListenAndServe] up to the call of [listen]. *)
Definition ListenAndServe_open (N : NetEnv) (s : Server)
  : Server * result unit * list effect :=
  let ev0 := [Emit ServerStartedEvent] in
  let cfg1 := if String.eqb (Addr (config s)) "" then set_Addr (config s) ":22" else config s in
  let s1 := set_config s cfg1 in
  match ResolveTCPAddr N (Addr cfg1) with
  | Err _ => (s1, Err "ssh server: Invalid tcp address", ev0)
  | Ok sshAddr =>
      match ListenTCP N sshAddr with
      | Err e => (s1, Err e, ev0)
      | Ok laddr =>
          (mkServer (ctx_done s1) (closeCh s1) (config s1) (sshConfig s1)
             (Some laddr) (Some laddr),
           Ok tt, (ev0 ++ [Emit (ListenerOpenedEvent laddr)])%list)
      end
  end.

(** Where [listen] stands: in its loop, past it in [wg.Wait()], or
    returned. *)
Inductive phase : Set := Accepting | Draining | Finished.

(** The state of [listen]: the server, the locals of the function, and the
    connection tasks ([handleTCPConn] goroutines) that are still running. *)
Record Acc : Type := mkAcc {
  srv : Server;
  wg : Z;
  openConnections : Z;
  clientConnections : gmap string Z;
  deadline : Z;
  tasks : list TCPConn;
  at_ : phase;
  panicked : bool
}.

Definition initialDeadline : Z := 5 * Millisecond.

(** [listen] at its first iteration. *)
Definition listen_start (s : Server) : Acc :=
  mkAcc s 0 0 ∅ initialDeadline [] Accepting false.

(** The connections admitted and not yet reported closed to the loop:
    those whose task runs and those waiting on the close channel. *)
Definition in_flight (st : Acc) : list TCPConn := (tasks st ++ closeCh (srv st))%list.

(** What [s.listener.Accept()] returns. *)
Inductive accepted : Type :=
| AcceptTimeout
| AcceptError (e : error)
| AcceptConn (c : TCPConn).

(** The case one [select] of the accept loop takes. *)
Inductive lsel : Type :=
| LDone
| LSignal
| LClose
| LDefault (r : accepted).

(** How admission ends for an accepted connection. *)
Inductive verdict : Set :=
| RefusedByServerCap
| RefusedByClientCap
| Accepted.

Definition closedEvent (c : TCPConn) : effect :=
  Emit (ConnectionClosedEvent (LocalAddr c) (RemoteAddr c)).

(** The value [clientConnections[ip]] reads: zero for an absent key. *)
Definition ipCount (m : gmap string Z) (ip : string) : Z := default 0 (m !! ip).

(** The admission part of the default case, from the connection limit
    check to the start of the connection task. *)
Definition admission (st : Acc) (c : TCPConn) : Acc * list effect * verdict :=
  let cfg := config (srv st) in
  let ip := IP (RemoteAddr c) in
  if (MaxConnections cfg >? 0) && (openConnections st >=? MaxConnections cfg) then
    (st, [TCPClose c; closedEvent c], RefusedByServerCap)
  else if (MaxClientConnections cfg >? 0)
          && match clientConnections st !! ip with
             | Some val => val >=? MaxClientConnections cfg
             | None => false
             end then
    (st, [TCPClose c; closedEvent c], RefusedByClientCap)
  else
    let wg1 := wg st + 1 in
    let open1 := int_add (openConnections st) 1 in
    let m1 := <[ip := int_add (ipCount (clientConnections st) ip) 1]> (clientConnections st) in
    let ev1 := if open1 =? MaxConnections cfg then [Emit MaxConnectionsEvent] else [] in
    let ev2 := if ipCount m1 ip =? MaxClientConnections cfg
               then [Emit (MaxClientConnectionsEvent (LocalAddr c) (RemoteAddr c))]
               else [] in
    let ev3 := if MaxConnectionDuration cfg >? 0
               then [TCPSetDeadline c (MaxConnectionDuration cfg)]
               else [] in
    (mkAcc (srv st) wg1 open1 m1 (deadline st) (c :: tasks st) (at_ st) (panicked st),
     (ev1 ++ ev2 ++ ev3
      ++ [Emit (ConnectionOpenedEvent (LocalAddr c) (RemoteAddr c)); Spawn_handleTCPConn c])%list,
     Accepted).

(** Whether a case of the select can be taken: the context case needs a
    cancelled context, the signal case a configured signal channel, the
    close case a connection on the close channel, and the default case
    that the context and the close channel are not ready. *)
Definition ready (st : Acc) (i : lsel) : bool :=
  match i with
  | LDone => ctx_done (srv st)
  | LSignal => match SigChan (config (srv st)) with Some _ => true | None => false end
  | LClose => match closeCh (srv st) with [] => false | _ :: _ => true end
  | LDefault _ =>
      negb (ctx_done (srv st)) && match closeCh (srv st) with [] => true | _ :: _ => false end
  end.

(** One iteration of the [for] loop of [listen]. *)
Definition listen_iter (st : Acc) (i : lsel) : Acc * list effect :=
  let cfg := config (srv st) in
  let d0 := if deadline st >? MaxDeadline cfg then MaxDeadline cfg else deadline st in
  let st0 := mkAcc (srv st) (wg st) (openConnections st) (clientConnections st) d0
               (tasks st) (at_ st) (panicked st) in
  let pre := [ListenerSetDeadline d0] in
  match i with
  | LDone =>
      (mkAcc (srv st) (wg st) (openConnections st) (clientConnections st) d0
         (tasks st) Draining (panicked st),
       (pre ++ [Emit ServerStoppedEvent; ListenerClose; Emit ListenerClosedEvent])%list)
  | LSignal =>
      (mkAcc (set_ctx_done (srv st) true) (wg st) (openConnections st)
         (clientConnections st) d0 (tasks st) (at_ st) (panicked st),
       (pre ++ [Cancel; SignalStop])%list)
  | LClose =>
      match closeCh (srv st) with
      | [] => (st0, pre)
      | tcpConn :: rest =>
          if wg st - 1 <? 0 then
            (mkAcc (set_closeCh (srv st) rest) (wg st) (openConnections st)
               (clientConnections st) d0 (tasks st) (at_ st) true, pre)
          else
            let ip := IP (RemoteAddr tcpConn) in
            let m1 := match clientConnections st !! ip with
                      | Some v => <[ip := int_sub v 1]> (clientConnections st)
                      | None => clientConnections st
                      end in
            (mkAcc (set_closeCh (srv st) rest) (wg st - 1)
               (int_sub (openConnections st) 1) m1 initialDeadline
               (tasks st) (at_ st) (panicked st),
             (pre ++ [closedEvent tcpConn])%list)
      end
  | LDefault AcceptTimeout =>
      (mkAcc (srv st) (wg st) (openConnections st) (clientConnections st)
         (int_mul d0 2) (tasks st) (at_ st) (panicked st), pre)
  | LDefault (AcceptError e) => (st0, (pre ++ [Emit (ConnectionFailedEvent e)])%list)
  | LDefault (AcceptConn c) =>
      let st1 := mkAcc (srv st) (wg st) (openConnections st) (clientConnections st)
                   initialDeadline (tasks st) (at_ st) (panicked st) in
      let '(st2, tr, _) := admission st1 c in
      (st2, (pre ++ tr)%list)
  end.

(** What can happen next around [listen]: an iteration of its loop, the
    end of a connection task (which closes its connection and sends it on
    the close channel), a cancellation of the server's context from
    outside ([Stop], or the parent context), and the return of
    [wg.Wait()]. *)
Inductive action : Type :=
| Iter (i : lsel)
| TaskEnds (c : TCPConn)
| ContextCancelled
| WaitReturns.

(** Whether an action belongs to the acceptor task, that is to [listen]
    itself. *)
Definition on_acceptor_task (a : action) : bool :=
  match a with
  | Iter _ | WaitReturns => true
  | TaskEnds _ | ContextCancelled => false
  end.

Definition TCPConn_eqb (a b : TCPConn) : bool :=
  Nat.eqb (conn_id a) (conn_id b)
  && String.eqb (IP (LocalAddr a)) (IP (LocalAddr b))
  && (Port (LocalAddr a) =? Port (LocalAddr b))
  && String.eqb (IP (RemoteAddr a)) (IP (RemoteAddr b))
  && (Port (RemoteAddr a) =? Port (RemoteAddr b)).

(** The first occurrence of a connection taken out of a list of tasks;
    [None] when it is not among them. *)
Fixpoint remove_task (c : TCPConn) (l : list TCPConn) : option (list TCPConn) :=
  match l with
  | [] => None
  | x :: l' =>
      if TCPConn_eqb c x then Some l'
      else match remove_task c l' with
           | Some r => Some (x :: r)
           | None => None
           end
  end.

(** One step of the server around [listen]. A step that cannot be taken
    in the current state leaves it as it is. *)
Definition step (st : Acc) (a : action) : Acc * list effect :=
  if panicked st then (st, [])
  else match a with
       | Iter i =>
           match at_ st with
           | Accepting => if ready st i then listen_iter st i else (st, [])
           | _ => (st, [])
           end
       | TaskEnds c =>
           match remove_task c (tasks st) with
           | Some rest =>
               if (length (closeCh (srv st)) <? closeCh_cap)%nat then
                 (mkAcc (set_closeCh (srv st) (closeCh (srv st) ++ [c])) (wg st)
                    (openConnections st) (clientConnections st) (deadline st)
                    rest (at_ st) (panicked st),
                  [TCPClose c])
               else (st, [])
           | None => (st, [])
           end
       | ContextCancelled =>
           (mkAcc (set_ctx_done (srv st) true) (wg st) (openConnections st)
              (clientConnections st) (deadline st) (tasks st) (at_ st) (panicked st), [])
       | WaitReturns =>
           match at_ st with
           | Draining =>
               if wg st =? 0 then
                 (mkAcc (srv st) (wg st) (openConnections st) (clientConnections st)
                    (deadline st) (tasks st) Finished (panicked st), [CloseDoneCh])
               else (st, [])
           | _ => (st, [])
           end
       end.

(** A schedule run from a state. *)
Fixpoint run (st : Acc) (l : list action) : Acc * list effect :=
  match l with
  | [] => (st, [])
  | a :: l' =>
      let '(st1, tr1) := step st a in
      let '(st2, tr2) := run st1 l' in
      (st2, tr1 ++ tr2)
  end.

(** The sum of the per-IP counts. *)
Definition sum_counts (m : gmap string Z) : Z :=
  map_fold (fun _ v acc => v + acc) 0 m.

(** [ListenAndServe] under a schedule: the state it is in after the
    schedule, its effects, and what it has returned, if it has. *)
Definition ListenAndServe (N : NetEnv) (s : Server) (sched : list action)
  : Acc * list effect * option (result unit) :=
  match ListenAndServe_open N s with
  | (s1, Err e, tr) => (listen_start s1, tr, Some (Err e))
  | (s1, Ok _, tr) =>
      let '(st, tr') := run (listen_start s1) sched in
      (st, (tr ++ tr')%list,
       match at_ st with Finished => Some (Ok tt) | _ => None end)
  end.

(** The state [listen] is in after a schedule. *)
Definition reached (s : Server) (sched : list action) : Acc :=
  fst (run (listen_start s) sched).

(** The number of connections of a list that come from an address. *)
Definition from_ip (ip : string) (c : TCPConn) : bool :=
  String.eqb (IP (RemoteAddr c)) ip.
Definition count_ip (ip : string) (l : list TCPConn) : nat :=
  length (List.filter (from_ip ip) l).

(** Whether the server-wide cap, or the cap of the connection's address,
    is already met when a connection is accepted. *)
Definition server_cap_met (st : Acc) : bool :=
  (MaxConnections (config (srv st)) >? 0)
  && (openConnections st >=? MaxConnections (config (srv st))).
Definition client_cap_met (st : Acc) (c : TCPConn) : bool :=
  (MaxClientConnections (config (srv st)) >? 0)
  && match clientConnections st !! IP (RemoteAddr c) with
     | Some val => val >=? MaxClientConnections (config (srv st))
     | None => false
     end.

(** The state at the point of the default case where admission starts:
    the deadline has been reset. *)
Definition at_admission (st : Acc) : Acc :=
  mkAcc (srv st) (wg st) (openConnections st) (clientConnections st)
    initialDeadline (tasks st) (at_ st) (panicked st).

(** The configuration the server holds after [ListenAndServe] has run
    under a schedule. *)
Definition config_after (N : NetEnv) (s : Server) (sched : list action) : Config :=
  config (srv (fst (fst (ListenAndServe N s sched)))).

(** The deadline an iteration sets on the listener. *)
Definition capped_deadline (st : Acc) : Z :=
  if deadline st >? MaxDeadline (config (srv st))
  then MaxDeadline (config (srv st)) else deadline st.

(** The registry seen from the connections in flight: the open count and
    the wait barrier count them, and the count of every address that has
    an entry counts those from it ([int] arithmetic, so up to wrap-around),
    while an address without an entry has none in flight. *)
Definition registry_inv (st : Acc) : Prop :=
  openConnections st = wrap64 (Z.of_nat (length (in_flight st)))
  /\ wg st = Z.of_nat (length (in_flight st))
  /\ panicked st = false
  /\ forall ip,
       match clientConnections st !! ip with
       | Some v => v = wrap64 (Z.of_nat (count_ip ip (in_flight st)))
       | None => count_ip ip (in_flight st) = 0%nat
       end.

End Acceptor.

(** ** Concrete instances *)

Module Examples.

(** The text of an SSH wire string: a four-byte big-endian length and
    that many bytes; empty when the payload is too short. *)
Definition wire_string (p : list byte) : string :=
  match p with
  | a :: b :: c :: d :: rest =>
      string_of_list_byte (firstn (Z.to_nat (Session.be_value [a; b; c; d])) rest)
  | _ => ""
  end.

(** The payload of a request that carries one string. *)
Definition string_payload (s : string) : list byte :=
  Session.Marshal_uint32 (Z.of_nat (String.length s)) ++ list_byte_of_string s.

Definition window80x24 : Session.Window := Session.mkWindow 80 24 0 0.

(** Decoders that read one wire string, split a command at nothing, and
    accept every PTY payload as an 80 by 24 xterm. *)
Definition demoX : Session.Extern :=
  Session.mkExtern
    (fun p => (wire_string p, ""))
    wire_string
    (fun s => [s])
    (fun _ => (Session.mkPty "xterm" window80x24 [], true))
    (fun _ => (window80x24, true)).

Definition demoH : Session.sessionChannelHandler := Session.mkHandler true false.

Definition signal_request (name : string) : Session.Request :=
  Session.mkRequest "signal" false (string_payload name).

Definition shell_request : Session.Request := Session.mkRequest "shell" true [].

(** A session that has accepted a PTY and has not been handled. *)
Definition pty_session : Session.session :=
  Session.mkSession 0 0 0 [] []
    (Some (Session.mkPty "xterm" window80x24 []))
    (Some (Session.mkWinChan [window80x24] false)).

(** A library whose fingerprint is the key type and whose parser accepts
    every byte string as an RSA key. *)
Definition demoL : Auth.SSHLib :=
  Auth.mkSSHLib (fun k => Auth.key_Type k) (fun bs => Ok (Auth.mkPublicKey "ssh-rsa" bs)).

Definition demo_key : Auth.PublicKey := Auth.mkPublicKey "ssh-rsa" [x01; x02; x03].


(** A callback that accepts every key and returns nil permissions. *)
Definition accept_all : Auth.PublicKeyCallback := fun _ _ => (None, None).

(** A network in which every address resolves and every listen succeeds
    on port 22. *)
Definition demoN : Acceptor.NetEnv :=
  Acceptor.mkNetEnv (fun a => Ok (Net.mkTCPAddr a 22)) (fun a => Ok a).

(** A configuration with an empty bind address and a cap of two
    connections per address. *)
Definition demo_config : Acceptor.Config :=
  Acceptor.mkConfig "" 0 2 0 0 (Some ∅) (Some ∅) None None None
    (Some (Acceptor.mkServerConfig false None (Some accept_all) None []))
    None.

(** The server [New] builds from it under a context that is not
    cancelled. *)
Definition demo_server : Acceptor.Server :=
  match snd (Acceptor.New demoL false demo_config) with
  | Ok s => s
  | Err _ => Acceptor.mkServer false [] demo_config None None None
  end.

Definition conn_from (id : nat) (ip : string) : Net.TCPConn :=
  Net.mkTCPConn id (Net.mkTCPAddr "10.0.0.254" 22) (Net.mkTCPAddr ip 50000).

End Examples.

(** ** The rest of the session surface *)

Module SessionSurface.
Import Signals GoBytes Session.

(** [session.Pty]: the descriptor (the zero value when there is none),
    the window channel and whether a PTY was accepted. *)
Definition zero_Pty : Pty := mkPty "" (mkWindow 0 0 0 0) [].
Definition session_Pty (s : session) : Pty * option WinChan * bool :=
  match pty s with
  | Some p => (p, winch s, true)
  | None => (zero_Pty, winch s, false)
  end.

(** [session.WriteString]. *)
Definition WriteString (s : session) (msg : string)
    (chanWrite : list byte -> Z * option error)
  : (Z * option error) * list effect :=
  Write s (list_byte_of_string msg) chanWrite.

(** The entry an [env] request adds: [fmt.Sprintf("%s=%s", kv.Key, kv.Value)]. *)
Definition env_entry (X : Extern) (req : Request) : string :=
  let '(k, v) := Unmarshal_KeyValue X (Payload req) in
  String.append k (String.append "=" v).

(** The number of replies in a trace. *)
Definition is_reply (e : effect) : bool :=
  match e with Reply _ => true | _ => false end.
Definition replies (tr : list effect) : nat := length (List.filter is_reply tr).

(** The requests of a list that are not [signal] requests. *)
Definition wants_answer (req : Request) : bool := negb (String.eqb (ReqType req) "signal").

(** A byte string with its carriage returns taken out. *)
Definition without_cr (p : list byte) : list byte :=
  List.filter (fun b => negb (Byte.eqb b CR)) p.

(** A once-flag holds 0 or 1. *)
Definition is_flag (v : Z) : Prop := v = 0 \/ v = 1.

(** What the fields of a session keep to, whatever is done to it: the
    three flags are flags, the window channel exists exactly when a PTY
    does, it never holds more than its capacity, and it is closed only
    after [Exit] has set the exited flag. *)
Definition session_inv (s : session) : Prop :=
  is_flag (handled s) /\ is_flag (exited s) /\ is_flag (agentRequested s)
  /\ (pty s = None <-> winch s = None)
  /\ (forall ch, winch s = Some ch ->
        (length (buffered ch) <= winch_cap)%nat
        /\ (closed ch = true -> exited s = 1)).

(** What stays of a PTY whatever window changes arrive. *)
Definition pty_identity (s : session) : option (string * list byte) :=
  match pty s with
  | Some p => Some (Term p, Modes p)
  | None => None
  end.

(** The select cases that hand the loop a request it answers. *)
Definition answerable (i : sel) : bool :=
  match i with
  | SelReq (Some req) => wants_answer req
  | _ => false
  end.

End SessionSurface.

(** ** More concrete instances *)

Module MoreExamples.

Definition env_request_FOO : Session.Request :=
  Session.mkRequest "env" true (Examples.string_payload "FOO").

(** A session whose handler runs, with one variable and a command. *)
Definition handled_sys : Session.Sys :=
  Session.mkSys
    (Session.mkLoop (Session.mkSession 1 0 0 ["A=1"] ["sh"] None None) None [])
    false false.

(** A loop state with one signal buffered and no sink. *)
Definition one_buffered : Session.LoopState :=
  Session.mkLoop Session.new_session None [Signals.syscall_SIGINT].

(** One connection admitted, then the context cancelled and the loop
    left. *)
Definition shutdown_with_one_open : list Acceptor.action :=
  [Acceptor.Iter (Acceptor.LDefault (Acceptor.AcceptConn (Examples.conn_from 1 "10.0.0.7")));
   Acceptor.ContextCancelled;
   Acceptor.Iter Acceptor.LDone].

(** Three connections offered from one address. *)
Definition three_from_one_address : list Acceptor.action :=
  [Acceptor.Iter (Acceptor.LDefault (Acceptor.AcceptConn (Examples.conn_from 1 "10.0.0.7")));
   Acceptor.Iter (Acceptor.LDefault (Acceptor.AcceptConn (Examples.conn_from 2 "10.0.0.7")));
   Acceptor.Iter (Acceptor.LDefault (Acceptor.AcceptConn (Examples.conn_from 3 "10.0.0.7")))].

(** A server with a cap of one connection and a maximum deadline of one
    second. *)
Definition capped_server : Acceptor.Server :=
  Acceptor.mkServer false []
    (Acceptor.mkConfig ":2222" 1 0 Net.Second 0 (Some ∅) (Some ∅) None None None
       (Some (Acceptor.mkServerConfig false None None None [])) None)
    (Some (Acceptor.mkServerConfig false None None None [])) None None.

End MoreExamples.

(** ** More about the accept loop *)

Module AcceptorMore.
Import Net Auth Acceptor.

(** The deadlines a trace sets on the listener are positive and at most
    the configured maximum. *)
Definition deadline_in_range (cfg : Config) (e : effect) : Prop :=
  match e with
  | ListenerSetDeadline d => 0 < d <= MaxDeadline cfg
  | _ => True
  end.

(** [n] iterations in a row in which [Accept] times out. *)
Definition timeouts (n : nat) : list action :=
  repeat (Iter (LDefault AcceptTimeout)) n.

(** The loop can take its default case: it is in its loop, nothing has
    panicked, the context is not cancelled and the close channel is
    empty. *)
Definition idle (st : Acc) : Prop :=
  at_ st = Accepting /\ panicked st = false
  /\ ctx_done (srv st) = false /\ closeCh (srv st) = [].

End AcceptorMore.

(** * Connections: context values, global requests, channel dispatch *)

Module Conn.
Import Net Auth Acceptor.

(** [type contextKey string]: a key of this package, or a key of another
    type, which equals none of this package's. *)
Inductive key : Type :=
| contextKey (name : string)
| foreignKey (type name : string).

Definition keySSHConn : key := contextKey "server-conn".
Definition keyEventHandler : key := contextKey "event-handler".

Definition key_eqb (a b : key) : bool :=
  match a, b with
  | contextKey x, contextKey y => String.eqb x y
  | foreignKey s x, foreignKey t y => String.eqb s t && String.eqb x y
  | _, _ => false
  end.

(** What a context holds under a key: a [*ssh.ServerConn], which may be
    the nil pointer, or a value of another type. *)
Inductive value : Type :=
| ServerConnValue (c : option ServerConn)
| OtherValue (v : nat).

(** A [context.Context], by the [context.WithValue] calls that built it,
    the latest first. [context.WithCancel] adds no value. *)
Definition Context : Type := list (key * value).

Definition Background : Context := [].

Definition WithValue (ctx : Context) (k : key) (v : value) : Context := (k, v) :: ctx.

(** [ctx.Value(k)]: the value of the latest binding of the key; the nil
    interface, [None], when there is none. *)
Fixpoint Value (ctx : Context) (k : key) : option value :=
  match ctx with
  | [] => None
  | (k', v) :: rest => if key_eqb k' k then Some v else Value rest k
  end.

(** [WithServerConn]. *)
Definition WithServerConn (ctx : Context) (sshConn : option ServerConn) : Context :=
  WithValue ctx keySSHConn (ServerConnValue sshConn).

(** [SSHServerConn]: the type assertion succeeds on a stored
    [*ssh.ServerConn], nil or not, and fails on anything else. *)
Definition SSHServerConn (ctx : Context) : option ServerConn * bool :=
  match Value ctx keySSHConn with
  | Some (ServerConnValue c) => (c, true)
  | _ => (None, false)
  end.

(** The events of a connection. *)
Inductive Event : Type :=
| HandshakeFailedEvent (local remote : TCPAddr) (err : error)
| HandshakeSuccessfulEvent (local remote : TCPAddr)
| RequestEvent (conn : option ServerConn) (requestType : string)
| UnknownRequestEvent (conn : option ServerConn) (requestType : string)
| ChannelEvent (conn : option ServerConn) (channelType : string)
| UnknownChannelEvent (conn : option ServerConn) (channelType : string).

(** An [ssh.NewChannel]: a number telling channels apart and what
    [ChannelType] returns. *)
Record NewChannel : Set := mkNewChannel {
  chan_id : nat;
  ChannelType : string
}.

(** [ssh.RejectionReason]. *)
Inductive RejectionReason : Set :=
| Prohibited
| ConnectionFailed
| UnknownChannelType
| ResourceShortage.

(** What a connection's task does to the world outside the server. *)
Inductive effect : Type :=
| Emit (e : Event)
    (* s.config.EventHandler(e) *)
| CallConnectionCallback (cb : ConnectionCallback) (c : TCPConn)
    (* s.config.ConnectionCallback(tcpConn) *)
| CallHandleRequest (hd : RequestHandler) (ctx : Context) (req : Session.Request)
    (* handler.HandleRequest(ctx, req) *)
| RequestReply (req : Session.Request) (ok : bool) (payload : list byte)
    (* req.Reply(ok, payload) *)
| Reject (ch : NewChannel) (reason : RejectionReason) (message : string)
    (* ch.Reject(reason, message) *)
| Spawn_handleRequests (ctx : Context) (requests : list Session.Request)
    (* go s.handleRequests(ctx, requests) *)
| Spawn_HandleChannel (hd : ChannelHandler) (ctx : Context) (ch : NewChannel)
    (* go handler.HandleChannel(ctx, ch) *)
| CancelCtx
    (* cancel() *)
| SSHWait (conn : ServerConn)
    (* sshConn.Wait() *)
| SSHClose (conn : ServerConn)
    (* sshConn.Close() *)
| TCPConnClose (c : TCPConn)
    (* tcpConn.Close() *)
| CloseChSend (c : TCPConn)
    (* s.closeCh <- tcpConn *)
| InSession (e : Session.effect).
    (* an effect of the session request loop *)

(** [Server.handleEvent]: the handler is called when one is configured. *)
Definition handleEvent (cfg : Config) (evt : Event) : list effect :=
  match EvtHandler cfg with
  | Some _ => [Emit evt]
  | None => []
  end.

(** A lookup in a handler map; a nil map has no entries. *)
Definition find_handler (m : option (gmap string nat)) (name : string) : option nat :=
  match m with
  | Some t => t !! name
  | None => None
  end.

(** What the request handlers return: the answer of the handler named
    [hd] to the request that is the [i]-th of its connection. *)
Definition Answers : Type := nat -> RequestHandler -> Session.Request -> bool * list byte.

(** One round of the loop of [Server.handleRequests], on the [i]-th
    request. *)
Definition serve_request (cfg : Config) (H : Answers) (ctx : Context)
    (conn : option ServerConn) (i : nat) (req : Session.Request) : list effect :=
  match find_handler (RequestHandlers cfg) (Session.ReqType req) with
  | None =>
      handleEvent cfg (UnknownRequestEvent conn (Session.ReqType req))
      ++ (if Session.WantReply req then [RequestReply req false []] else [])
  | Some handler =>
      handleEvent cfg (RequestEvent conn (Session.ReqType req))
      ++ [CallHandleRequest handler ctx req]
      ++ (let '(ret, payload) := H i handler req in
          if Session.WantReply req then [RequestReply req ret payload] else [])
  end.

Fixpoint handleRequests_from (cfg : Config) (H : Answers) (ctx : Context)
    (conn : option ServerConn) (i : nat) (in_ : list Session.Request) : list effect :=
  match in_ with
  | [] => []
  | req :: rest =>
      serve_request cfg H ctx conn i req ++ handleRequests_from cfg H ctx conn (S i) rest
  end.

(** [Server.handleRequests], on the requests that arrive until the
    stream is closed. *)
Definition handleRequests (cfg : Config) (H : Answers) (ctx : Context)
    (in_ : list Session.Request) : list effect :=
  let '(conn, _) := SSHServerConn ctx in
  handleRequests_from cfg H ctx conn 0 in_.

(** [Server.closeConn]. *)
Definition closeConn (tcpConn : TCPConn) : list effect :=
  [TCPConnClose tcpConn; CloseChSend tcpConn].

(** What [ssh.NewServerConn] returns: an error, or the connection with
    the channels and the global requests that arrive until their streams
    are closed. *)
Inductive handshake : Type :=
| HandshakeError (err : error)
| Handshaken (sshConn : ServerConn) (channels : list NewChannel)
    (requests : list Session.Request).

(** One round of the channel loop of [handleTCPConn]. *)
Definition dispatch_channel (cfg : Config) (sshConn : ServerConn) (ctx : Context)
    (ch : NewChannel) : list effect :=
  match find_handler (ChannelHandlers cfg) (ChannelType ch) with
  | None =>
      [Reject ch UnknownChannelType "unsupported channel type"]
      ++ handleEvent cfg (UnknownChannelEvent (Some sshConn) (ChannelType ch))
  | Some handler =>
      handleEvent cfg (ChannelEvent (Some sshConn) (ChannelType ch))
      ++ [Spawn_HandleChannel handler ctx ch]
  end.

(** [Server.handleTCPConn], with the values of the server's context and
    the result of the handshake. The deferred calls run last, in the
    reverse of the order they were deferred in. *)
Definition handleTCPConn (s : Server) (sctx : Context) (tcpConn : TCPConn)
    (hs : handshake) : list effect :=
  let cfg := config s in
  (match ConnCallback cfg with
   | Some cb => [CallConnectionCallback cb tcpConn]
   | None => []
   end)
  ++ (match hs with
      | HandshakeError err =>
          handleEvent cfg (HandshakeFailedEvent (LocalAddr tcpConn) (RemoteAddr tcpConn) err)
      | Handshaken sshConn channels requests =>
          let ctx := WithServerConn sctx (Some sshConn) in
          handleEvent cfg (HandshakeSuccessfulEvent (LocalAddr tcpConn) (RemoteAddr tcpConn))
          ++ [Spawn_handleRequests ctx requests]
          ++ flat_map (dispatch_channel cfg sshConn ctx) channels
          ++ [CancelCtx; SSHWait sshConn; SSHClose sshConn]
      end)
  ++ closeConn tcpConn.

(** How a call of [HandleChannel] ends. *)
Inductive ending : Set :=
| Ended        (* the function returned *)
| Unfinished   (* the request loop has not returned *)
| Crashed      (* a panic of the request loop left the function *)
| ProcessDied. (* a panic of the handler's task ended the process *)

(** The session of a channel run under a schedule of its two tasks, up to
    the point where the request loop returns or a task panics: the effects
    so far and how the run of the loop ended. *)
Fixpoint session_run (X : Session.Extern) (h : Session.sessionChannelHandler)
    (y : Session.Sys) (l : list Session.action) : list Session.effect * ending :=
  match l with
  | [] => ([], Unfinished)
  | a :: l' =>
      let '(y1, tr1) := Session.sys_step X h y a in
      if Session.crashed y1 then
        (tr1, match a with Session.LoopIter _ => Crashed | _ => ProcessDied end)
      else if Session.returned y1 then (tr1, Ended)
      else let '(tr2, e) := session_run X h y1 l' in (tr1 ++ tr2, e)
  end.

(** [sessionChannelHandler.HandleChannel], with what [newch.Accept]
    returns and the schedule of the session's two tasks. [conn.Close] on a
    nil connection is a nil dereference. The two deferred calls run when
    the function returns and when the request loop panics; a panic of the
    handler's task ends the process without them. *)
Definition HandleChannel (X : Session.Extern) (h : Session.sessionChannelHandler)
    (ctx : Context) (newch : NewChannel) (accept : result unit)
    (l : list Session.action) : list effect * ending :=
  match SSHServerConn ctx with
  | (_, false) => ([Reject newch ConnectionFailed "server error"], Ended)
  | (None, true) => ([], Crashed)
  | (Some conn, true) =>
      match accept with
      | Err _ =>
          ([Reject newch ConnectionFailed "failed to accept channel"; SSHClose conn], Ended)
      | Ok _ =>
          match session_run X h Session.start l with
          | (tr, Ended) =>
              (map InSession tr ++ [InSession Session.ChannelClose; SSHClose conn], Ended)
          | (tr, Crashed) =>
              (map InSession tr ++ [InSession Session.ChannelClose; SSHClose conn], Crashed)
          | (tr, e) => (map InSession tr, e)
          end
      end
  end.

(** The replies of a trace, the calls of request handlers, the events,
    the channels handed to a handler and the channels rejected. *)
Definition reply_of (e : effect) : list (Session.Request * bool * list byte) :=
  match e with RequestReply req ok p => [(req, ok, p)] | _ => [] end.
Definition call_of (e : effect) : list (RequestHandler * Session.Request) :=
  match e with CallHandleRequest hd _ req => [(hd, req)] | _ => [] end.
Definition event_of (e : effect) : list Event :=
  match e with Emit evt => [evt] | _ => [] end.
Definition spawned_of (e : effect) : list (ChannelHandler * Context * NewChannel) :=
  match e with Spawn_HandleChannel hd ctx ch => [(hd, ctx, ch)] | _ => [] end.
Definition rejected_of (e : effect) : list NewChannel :=
  match e with Reject ch _ _ => [ch] | _ => [] end.
Definition close_sent_of (e : effect) : list TCPConn :=
  match e with CloseChSend c => [c] | _ => [] end.

Definition replies (tr : list effect) := flat_map reply_of tr.
Definition calls (tr : list effect) := flat_map call_of tr.
Definition events (tr : list effect) := flat_map event_of tr.
Definition spawned (tr : list effect) := flat_map spawned_of tr.
Definition rejected (tr : list effect) := flat_map rejected_of tr.
Definition close_sent (tr : list effect) := flat_map close_sent_of tr.

(** Whether a request type, or a channel type, has a handler. *)
Definition known_request (cfg : Config) (req : Session.Request) : bool :=
  match find_handler (RequestHandlers cfg) (Session.ReqType req) with
  | Some _ => true
  | None => false
  end.
Definition known_channel (cfg : Config) (ch : NewChannel) : bool :=
  match find_handler (ChannelHandlers cfg) (ChannelType ch) with
  | Some _ => true
  | None => false
  end.

(** The answer a request gets when it asks for one: the handler's, or a
    refusal with no payload when its type has no handler. *)
Definition answer (cfg : Config) (H : Answers) (i : nat) (req : Session.Request)
  : bool * list byte :=
  match find_handler (RequestHandlers cfg) (Session.ReqType req) with
  | Some handler => H i handler req
  | None => (false, [])
  end.

(** The requests of a stream with their positions. *)
Fixpoint numbered (i : nat) (l : list Session.Request) : list (nat * Session.Request) :=
  match l with
  | [] => []
  | r :: rest => (i, r) :: numbered (S i) rest
  end.

End Conn.

(** * The package-level entry point and its options *)

Module Options.
Import Net Auth Acceptor.

(** What an option does to the configuration it is given: it changes it
    and returns nil, returns an error, or panics on an assignment to an
    entry of a nil map. *)
Inductive outcome : Type :=
| Applied (conf : Config)
| Failed (err : error)
| NilMapPanic.

(** [type OptionFunc]: a function from a pointer to the configuration to
    an error. *)
Definition OptionFunc : Type := Config -> outcome.

(** [ioutil.ReadFile] and [ssh.ParsePrivateKey]. *)
Record FileEnv : Type := mkFileEnv {
  ReadFile : string -> result (list byte);
  ParsePrivateKey : list byte -> result Signer
}.

Definition set_MaxConnections (c : Config) (n : Z) : Config :=
  mkConfig (Addr c) n (MaxClientConnections c) (MaxDeadline c)
    (MaxConnectionDuration c) (RequestHandlers c) (ChannelHandlers c)
    (ConnCallback c) (EvtHandler c) (PrivateKey c) (SrvConfig c) (SigChan c).
Definition set_MaxClientConnections (c : Config) (n : Z) : Config :=
  mkConfig (Addr c) (MaxConnections c) n (MaxDeadline c)
    (MaxConnectionDuration c) (RequestHandlers c) (ChannelHandlers c)
    (ConnCallback c) (EvtHandler c) (PrivateKey c) (SrvConfig c) (SigChan c).
Definition set_MaxConnectionDuration (c : Config) (d : Z) : Config :=
  mkConfig (Addr c) (MaxConnections c) (MaxClientConnections c) (MaxDeadline c)
    d (RequestHandlers c) (ChannelHandlers c)
    (ConnCallback c) (EvtHandler c) (PrivateKey c) (SrvConfig c) (SigChan c).
Definition set_RequestHandlers (c : Config) (m : option (gmap string RequestHandler))
  : Config :=
  mkConfig (Addr c) (MaxConnections c) (MaxClientConnections c) (MaxDeadline c)
    (MaxConnectionDuration c) m (ChannelHandlers c)
    (ConnCallback c) (EvtHandler c) (PrivateKey c) (SrvConfig c) (SigChan c).
Definition set_ChannelHandlers (c : Config) (m : option (gmap string ChannelHandler))
  : Config :=
  mkConfig (Addr c) (MaxConnections c) (MaxClientConnections c) (MaxDeadline c)
    (MaxConnectionDuration c) (RequestHandlers c) m
    (ConnCallback c) (EvtHandler c) (PrivateKey c) (SrvConfig c) (SigChan c).
Definition set_ConnCallback (c : Config) (f : option ConnectionCallback) : Config :=
  mkConfig (Addr c) (MaxConnections c) (MaxClientConnections c) (MaxDeadline c)
    (MaxConnectionDuration c) (RequestHandlers c) (ChannelHandlers c)
    f (EvtHandler c) (PrivateKey c) (SrvConfig c) (SigChan c).
Definition set_EvtHandler (c : Config) (h : option EventHandler) : Config :=
  mkConfig (Addr c) (MaxConnections c) (MaxClientConnections c) (MaxDeadline c)
    (MaxConnectionDuration c) (RequestHandlers c) (ChannelHandlers c)
    (ConnCallback c) h (PrivateKey c) (SrvConfig c) (SigChan c).
Definition set_PrivateKey (c : Config) (k : option Signer) : Config :=
  mkConfig (Addr c) (MaxConnections c) (MaxClientConnections c) (MaxDeadline c)
    (MaxConnectionDuration c) (RequestHandlers c) (ChannelHandlers c)
    (ConnCallback c) (EvtHandler c) k (SrvConfig c) (SigChan c).
Definition set_SigChan (c : Config) (ch : option SignalChan) : Config :=
  mkConfig (Addr c) (MaxConnections c) (MaxClientConnections c) (MaxDeadline c)
    (MaxConnectionDuration c) (RequestHandlers c) (ChannelHandlers c)
    (ConnCallback c) (EvtHandler c) (PrivateKey c) (SrvConfig c) ch.

Definition WithMaxConnections (conns : Z) : OptionFunc :=
  fun conf => Applied (set_MaxConnections conf conns).

Definition WithMaxClientConnections (conns : Z) : OptionFunc :=
  fun conf => Applied (set_MaxClientConnections conf conns).

Definition WithMaxDeadline (deadline : Z) : OptionFunc :=
  fun conf => Applied (set_MaxDeadline conf deadline).

Definition WithMaxConnectionDuration (timeout : Z) : OptionFunc :=
  fun conf => Applied (set_MaxConnectionDuration conf timeout).

Definition WithRequestHandler (reqType : string) (handler : RequestHandler) : OptionFunc :=
  fun conf =>
    match RequestHandlers conf with
    | Some m => Applied (set_RequestHandlers conf (Some (<[reqType := handler]> m)))
    | None => NilMapPanic
    end.

Definition WithChannelHandler (chType : string) (handler : ChannelHandler) : OptionFunc :=
  fun conf =>
    match ChannelHandlers conf with
    | Some m => Applied (set_ChannelHandlers conf (Some (<[chType := handler]> m)))
    | None => NilMapPanic
    end.

Definition WithConnectionCallback (fn : option ConnectionCallback) : OptionFunc :=
  fun conf => Applied (set_ConnCallback conf fn).

Definition WithEventHandler (handler : option EventHandler) : OptionFunc :=
  fun conf => Applied (set_EvtHandler conf handler).

Definition WithHostKey (signer : option Signer) : OptionFunc :=
  fun conf => Applied (set_PrivateKey conf signer).

(** The signer a key file gives, or the error of reading or parsing it. *)
Definition host_key (F : FileEnv) (filepath : string) : result Signer :=
  match ReadFile F filepath with
  | Err err => Err err
  | Ok pem => ParsePrivateKey F pem
  end.

Definition WithHostKeyFile (F : FileEnv) (filepath : string) : OptionFunc :=
  fun conf =>
    match ReadFile F filepath with
    | Err err => Failed err
    | Ok pem =>
        match ParsePrivateKey F pem with
        | Err err => Failed err
        | Ok signer => Applied (set_PrivateKey conf (Some signer))
        end
    end.

Definition WithSignalCh (ch : option SignalChan) : OptionFunc :=
  fun conf => Applied (set_SigChan conf ch).

Definition WithServerConfig (c : option ServerConfig) : OptionFunc :=
  fun conf => Applied (set_SrvConfig conf c).

Definition ErrNilServerConfig : error := "err: server config is nil".

(** The closure [WithPasswordAuth] installs: [&ssh.Permissions{}] and no
    error for the configured user with the configured password, nil
    permissions and an error otherwise. *)
Definition passwordCallback (user password : string)
  : ConnMetadata -> list byte -> option Permissions * option error :=
  fun conn pw =>
    if String.eqb (meta_User conn) user && String.eqb (string_of_list_byte pw) password
    then (Some (mkPermissions None None), None)
    else (None, Some "Invalid username or password").

(** [WithPasswordAuth]. The configuration names the password callback by
    a number; [closure] is the name of [passwordCallback user password]. *)
Definition WithPasswordAuth (closure : nat) (user password : string) : OptionFunc :=
  fun conf =>
    match SrvConfig conf with
    | None => Failed ErrNilServerConfig
    | Some sc =>
        Applied (set_SrvConfig conf
                   (Some (mkServerConfig (NoClientAuth sc) (Some closure)
                            (PublicKeyCallback sc) (AuthLogCallback sc) (hostKeys sc))))
    end.

(** The closure [WithPublicKeyAuth] installs. *)
Definition publicKeyCallback (L : SSHLib) (pubkey : PublicKey) : Auth.PublicKeyCallback :=
  let wantedFingerprint := FingerprintLegacyMD5 L pubkey in
  fun conn key =>
    let fingerprint := FingerprintLegacyMD5 L key in
    if negb (String.eqb fingerprint wantedFingerprint)
    then (None, Some "error: unauthorized")
    else (Some (mkPermissions None
                  (Some (<[permKeyFingerprint := fingerprint]>
                           (<[permKeyData := string_of_list_byte (key_Marshal key)]>
                              (<[permKeyType := key_Type key]> ∅))))),
          None).

Definition WithPublicKeyAuth (L : SSHLib) (pubkey : PublicKey) : OptionFunc :=
  fun conf =>
    match SrvConfig conf with
    | None => Failed ErrNilServerConfig
    | Some sc =>
        Applied (set_SrvConfig conf
                   (Some (mkServerConfig (NoClientAuth sc) (PasswordCallback sc)
                            (Some (publicKeyCallback L pubkey)) (AuthLogCallback sc)
                            (hostKeys sc))))
    end.

Definition WithAuthLogCallback (cb : option nat) : OptionFunc :=
  fun conf =>
    match SrvConfig conf with
    | None => Failed ErrNilServerConfig
    | Some sc =>
        Applied (set_SrvConfig conf
                   (Some (mkServerConfig (NoClientAuth sc) (PasswordCallback sc)
                            (PublicKeyCallback sc) cb (hostKeys sc))))
    end.

Definition WithNoClientAuth : OptionFunc :=
  fun conf =>
    match SrvConfig conf with
    | None => Failed ErrNilServerConfig
    | Some sc =>
        Applied (set_SrvConfig conf
                   (Some (mkServerConfig true (PasswordCallback sc)
                            (PublicKeyCallback sc) (AuthLogCallback sc) (hostKeys sc))))
    end.

(** The options of the package. *)
Inductive library_option (F : FileEnv) (L : SSHLib) : OptionFunc -> Prop :=
| lib_MaxConnections conns : library_option F L (WithMaxConnections conns)
| lib_MaxClientConnections conns : library_option F L (WithMaxClientConnections conns)
| lib_MaxDeadline d : library_option F L (WithMaxDeadline d)
| lib_MaxConnectionDuration d : library_option F L (WithMaxConnectionDuration d)
| lib_RequestHandler t hd : library_option F L (WithRequestHandler t hd)
| lib_ChannelHandler t hd : library_option F L (WithChannelHandler t hd)
| lib_ConnectionCallback fn : library_option F L (WithConnectionCallback fn)
| lib_EventHandler hd : library_option F L (WithEventHandler hd)
| lib_HostKey k : library_option F L (WithHostKey k)
| lib_HostKeyFile path : library_option F L (WithHostKeyFile F path)
| lib_SignalCh ch : library_option F L (WithSignalCh ch)
| lib_ServerConfig c : library_option F L (WithServerConfig c)
| lib_PasswordAuth closure user password :
    library_option F L (WithPasswordAuth closure user password)
| lib_PublicKeyAuth pubkey : library_option F L (WithPublicKeyAuth L pubkey)
| lib_AuthLogCallback cb : library_option F L (WithAuthLogCallback cb)
| lib_NoClientAuth : library_option F L WithNoClientAuth.

(** The session channel handler the package registers:
    [NewSessionChannelHandler(DefaultHandler, true, false)]. *)
Definition default_session : Session.sessionChannelHandler := Session.mkHandler true false.

(** The configuration [ListenAndServe] starts from. *)
Definition initial_config (addr : string) : Config :=
  mkConfig addr 0 0 Second 0 (Some ∅) (Some ∅) None None None
    (Some (mkServerConfig false None None None [])) None.

(** The handler for [session] channels is registered unless the map has
    one; [sh] names [default_session] in the map. *)
Definition ensure_session (sh : ChannelHandler) (conf : Config) : outcome :=
  match ChannelHandlers conf with
  | Some m =>
      match m !! "session" with
      | Some _ => Applied conf
      | None => Applied (set_ChannelHandlers conf (Some (<["session" := sh]> m)))
      end
  | None => NilMapPanic
  end.

(** The loop over the options: the first error, or panic, ends it. *)
Fixpoint read_opts (opts : list OptionFunc) (conf : Config) : outcome :=
  match opts with
  | [] => Applied conf
  | opt :: rest =>
      match opt conf with
      | Applied conf1 => read_opts rest conf1
      | o => o
      end
  end.

(** How [ListenAndServe] stands when it calls [srv.ListenAndServe]. *)
Inductive setup_result : Type :=
| Started (srv : Server)
| Refused (err : error)
| SetupPanic.

(** The package's [ListenAndServe], up to the call of
    [srv.ListenAndServe]. The server is made under
    [context.Background()], which is never cancelled. *)
Definition ListenAndServe_setup (L : SSHLib) (sh : ChannelHandler) (addr : string)
    (opts : list OptionFunc) : setup_result :=
  match ensure_session sh (initial_config addr) with
  | Applied conf0 =>
      match read_opts opts conf0 with
      | Applied conf =>
          match snd (New L false conf) with
          | Ok srv => Started srv
          | Err err => Refused err
          end
      | Failed err => Refused err
      | NilMapPanic => SetupPanic
      end
  | Failed err => Refused err
  | NilMapPanic => SetupPanic
  end.

(** The connection a password authentication leaves: it carries the
    permissions the password callback returned. *)
Definition password_authenticated
    (cb : ConnMetadata -> list byte -> option Permissions * option error)
    (meta : ConnMetadata) (pw : list byte) : option ServerConn :=
  match cb meta pw with
  | (perm, None) => Some (mkServerConn (meta_User meta) perm)
  | (_, Some _) => None
  end.

(** Both handler maps exist and session channels have a handler. *)
Definition handlers_ok (conf : Config) : Prop :=
  (exists m, ChannelHandlers conf = Some m /\ is_Some (m !! "session"))
  /\ is_Some (RequestHandlers conf).

End Options.

(** * The request loop before a handler exists *)

Module Alone.
Import Signals Session.

(** The loop state at the send of a [window-change] request on a session
    with a PTY: the window has been assigned, [sess.pty.Window = win],
    and not yet sent. For every other select case it is the state as it
    was. *)
Definition at_send (X : Extern) (st : LoopState) (i : sel) : LoopState :=
  match i with
  | SelReq (Some req) =>
      if String.eqb (ReqType req) "window-change" then
        match pty (sess st) with
        | Some p =>
            let '(win, ok) := parseWinchRequest X (Payload req) in
            if ok then set_sess st (set_pty (sess st) (Some (mkPty (Term p) win (Modes p))))
            else st
        | None => st
        end
      else st
  | _ => st
  end.

(** Where the loop stands. *)
Inductive standing : Type :=
| Serving (st : LoopState)
    (* at its select *)
| HasReturned
    (* [handleRequests] has returned *)
| HandlerStarted (st : LoopState)
    (* [sess.handle] has started the handler *)
| ParkedAtSend (st : LoopState)
    (* stopped at [sess.winch <- win] *)
| PanickedAtSend (st : LoopState).
    (* [sess.winch <- win] on a closed channel *)

(** The loop on its own. The session is a local of [handleRequests], and
    the window channel is made by [handlePtyReq]: until [sess.handle]
    hands the session to the handler, only the loop acts on them. So the
    loop takes its select cases one after the other, and a send on the
    window channel that cannot proceed never will: the loop takes no
    further case, not even that of the cancelled context. The account
    ends where the handler is started. *)
Fixpoint serve (X : Extern) (h : sessionChannelHandler) (st : LoopState) (l : list sel)
  : list effect * standing :=
  match l with
  | [] => ([], Serving st)
  | i :: l' =>
      match handleRequests_iter X h st i with
      | Continue st1 tr1 =>
          if (0 <? spawns tr1)%nat then (tr1, HandlerStarted st1)
          else let '(tr2, e) := serve X h st1 l' in (tr1 ++ tr2, e)
      | Returned => ([], HasReturned)
      | Blocked => ([], ParkedAtSend (at_send X st i))
      | Panicked tr => (tr, PanickedAtSend (at_send X st i))
      end
  end.

End Alone.

(** * Permissions as shared objects *)

Module Shared.
Import Net Auth.

(** An [ssh.Permissions] object: its two fields refer to maps by their
    addresses, and a nil map is [None]. An address is the index of an
    object, or of a map, in the heap; a pointer is an address or nil. *)
Record PermObj : Set := mkPermObj {
  CriticalOptionsRef : option nat;
  ExtensionsRef : option nat
}.

(** The [ssh.Permissions] objects and the [map[string]string] maps of the
    program. Nothing is freed, and a new object or map takes the next
    address. *)
Record Heap : Type := mkHeap {
  objs : list PermObj;
  maps : list (gmap string string)
}.

(** [map[string]string{}]. *)
Definition new_map (h : Heap) : nat * Heap :=
  (length (maps h), mkHeap (objs h) (maps h ++ [∅])).

(** [&ssh.Permissions{...}]. *)
Definition new_obj (o : PermObj) (h : Heap) : nat * Heap :=
  (length (objs h), mkHeap (objs h ++ [o]) (maps h)).

(** [perm.Extensions = m]. *)
Definition set_Extensions (p : nat) (m : option nat) (h : Heap) : Heap :=
  mkHeap (alter (fun o => mkPermObj (CriticalOptionsRef o) m) p (objs h)) (maps h).

(** [m[k] = v]. *)
Definition map_store (m : nat) (k v : string) (h : Heap) : Heap :=
  mkHeap (objs h) (alter (fun t => <[k := v]> t) m (maps h)).

(** [perm.Extensions]. *)
Definition Extensions_of (h : Heap) (p : nat) : option nat :=
  match objs h !! p with
  | Some o => ExtensionsRef o
  | None => None
  end.

(** The entries of a map; a nil map has none. *)
Definition entries (h : Heap) (m : option nat) : gmap string string :=
  match m with
  | Some a => default ∅ (maps h !! a)
  | None => ∅
  end.

(** A [PublicKeyCallback] of a program with shared objects: it may
    allocate, write to the heap, and return a pointer to any permissions
    object. *)
Definition PublicKeyCallback : Type :=
  ConnMetadata -> PublicKey -> Heap -> (option nat * option error) * Heap.

(** A map that is not nil is a map of the heap, and a pointer that is
    not nil refers to an object of the heap whose two maps are maps of
    the heap: no Go value dangles. *)
Definition allocated_map (h : Heap) (m : option nat) : Prop :=
  match m with
  | Some a => is_Some (maps h !! a)
  | None => True
  end.

Definition allocated (h : Heap) (perm : option nat) : Prop :=
  match perm with
  | Some p =>
      exists o, objs h !! p = Some o
                /\ allocated_map h (CriticalOptionsRef o)
                /\ allocated_map h (ExtensionsRef o)
  | None => True
  end.

(** The part of [pubKeyCallbackWrapper] that ensures [perm.Extensions]
    exists: the object and the map the entries are written to, and the
    heap in which both exist. Nil permissions give a new object with a new
    map; an object whose extensions map is nil gets a new map; an object
    with a map is left as it is. *)
Definition ensure_Extensions (h1 : Heap) (perm : option nat) : nat * nat * Heap :=
  match perm with
  | None =>
      let '(m, ha) := new_map h1 in
      let '(p, hb) := new_obj (mkPermObj None (Some m)) ha in
      (p, m, hb)
  | Some p =>
      match Extensions_of h1 p with
      | None =>
          let '(m, ha) := new_map h1 in
          (p, m, set_Extensions p (Some m) ha)
      | Some m => (p, m, h1)
      end
  end.

(** [pubKeyCallbackWrapper], on objects: the three entries are written
    into the extensions map of the caller's object, or of a new object
    when the caller returned nil, and the pointer to that object is
    returned. *)
Definition pubKeyCallbackWrapper (L : SSHLib) (cb : option PublicKeyCallback)
  : PublicKeyCallback :=
  fun meta key h =>
    match cb with
    | None => ((None, Some ErrNoAuth), h)
    | Some f =>
        let '((perm, err), h1) := f meta key h in
        match err with
        | Some e => ((None, Some e), h1)
        | None =>
            let '(p, m, h2) := ensure_Extensions h1 perm in
            let h3 := map_store m permKeyType (key_Type key) h2 in
            let h4 := map_store m permKeyData (string_of_list_byte (key_Marshal key)) h3 in
            let h5 := map_store m permKeyFingerprint (FingerprintLegacyMD5 L key) h4 in
            ((Some p, None), h5)
        end
    end.

(** [*ssh.ServerConn]: its [Permissions] field is a pointer. *)
Record ServerConn : Set := mkServerConn {
  conn_User : string;
  conn_Permissions : option nat
}.

(** [session.PublicKey], on the session's parent connection, in the heap
    as it is when the method is called. *)
Definition session_PublicKey (L : SSHLib) (h : Heap) (conn : ServerConn)
  : option PublicKey :=
  match conn_Permissions conn with
  | None => None
  | Some perms =>
      match Extensions_of h perms with
      | None => None
      | Some m =>
          match entries h (Some m) !! permKeyData with
          | Some keyData =>
              match ParsePublicKey L (list_byte_of_string keyData) with
              | Ok key => Some key
              | Err _ => None
              end
          | None => None
          end
      end
  end.

(** The connection the SSH library hands to the session after a
    public-key authentication: its permissions are the pointer the
    configured callback returned for the key. *)
Definition authenticated (cb : PublicKeyCallback) (meta : ConnMetadata)
    (key : PublicKey) (h : Heap) : option ServerConn * Heap :=
  match cb meta key h with
  | ((perm, None), h') => (Some (mkServerConn (meta_User meta) perm), h')
  | ((_, Some _), h') => (None, h')
  end.

(** What a permissions object holds: the entries of its two maps. *)
Definition content (h : Heap) (perm : option nat) : option Permissions :=
  match perm with
  | Some p =>
      match objs h !! p with
      | Some o =>
          Some (mkPermissions
                  (option_map (fun a => entries h (Some a)) (CriticalOptionsRef o))
                  (option_map (fun a => entries h (Some a)) (ExtensionsRef o)))
      | None => None
      end
  | None => None
  end.

(** The two maps of the object a pointer refers to are not one map. *)
Definition distinct_maps (h : Heap) (perm : option nat) : Prop :=
  match perm with
  | Some p =>
      match objs h !! p with
      | Some o =>
          forall a, CriticalOptionsRef o = Some a -> ExtensionsRef o = Some a -> False
      | None => True
      end
  | None => True
  end.

End Shared.

(** * Further examples *)

Module LateExamples.

(** A context in which a value of another package is bound after the
    connection was stored. *)
Definition foreign_binding : Conn.Context :=
  [(Conn.foreignKey "main.key" "server-conn", Conn.OtherValue 7)].

Definition admin_conn : Auth.ServerConn := Auth.mkServerConn "admin" None.

Definition session_channel : Conn.NewChannel := Conn.mkNewChannel 0 "session".

(** No file can be read. *)
Definition no_files : Options.FileEnv :=
  Options.mkFileEnv (fun _ => Err "open: no such file or directory")
    (fun _ => Err "ssh: no key found").

(** A configuration from the package's defaults. *)
Definition default_config : Acceptor.Config :=
  match Options.ensure_session 0%nat (Options.initial_config ":2022") with
  | Options.Applied c => c
  | _ => Options.initial_config ":2022"
  end.

Definition pty_request : Session.Request := Session.mkRequest "pty-req" true [].

Definition resize_request : Session.Request := Session.mkRequest "window-change" false [].

(** A shell request, then the context is done. *)
Definition shell_then_done : list Session.action :=
  [Session.LoopIter (Session.SelReq (Some Examples.shell_request));
   Session.LoopIter Session.SelDone].

(** The session after an accepted PTY request and a shell request: its
    handler has been started. *)
Definition handled_pty_session : Session.session :=
  Session.mkSession 1 0 0 [] [""]
    (Some (Session.mkPty "xterm" Examples.window80x24 []))
    (Some (Session.mkWinChan [Examples.window80x24] false)).

(** A shell request, then the context is done. *)
Definition shell_and_done : list Session.sel :=
  [Session.SelReq (Some Examples.shell_request); Session.SelDone].







End LateExamples.

(** * Properties *)

(** ** Machine integers *)

Lemma wrap64_small x : - 2 ^ 63 <= x < 2 ^ 63 -> wrap64 x = x.
Proof. intros H. unfold wrap64. rewrite Z.mod_small; lia. Qed.

Lemma wrap64_idem_add x y : wrap64 (wrap64 x + y) = wrap64 (x + y).
Proof.
  unfold wrap64.
  replace ((x + 2 ^ 63) mod 2 ^ 64 - 2 ^ 63 + y + 2 ^ 63)
    with ((x + 2 ^ 63) mod 2 ^ 64 + y) by ring.
  rewrite Zplus_mod_idemp_l. f_equal. f_equal. ring.
Qed.

Lemma CompareAndSwapUint64_spec v old new :
  CompareAndSwapUint64 v old new = if v =? old then (new, true) else (v, false).
Proof. reflexivity. Qed.

(** ** signal.go *)

Section SignalFacts.
Import Signals.

Lemma toSignal_known name : In name rfc4254_names -> is_err (toSignal name) = false.
Proof.
  unfold rfc4254_names. simpl.
  intros H. repeat (destruct H as [<- | H]; [reflexivity |]). destruct H.
Qed.

Lemma toSignal_unknown name : ~ In name rfc4254_names -> toSignal name = Err "unknown signal".
Proof.
  unfold rfc4254_names, toSignal. simpl. intros H.
  repeat match goal with
         | |- context [String.eqb name ?c] =>
             destruct (String.eqb_spec name c) as [E | _];
             [exfalso; apply H; rewrite E; auto 20 |]
         end.
  reflexivity.
Qed.

Lemma toSignal_err_iff name : is_err (toSignal name) = true <-> ~ In name rfc4254_names.
Proof.
  split.
  - intros E Hin. apply toSignal_known in Hin. congruence.
  - intros H. rewrite toSignal_unknown by exact H. reflexivity.
Qed.

End SignalFacts.

(** ** bytes.Replace and the PTY write normalization *)

Section ReplaceFacts.
Import GoBytes Session.

Lemma byte_eqb_refl (b : byte) : Byte.eqb b b = true.
Proof. apply Byte.byte_dec_lb. reflexivity. Qed.

Lemma byte_eqb_neq (a b : byte) : a <> b -> Byte.eqb a b = false.
Proof.
  intros H. destruct (Byte.eqb a b) eqn:E; [| reflexivity].
  apply Byte.byte_dec_bl in E. contradiction.
Qed.

Lemma replace_scan_neg fuel s old new n m :
  n < 0 -> m < 0 -> replace_scan fuel s old new n = replace_scan fuel s old new m.
Proof.
  revert s n m. induction fuel as [| fuel IH]; intros s n m Hn Hm; simpl; [reflexivity |].
  destruct (Z.eqb_spec n 0); [lia |]. destruct (Z.eqb_spec m 0); [lia |].
  destruct s as [| b s]; [reflexivity |].
  destruct (HasPrefix (b :: s) old); f_equal; apply IH; lia.
Qed.

Lemma replace_scan_fuel old new :
  old <> [] ->
  forall f1 f2 s n, n < 0 -> (length s <= f1)%nat -> (length s <= f2)%nat ->
    replace_scan f1 s old new n = replace_scan f2 s old new n.
Proof.
  intros Hold. induction f1 as [| f1 IH]; intros f2 s n Hn H1 H2.
  - destruct s; [| simpl in H1; lia]. destruct f2; simpl; [reflexivity |].
    destruct (n =? 0); reflexivity.
  - destruct f2 as [| f2].
    + destruct s; [| simpl in H2; lia]. simpl. destruct (n =? 0); reflexivity.
    + simpl. destruct (Z.eqb_spec n 0); [lia |].
      destruct s as [| b s]; [reflexivity |].
      simpl in H1, H2.
      destruct (HasPrefix (b :: s) old).
      * f_equal. apply IH; [lia | |].
        all: destruct old as [| o old']; [congruence |]; simpl;
          rewrite length_skipn; lia.
      * f_equal. apply IH; lia.
Qed.

Lemma replace_scan_S fuel s old new n :
  replace_scan (S fuel) s old new n
  = if n =? 0 then s
    else match s with
         | [] => []
         | b :: s' =>
             if HasPrefix s old
             then new ++ replace_scan fuel (skipn (length old) s) old new (n - 1)
             else b :: replace_scan fuel s' old new n
         end.
Proof. reflexivity. Qed.

Lemma Replace_nil old new n : Replace [] old new n = [].
Proof. reflexivity. Qed.

Lemma Replace_cons b s old new :
  old <> [] ->
  Replace (b :: s) old new (-1)
  = if HasPrefix (b :: s) old
    then new ++ Replace (skipn (length old) (b :: s)) old new (-1)
    else b :: Replace s old new (-1).
Proof.
  intros Hold. unfold Replace. change (length (b :: s)) with (S (length s)).
  rewrite replace_scan_S. change (-1 =? 0) with false. cbv iota.
  destruct (HasPrefix (b :: s) old).
  - f_equal. rewrite (replace_scan_neg _ _ _ _ (-1 - 1) (-1)) by lia.
    apply replace_scan_fuel; [exact Hold | lia | | lia].
    destruct old as [| o old']; [congruence |]. simpl. rewrite length_skipn. lia.
  - reflexivity.
Qed.

(** The first pass: every line feed gets a carriage return in front. *)
Lemma pass1_cons b s :
  Replace (b :: s) [LF] [CR; LF] (-1)
  = if Byte.eqb b LF then CR :: LF :: Replace s [LF] [CR; LF] (-1)
    else b :: Replace s [LF] [CR; LF] (-1).
Proof.
  rewrite Replace_cons by discriminate. simpl.
  destruct (Byte.byte_eq_dec b LF) as [-> | Hne].
  - rewrite byte_eqb_refl. reflexivity.
  - rewrite (byte_eqb_neq b LF) by exact Hne.
    rewrite (byte_eqb_neq LF b) by congruence. reflexivity.
Qed.

(** The output of the first pass never starts with a line feed. *)
Lemma pass1_head s b t : Replace s [LF] [CR; LF] (-1) = b :: t -> b <> LF.
Proof.
  destruct s as [| a s]; [discriminate |]. rewrite pass1_cons.
  destruct (Byte.eqb a LF) eqn:E; intros H; inversion H; subst.
  - discriminate.
  - intros ->. rewrite byte_eqb_refl in E. discriminate.
Qed.

(** The second pass on an input that starts with no carriage return. *)
Lemma pass2_other b s :
  b <> CR ->
  Replace (b :: s) [CR; CR; LF] [CR; LF] (-1) = b :: Replace s [CR; CR; LF] [CR; LF] (-1).
Proof.
  intros H. rewrite Replace_cons by discriminate. simpl.
  rewrite (byte_eqb_neq CR b) by congruence. reflexivity.
Qed.

Lemma pass2_cr_other b s :
  b <> CR ->
  Replace (CR :: b :: s) [CR; CR; LF] [CR; LF] (-1)
  = CR :: Replace (b :: s) [CR; CR; LF] [CR; LF] (-1).
Proof.
  intros H. rewrite Replace_cons by discriminate. simpl.
  rewrite (byte_eqb_neq CR b) by congruence. reflexivity.
Qed.

Lemma pass2_cr_cr_other b s :
  b <> LF ->
  Replace (CR :: CR :: b :: s) [CR; CR; LF] [CR; LF] (-1)
  = CR :: Replace (CR :: b :: s) [CR; CR; LF] [CR; LF] (-1).
Proof.
  intros H. rewrite Replace_cons by discriminate. simpl.
  rewrite (byte_eqb_neq LF b) by congruence. reflexivity.
Qed.

Lemma pass2_cr_cr_lf s :
  Replace (CR :: CR :: LF :: s) [CR; CR; LF] [CR; LF] (-1)
  = CR :: LF :: Replace s [CR; CR; LF] [CR; LF] (-1).
Proof. rewrite Replace_cons by discriminate. reflexivity. Qed.

(** The two passes together are the single pass [crlf]. *)
Lemma passes_crlf s :
  normalize s = crlf false s
  /\ Replace (CR :: Replace s [LF] [CR; LF] (-1)) [CR; CR; LF] [CR; LF] (-1)
     = CR :: crlf true s.
Proof.
  unfold normalize. induction s as [| b s [IHa IHb]].
  - split; reflexivity.
  - rewrite pass1_cons. simpl crlf.
    destruct (Byte.byte_eq_dec b LF) as [-> | Hlf].
    + rewrite byte_eqb_refl. split.
      * rewrite pass2_cr_other by discriminate.
        rewrite pass2_other by discriminate. rewrite IHa. reflexivity.
      * rewrite pass2_cr_cr_lf. rewrite IHa. reflexivity.
    + rewrite (byte_eqb_neq b LF) by exact Hlf.
      destruct (Byte.byte_eq_dec b CR) as [-> | Hcr].
      * rewrite byte_eqb_refl. split.
        -- exact IHb.
        -- destruct (Replace s [LF] [CR; LF] (-1)) as [| c t] eqn:E.
           ++ rewrite <- IHb. reflexivity.
           ++ rewrite pass2_cr_cr_other by (eapply pass1_head; exact E).
              rewrite IHb. reflexivity.
      * rewrite (byte_eqb_neq b CR) by exact Hcr. split.
        -- rewrite pass2_other by exact Hcr. rewrite IHa. reflexivity.
        -- rewrite pass2_cr_other by exact Hcr.
           rewrite pass2_other by exact Hcr. rewrite IHa. reflexivity.
Qed.

Lemma normalize_crlf s : normalize s = crlf false s.
Proof. apply passes_crlf. Qed.

(** The single pass produces normal output and leaves normal input alone. *)
Lemma crlf_is_normal c s : crlf_normal c (crlf c s) = true.
Proof.
  revert c. induction s as [| b s IH]; intros c; simpl; [reflexivity |].
  destruct (Byte.byte_eq_dec b LF) as [-> | Hlf].
  - rewrite byte_eqb_refl. destruct c; simpl; apply IH.
  - rewrite (byte_eqb_neq b LF) by exact Hlf. simpl.
    rewrite (byte_eqb_neq b LF) by exact Hlf. simpl. apply IH.
Qed.

Lemma crlf_fixes_normal c s : crlf_normal c s = true -> crlf c s = s.
Proof.
  revert c. induction s as [| b s IH]; intros c H; simpl in *; [reflexivity |].
  apply andb_true_iff in H as [H1 H2].
  destruct (Byte.eqb b LF) eqn:E.
  - apply Byte.byte_dec_bl in E. subst b. simpl in H2. rewrite H1. simpl.
    f_equal. apply IH. exact H2.
  - f_equal. apply IH. exact H2.
Qed.

Lemma normalize_idempotent p : normalize (normalize p) = normalize p.
Proof.
  rewrite (normalize_crlf (normalize p)). rewrite normalize_crlf.
  apply crlf_fixes_normal. apply crlf_is_normal.
Qed.

End ReplaceFacts.

(** ** The session *)

Section SessionFacts.
Import Signals GoBytes Session.

Variable X : Extern.
Variable h : sessionChannelHandler.

Lemma set_handled_same s : set_handled s (handled s) = s.
Proof. destruct s; reflexivity. Qed.

Lemma set_exited_same s : set_exited s (exited s) = s.
Proof. destruct s; reflexivity. Qed.

Lemma set_sess_same st : set_sess st (sess st) = st.
Proof. destruct st; reflexivity. Qed.

(** [handle] by the value of the flag it finds. *)
Lemma handle_spec s req :
  handle X s req
  = if handled s =? 0
    then (set_cmd (set_handled s 1) (shlex_Split X (Unmarshal_string X (Payload req))),
          [Reply true; SpawnHandler])
    else (s, [Reply false]).
Proof.
  unfold handle, CompareAndSwapUint64.
  destruct (handled s =? 0); simpl; [reflexivity |].
  rewrite set_handled_same. reflexivity.
Qed.

Lemma handle_dispatch st req :
  ReqType req = "shell" \/ ReqType req = "exec" ->
  handleRequests_iter X h st (SelReq (Some req))
  = Continue (set_sess st (fst (handle X (sess st) req))) (snd (handle X (sess st) req)).
Proof.
  intros H. unfold handleRequests_iter.
  assert (E : String.eqb (ReqType req) "shell" || String.eqb (ReqType req) "exec" = true).
  { destruct H as [-> | ->]; reflexivity. }
  rewrite E. destruct (handle X (sess st) req). reflexivity.
Qed.

(** [Exit] by the value of the flag it finds. *)
Lemma Exit_again s code sendErr :
  exited s <> 0 -> Exit s code sendErr = (s, RetErr "exit called more than once", []).
Proof.
  intros H. unfold Exit, CompareAndSwapUint64.
  destruct (Z.eqb_spec (exited s) 0); [contradiction |]. simpl.
  rewrite set_exited_same. reflexivity.
Qed.

Lemma Exit_first_ok s code ch :
  exited s = 0 -> winch s = Some ch -> closed ch = false ->
  Exit s code None
  = (set_winch (set_exited s 1) (Some (mkWinChan (buffered ch) true)), RetNil,
     [SendRequest "exit-status" false (Marshal_uint32 (uint32 code));
      CloseWinch; ChannelClose; ConnClose]).
Proof.
  intros He Hw Hc. unfold Exit, CompareAndSwapUint64. rewrite He. simpl.
  rewrite Hw, Hc. reflexivity.
Qed.

Lemma Exit_first_send_fails s code err :
  exited s = 0 ->
  Exit s code (Some err)
  = (set_exited s 1, RetErr err,
     [SendRequest "exit-status" false (Marshal_uint32 (uint32 code))]).
Proof. intros He. unfold Exit, CompareAndSwapUint64. rewrite He. reflexivity. Qed.

(** What any call of [Exit] does to the flags and how often it sends. *)
Lemma Exit_effects s code sendErr s1 r tr :
  Exit s code sendErr = (s1, r, tr) ->
  handled s1 = handled s
  /\ (exit_statuses tr <= if (exited s =? 0)%Z then 1 else 0)%nat
  /\ (exited s <> 0 -> exited s1 <> 0)
  /\ (exit_statuses tr = 1%nat -> exited s1 <> 0)
  /\ spawns tr = 0%nat.
Proof.
  unfold Exit, CompareAndSwapUint64, exit_statuses, spawns.
  destruct (Z.eqb_spec (exited s) 0) as [E | E]; simpl.
  - destruct sendErr as [err |]; [| destruct (winch s) as [ch |]; [destruct (closed ch) |]];
      intros H; inversion H; subst; simpl; repeat split; try lia; try discriminate.
  - intros H; inversion H; subst; simpl. repeat split; try lia; try assumption.
Qed.

(** Case analysis on every test of a hypothesis about an iteration. *)
Ltac split_tests H :=
  repeat match type of H with
         | context [match ?c with _ => _ end] => destruct c eqn:?
         end;
  repeat match goal with
         | E : context [match ?c with _ => _ end] |- _ => destruct c eqn:?
         end.

(** What one iteration of the request loop does to the two once-flags and
    how often it starts the handler or sends an exit status. *)
Lemma iter_effects st i st1 tr :
  handleRequests_iter X h st i = Continue st1 tr ->
  exited (sess st1) = exited (sess st)
  /\ exit_statuses tr = 0%nat
  /\ (spawns tr <= if (handled (sess st) =? 0)%Z then 1 else 0)%nat
  /\ (handled (sess st) <> 0 -> handled (sess st1) <> 0)
  /\ (spawns tr = 1%nat -> handled (sess st1) <> 0).
Proof.
  unfold handleRequests_iter, handle, handlePtyReq, handleWindowChange, handleSignal,
    CompareAndSwapUint64, exit_statuses, spawns.
  intros H. split_tests H; inversion H; subst; clear H; simpl in *;
    repeat match goal with
           | E : (_, _) = (_, _) |- _ => inversion E; subst; clear E; simpl in *
           | E : (_ =? _) = true |- _ => apply Z.eqb_eq in E
           | E : (_ =? _) = false |- _ => apply Z.eqb_neq in E
           end;
    repeat split; intros; try lia; try congruence.
Qed.

Lemma iter_panic_silent st i tr :
  handleRequests_iter X h st i = Panicked tr -> tr = [].
Proof.
  unfold handleRequests_iter, handle, handlePtyReq, handleWindowChange, handleSignal.
  intros H. split_tests H; inversion H; reflexivity.
Qed.

(** The same for one step of the whole session. *)
Lemma sys_step_effects y a y1 tr :
  sys_step X h y a = (y1, tr) ->
  (spawns tr <= if (handled (sess (loop y)) =? 0)%Z then 1 else 0)%nat
  /\ (handled (sess (loop y)) <> 0 -> handled (sess (loop y1)) <> 0)
  /\ (spawns tr = 1%nat -> handled (sess (loop y1)) <> 0)
  /\ (exit_statuses tr <= if (exited (sess (loop y)) =? 0)%Z then 1 else 0)%nat
  /\ (exited (sess (loop y)) <> 0 -> exited (sess (loop y1)) <> 0)
  /\ (exit_statuses tr = 1%nat -> exited (sess (loop y1)) <> 0).
Proof.
  assert (Hnil : forall y', (y', @nil effect) = (y1, tr) ->
            y' = y ->
            (spawns tr <= if (handled (sess (loop y)) =? 0)%Z then 1 else 0)%nat
            /\ (handled (sess (loop y)) <> 0 -> handled (sess (loop y1)) <> 0)
            /\ (spawns tr = 1%nat -> handled (sess (loop y1)) <> 0)
            /\ (exit_statuses tr <= if (exited (sess (loop y)) =? 0)%Z then 1 else 0)%nat
            /\ (exited (sess (loop y)) <> 0 -> exited (sess (loop y1)) <> 0)
            /\ (exit_statuses tr = 1%nat -> exited (sess (loop y1)) <> 0)).
  { intros y' E ->. inversion E; subst. unfold spawns, exit_statuses. simpl.
    repeat split; try tauto; try discriminate;
      destruct (_ =? 0); lia. }
  unfold sys_step. destruct (crashed y); [intros E; eapply Hnil; eauto |].
  destruct a as [i | code sendErr |].
  - destruct (returned y); [intros E; eapply Hnil; eauto |].
    destruct (handleRequests_iter X h (loop y) i) as [st tr0 | | | tr0] eqn:Hi.
    + intros E; inversion E; subst; clear E. simpl.
      destruct (iter_effects _ _ _ _ Hi) as (He & Hx & Hs & Hh & Hh1).
      rewrite He, Hx. repeat split; try assumption; try tauto; try discriminate.
      destruct (_ =? 0); lia.
    + intros E; inversion E; subst; clear E. unfold spawns, exit_statuses. simpl.
      repeat split; try tauto; try discriminate; destruct (_ =? 0); lia.
    + intros E; eapply Hnil; eauto.
    + apply iter_panic_silent in Hi. subst tr0.
      intros E; inversion E; subst; clear E. unfold spawns, exit_statuses. simpl.
      repeat split; try tauto; try discriminate; destruct (_ =? 0); lia.
  - destruct (Exit (sess (loop y)) code sendErr) as [[s1 r] tr0] eqn:He.
    destruct (Exit_effects _ _ _ _ _ _ He) as (Hh & Hn & Hk & Hk1 & Hs).
    assert (Hgoal : forall c, 
      (spawns tr0 <= if (handled (sess (loop y)) =? 0)%Z then 1 else 0)%nat
      /\ (handled (sess (loop y)) <> 0 ->
          handled (sess (loop (mkSys (set_sess (loop y) s1) (returned y) c))) <> 0)
      /\ (spawns tr0 = 1%nat ->
          handled (sess (loop (mkSys (set_sess (loop y) s1) (returned y) c))) <> 0)
      /\ (exit_statuses tr0 <= if (exited (sess (loop y)) =? 0)%Z then 1 else 0)%nat
      /\ (exited (sess (loop y)) <> 0 ->
          exited (sess (loop (mkSys (set_sess (loop y) s1) (returned y) c))) <> 0)
      /\ (exit_statuses tr0 = 1%nat ->
          exited (sess (loop (mkSys (set_sess (loop y) s1) (returned y) c))) <> 0)).
    { intros c. simpl. rewrite Hh, Hs. repeat split; try assumption; try tauto;
        try discriminate. destruct (_ =? 0); lia. }
    destruct r; intros E; inversion E; subst; apply Hgoal.
  - destruct (winch (sess (loop y))) as [[[| w ws] c] |] eqn:Hw;
      try (intros E; eapply Hnil; eauto; fail).
    intros E; inversion E; subst; clear E. unfold spawns, exit_statuses. simpl.
    repeat split; try tauto; try discriminate; destruct (_ =? 0); lia.
Qed.

Lemma spawns_app tr1 tr2 : spawns (tr1 ++ tr2) = (spawns tr1 + spawns tr2)%nat.
Proof. unfold spawns. rewrite filter_app, length_app. reflexivity. Qed.

Lemma exit_statuses_app tr1 tr2 :
  exit_statuses (tr1 ++ tr2) = (exit_statuses tr1 + exit_statuses tr2)%nat.
Proof. unfold exit_statuses. rewrite filter_app, length_app. reflexivity. Qed.

(** Over any schedule the handler is started at most once, and not at all
    once the handled flag is set. *)
Lemma run_spawns y l :
  (spawns (snd (run X h y l)) <= if (handled (sess (loop y)) =? 0)%Z then 1 else 0)%nat.
Proof.
  revert y. induction l as [| a l IH]; intros y; simpl.
  - unfold spawns; simpl. destruct (_ =? 0); lia.
  - destruct (sys_step X h y a) as [y1 tr1] eqn:Hs.
    specialize (IH y1). destruct (run X h y1 l) as [y2 tr2]. simpl in *.
    rewrite spawns_app.
    destruct (sys_step_effects _ _ _ _ Hs) as (H1 & H2 & H3 & _).
    destruct (Z.eqb_spec (handled (sess (loop y))) 0) as [E | E].
    + destruct (Z.eqb_spec (handled (sess (loop y1))) 0) as [E1 | E1]; [| lia].
      assert (spawns tr1 <> 1%nat) by (intros K; apply H3 in K; contradiction). lia.
    + apply H2 in E. destruct (Z.eqb_spec (handled (sess (loop y1))) 0); [contradiction | lia].
Qed.

(** Over any schedule an exit status is sent at most once, and not at all
    once the exited flag is set. *)
Lemma run_exit_statuses y l :
  (exit_statuses (snd (run X h y l))
   <= if (exited (sess (loop y)) =? 0)%Z then 1 else 0)%nat.
Proof.
  revert y. induction l as [| a l IH]; intros y; simpl.
  - unfold exit_statuses; simpl. destruct (_ =? 0); lia.
  - destruct (sys_step X h y a) as [y1 tr1] eqn:Hs.
    specialize (IH y1). destruct (run X h y1 l) as [y2 tr2]. simpl in *.
    rewrite exit_statuses_app.
    destruct (sys_step_effects _ _ _ _ Hs) as (_ & _ & _ & H1 & H2 & H3).
    destruct (Z.eqb_spec (exited (sess (loop y))) 0) as [E | E].
    + destruct (Z.eqb_spec (exited (sess (loop y1))) 0) as [E1 | E1]; [| lia].
      assert (exit_statuses tr1 <> 1%nat) by (intros K; apply H3 in K; contradiction). lia.
    + apply H2 in E. destruct (Z.eqb_spec (exited (sess (loop y1))) 0); [contradiction | lia].
Qed.

(** *** Numbers on the wire *)

Lemma Z_of_byte_of_Z z : Z_of_byte (byte_of_Z z) = z mod 256.
Proof.
  unfold Z_of_byte, byte_of_Z.
  assert (Hb : 0 <= z mod 256 < 256) by (apply Z.mod_pos_bound; lia).
  destruct (Byte.of_N (Z.to_N (z mod 256))) as [b |] eqn:E.
  - apply Byte.to_of_N in E. rewrite E. apply Z2N.id. lia.
  - apply Byte.of_N_None_iff in E. lia.
Qed.

Lemma Marshal_uint32_value v :
  0 <= v < 2 ^ 32 -> be_value (Marshal_uint32 v) = v.
Proof.
  intros Hv. unfold be_value, Marshal_uint32. simpl.
  rewrite !Z_of_byte_of_Z, !Z.shiftr_div_pow2 by lia.
  change (2 ^ 24) with 16777216. change (2 ^ 16) with 65536. change (2 ^ 8) with 256.
  change (2 ^ 32) with 4294967296 in Hv.
  pose proof (Z.div_mod v 256 ltac:(lia)) as D0.
  pose proof (Z.mod_pos_bound v 256 ltac:(lia)) as B0.
  assert (E1 : v / 65536 = v / 256 / 256) by (rewrite Z.div_div by lia; reflexivity).
  assert (E2 : v / 16777216 = v / 256 / 256 / 256) by (rewrite !Z.div_div by lia; reflexivity).
  rewrite E1, E2.
  set (q1 := v / 256) in *.
  pose proof (Z.div_mod q1 256 ltac:(lia)) as D1.
  pose proof (Z.mod_pos_bound q1 256 ltac:(lia)) as B1.
  set (q2 := q1 / 256) in *.
  pose proof (Z.div_mod q2 256 ltac:(lia)) as D2.
  pose proof (Z.mod_pos_bound q2 256 ltac:(lia)) as B2.
  set (q3 := q2 / 256) in *.
  assert (B3 : 0 <= q3 < 256) by lia.
  rewrite (Z.mod_small q3 256) by exact B3. lia.
Qed.

Lemma uint32_range x : 0 <= uint32 x < 2 ^ 32.
Proof. unfold uint32. apply Z.mod_pos_bound. lia. Qed.

(** *** The request loop *)

Lemma iter_returned_done st i : handleRequests_iter X h st i = Returned -> i = SelDone.
Proof.
  unfold handleRequests_iter, handle, handlePtyReq, handleWindowChange, handleSignal.
  intros H. split_tests H; try discriminate. reflexivity.
Qed.

Lemma returns_needs_done st l : returns X h st l = true -> In SelDone l.
Proof.
  revert st. induction l as [| i l IH]; intros st; simpl; [discriminate |].
  destruct (handleRequests_iter X h st i) eqn:E; try discriminate.
  - intros H. right. eapply IH. exact H.
  - intros _. left. eapply iter_returned_done. exact E.
Qed.

Lemma returns_at_done st pre post st1 tr :
  iterate X h st pre = Some (st1, tr) -> returns X h st (pre ++ SelDone :: post) = true.
Proof.
  revert st tr. induction pre as [| i pre IH]; intros st tr; simpl; [reflexivity |].
  destruct (handleRequests_iter X h st i) as [st2 tr2 | | |]; try discriminate.
  destruct (iterate X h st2 pre) as [[st3 tr3] |] eqn:E; [| discriminate].
  intros K. inversion K; subst. eapply IH. exact E.
Qed.

Lemma closed_stream_spins st n :
  iterate X h st (repeat (SelReq None) n) = Some (st, [])
  /\ returns X h st (repeat (SelReq None) n) = false.
Proof.
  induction n as [| n [IH1 IH2]]; simpl; [split; reflexivity |].
  rewrite IH1, IH2. split; reflexivity.
Qed.

(** *** Signals *)

Lemma signal_dispatch st req :
  ReqType req = "signal" ->
  handleRequests_iter X h st (SelReq (Some req)) = handleSignal X st req.
Proof. intros H. unfold handleRequests_iter. rewrite H. reflexivity. Qed.

Lemma unknown_signal_iter st req :
  ReqType req = "signal" ->
  ~ In (Unmarshal_string X (Payload req)) rfc4254_names ->
  handleRequests_iter X h st (SelReq (Some req)) = Continue st [].
Proof.
  intros Ht Hn. rewrite signal_dispatch by exact Ht. unfold handleSignal.
  rewrite toSignal_unknown by exact Hn. reflexivity.
Qed.

Lemma mkSys_running y : returned y = false -> crashed y = false -> mkSys (loop y) false false = y.
Proof. destruct y; simpl; intros -> ->; reflexivity. Qed.

Lemma unknown_signal_step y req :
  ReqType req = "signal" ->
  ~ In (Unmarshal_string X (Payload req)) rfc4254_names ->
  sys_step X h y (LoopIter (SelReq (Some req))) = (y, []).
Proof.
  intros Ht Hn. unfold sys_step.
  destruct (crashed y) eqn:Ec; [reflexivity |].
  destruct (returned y) eqn:Er; [reflexivity |].
  rewrite unknown_signal_iter by assumption.
  rewrite mkSys_running by assumption. reflexivity.
Qed.

Lemma signal_buffered st req sig :
  ReqType req = "signal" ->
  toSignal (Unmarshal_string X (Payload req)) = Ok sig ->
  signalCh st = None ->
  handleRequests_iter X h st (SelReq (Some req))
  = Continue (if (length (signalBuffer st) <? 128)%nat
              then mkLoop (sess st) None (signalBuffer st ++ [sig])
              else st) [].
Proof.
  intros Ht Hs Hc. rewrite signal_dispatch by exact Ht. unfold handleSignal.
  rewrite Hs, Hc. destruct (length (signalBuffer st) <? 128)%nat; reflexivity.
Qed.

Lemma signal_direct st req sig ch :
  ReqType req = "signal" ->
  toSignal (Unmarshal_string X (Payload req)) = Ok sig ->
  signalCh st = Some ch ->
  handleRequests_iter X h st (SelReq (Some req)) = Continue st [SinkSend ch sig].
Proof.
  intros Ht Hs Hc. rewrite signal_dispatch by exact Ht. unfold handleSignal.
  rewrite Hs, Hc. reflexivity.
Qed.

Lemma sink_registered st sigCh :
  handleRequests_iter X h st (SelSink sigCh)
  = Continue (mkLoop (sess st) sigCh (signalBuffer st))
      (match signalBuffer st with
       | [] => []
       | _ :: _ => [SpawnFlush sigCh (signalBuffer st)]
       end).
Proof. unfold handleRequests_iter. simpl. destruct (signalBuffer st); reflexivity. Qed.

Lemma iterate_cons st i l :
  iterate X h st (i :: l)
  = match handleRequests_iter X h st i with
    | Continue st1 tr1 =>
        match iterate X h st1 l with
        | Some (st2, tr2) => Some (st2, tr1 ++ tr2)
        | None => None
        end
    | _ => None
    end.
Proof. reflexivity. Qed.

(** A run of [signal] requests with no sink registered leaves the first
    128 decoded signals in the buffer, in arrival order, with no effect at
    all. *)
Lemma signals_buffered_fifo reqs :
  Forall (fun r => ReqType r = "signal") reqs ->
  forall st, signalCh st = None -> (length (signalBuffer st) <= 128)%nat ->
    iterate X h st (arrivals reqs)
    = Some (mkLoop (sess st) None (firstn 128 (signalBuffer st ++ valid_signals X reqs)), []).
Proof.
  induction 1 as [| r reqs Hr _ IH]; intros st Hc Hl.
  - simpl. rewrite app_nil_r, firstn_all2 by lia. destruct st; simpl in *; subst; reflexivity.
  - change (arrivals (r :: reqs)) with (SelReq (Some r) :: arrivals reqs).
    rewrite iterate_cons, signal_dispatch by exact Hr. unfold handleSignal.
    cbn [valid_signals flat_map]. fold (valid_signals X reqs).
    destruct (toSignal (Unmarshal_string X (Payload r))) as [sig | e].
    + rewrite Hc. destruct (Nat.ltb_spec (length (signalBuffer st)) 128) as [Hlt | Hge].
      * rewrite IH; simpl; [| reflexivity | rewrite length_app; simpl; lia].
        rewrite <- app_assoc. reflexivity.
      * rewrite IH by assumption. f_equal. f_equal. f_equal.
        rewrite !firstn_app.
        replace (128 - length (signalBuffer st))%nat with 0%nat by lia.
        reflexivity.
    + rewrite IH by assumption. reflexivity.
Qed.

Lemma iterate_app st l1 l2 :
  iterate X h st (l1 ++ l2)
  = match iterate X h st l1 with
    | Some (st1, tr1) =>
        match iterate X h st1 l2 with
        | Some (st2, tr2) => Some (st2, tr1 ++ tr2)
        | None => None
        end
    | None => None
    end.
Proof.
  revert st. induction l1 as [| i l1 IH]; intros st.
  - simpl. destruct (iterate X h st l2) as [[st2 tr2] |]; reflexivity.
  - rewrite <- app_comm_cons, !iterate_cons.
    destruct (handleRequests_iter X h st i) as [st1 tr1 | | |]; try reflexivity.
    rewrite IH. destruct (iterate X h st1 l1) as [[st2 tr2] |]; [| reflexivity].
    destruct (iterate X h st2 l2) as [[st3 tr3] |]; [| reflexivity].
    rewrite app_assoc. reflexivity.
Qed.

(** Signals sent before any sink is registered are handed, in arrival
    order and cut at 128, to the flush task of the first registration. *)
Lemma signals_then_sink reqs sigCh :
  Forall (fun r => ReqType r = "signal") reqs ->
  iterate X h init (arrivals reqs ++ [SelSink sigCh])
  = Some (mkLoop new_session sigCh (firstn 128 (valid_signals X reqs)),
          match firstn 128 (valid_signals X reqs) with
          | [] => []
          | _ :: _ => [SpawnFlush sigCh (firstn 128 (valid_signals X reqs))]
          end).
Proof.
  intros Hf. rewrite iterate_app.
  rewrite (signals_buffered_fifo reqs Hf init eq_refl) by (simpl; lia).
  simpl signalBuffer. simpl sess. rewrite app_nil_l.
  rewrite iterate_cons, sink_registered. simpl.
  destruct (firstn 128 (valid_signals X reqs)); reflexivity.
Qed.

End SessionFacts.

(** ** The claims about the session *)

Section SessionClaims.
Import Signals GoBytes Session.

Variable X : Extern.
Variable h : sessionChannelHandler.

(** C1. On any session and under any schedule of requests and handler
    actions the user's handler is started at most once. A [shell] or
    [exec] request is served by [handle]: when it finds the handled flag
    at 0 it swaps it to 1, replies true and starts the handler once; when
    it finds the flag set it replies false and leaves the session as it
    is. Once the flag is set no schedule starts the handler again. *)
Theorem handler_invoked_at_most_once :
  (forall s req,
      handle X s req
      = if handled s =? 0
        then (set_cmd (set_handled s 1) (shlex_Split X (Unmarshal_string X (Payload req))),
              [Reply true; SpawnHandler])
        else (s, [Reply false]))
  /\ (forall st req,
         ReqType req = "shell" \/ ReqType req = "exec" ->
         handleRequests_iter X h st (SelReq (Some req))
         = Continue (set_sess st (fst (handle X (sess st) req)))
             (snd (handle X (sess st) req)))
  /\ (forall st req,
         ReqType req = "shell" \/ ReqType req = "exec" ->
         handled (sess st) <> 0 ->
         handleRequests_iter X h st (SelReq (Some req)) = Continue st [Reply false])
  /\ (forall y l,
         (spawns (snd (run X h y l))
          <= if (handled (sess (loop y)) =? 0)%Z then 1 else 0)%nat)
  /\ (forall l, (spawns (snd (run X h start l)) <= 1)%nat).
Proof.
  split; [| split; [| split; [| split]]].
  - intros s req. apply handle_spec.
  - intros st req Ht. apply handle_dispatch. exact Ht.
  - intros st req Ht Hh. rewrite handle_dispatch by exact Ht.
    rewrite handle_spec. destruct (Z.eqb_spec (handled (sess st)) 0); [contradiction |].
    simpl. rewrite set_sess_same. reflexivity.
  - intros y l. apply run_spawns.
  - intros l. pose proof (run_spawns X h start l) as H. simpl in H. exact H.
Qed.

(** C2, as the code has it. Every first call of [Exit] swaps the exited
    flag from 0 to 1 and sends one [exit-status] request, before anything
    else, whose payload is the code reduced to 32 bits, as four bytes,
    most significant first. When the send succeeds on a session with an
    open window channel, it closes the window channel, the channel and the
    parent connection, in this order, and returns nil; when the send fails
    it returns the send's error and closes nothing; when the send succeeds
    on a session without a window channel, the close of the nil channel
    panics and nothing is closed. Every later call returns an error and
    neither sends nor closes. Under any schedule at most one [exit-status]
    is sent. *)
Theorem Exit_once :
  (forall s code ch,
      exited s = 0 -> winch s = Some ch -> closed ch = false ->
      Exit s code None
      = (set_winch (set_exited s 1) (Some (mkWinChan (buffered ch) true)), RetNil,
         [SendRequest "exit-status" false (Marshal_uint32 (uint32 code));
          CloseWinch; ChannelClose; ConnClose]))
  /\ (forall s code err,
         exited s = 0 ->
         Exit s code (Some err)
         = (set_exited s 1, RetErr err,
            [SendRequest "exit-status" false (Marshal_uint32 (uint32 code))]))
  /\ (forall s code,
         exited s = 0 -> winch s = None ->
         Exit s code None
         = (set_exited s 1, RetPanic "close of nil channel",
            [SendRequest "exit-status" false (Marshal_uint32 (uint32 code))]))
  /\ (forall s code sendErr,
         exited s = 0 ->
         exited (fst (fst (Exit s code sendErr))) = 1
         /\ exit_statuses (snd (Exit s code sendErr)) = 1%nat
         /\ hd_error (snd (Exit s code sendErr))
            = Some (SendRequest "exit-status" false (Marshal_uint32 (uint32 code)))
         /\ (snd (fst (Exit s code sendErr)) <> RetNil ->
             closes (snd (Exit s code sendErr)) = 0%nat))
  /\ (forall s code sendErr,
         exited s <> 0 ->
         Exit s code sendErr = (s, RetErr "exit called more than once", []))
  /\ (forall code,
         length (Marshal_uint32 (uint32 code)) = 4%nat
         /\ be_value (Marshal_uint32 (uint32 code)) = code mod 2 ^ 32)
  /\ (forall y l,
         (exit_statuses (snd (run X h y l))
          <= if (exited (sess (loop y)) =? 0)%Z then 1 else 0)%nat)
  /\ (forall l, (exit_statuses (snd (run X h start l)) <= 1)%nat).
Proof.
  split; [| split; [| split; [| split; [| split; [| split; [| split]]]]]].
  - intros s code ch. apply Exit_first_ok.
  - intros s code err. apply Exit_first_send_fails.
  - intros s code He Hw. unfold Exit, CompareAndSwapUint64.
    rewrite He. simpl. rewrite Hw. reflexivity.
  - intros s code sendErr He. unfold Exit, CompareAndSwapUint64.
    rewrite He. simpl.
    destruct sendErr as [err |]; simpl.
    + repeat split; try reflexivity.
    + destruct (winch s) as [ch |]; simpl.
      * destruct (closed ch); simpl; repeat split; try reflexivity.
        intros K. exfalso. apply K. reflexivity.
      * repeat split; try reflexivity.
  - intros s code sendErr. apply Exit_again.
  - intros code. split; [reflexivity |].
    rewrite Marshal_uint32_value by apply uint32_range. reflexivity.
  - intros y l. apply run_exit_statuses.
  - intros l. pose proof (run_exit_statuses X h start l) as H. simpl in H. exact H.
Qed.

(** C5, as the code has it. The request loop returns at the first
    iteration whose select takes the cancelled-context case, and at no
    other: a receive from the closed request stream yields nil, and the
    iteration continues the loop with the state unchanged, however often
    it is repeated. *)
Theorem request_loop_returns_on_cancel :
  (forall st, handleRequests_iter X h st SelDone = Returned)
  /\ (forall st pre post st1 tr,
         iterate X h st pre = Some (st1, tr) ->
         returns X h st (pre ++ SelDone :: post) = true)
  /\ (forall st l, returns X h st l = true -> In SelDone l)
  /\ (forall st n,
         iterate X h st (repeat (SelReq None) n) = Some (st, [])
         /\ returns X h st (repeat (SelReq None) n) = false).
Proof.
  split; [| split; [| split]].
  - intros st. reflexivity.
  - intros st pre post st1 tr. apply returns_at_done.
  - intros st l. apply returns_needs_done.
  - intros st n. apply closed_stream_spins.
Qed.

(** C6. With no sink registered, a [signal] request with a known name is
    appended to the buffer when fewer than 128 signals are buffered and is
    dropped otherwise, in both cases with no reply and no other effect; a
    run of such requests leaves the first 128 decoded signals in arrival
    order. A registration stores the sink and, when the buffer is not
    empty, starts a separate task with the sink and the buffer, which
    sends the buffered signals to the sink in that order. With a sink
    registered the loop sends each decoded signal to it directly. *)
Theorem signal_buffer_and_sink :
  (forall st req sig,
      ReqType req = "signal" ->
      toSignal (Unmarshal_string X (Payload req)) = Ok sig ->
      signalCh st = None ->
      handleRequests_iter X h st (SelReq (Some req))
      = Continue (if (length (signalBuffer st) <? 128)%nat
                  then mkLoop (sess st) None (signalBuffer st ++ [sig])
                  else st) [])
  /\ (forall reqs st,
         Forall (fun r => ReqType r = "signal") reqs ->
         signalCh st = None -> (length (signalBuffer st) <= 128)%nat ->
         iterate X h st (arrivals reqs)
         = Some (mkLoop (sess st) None
                   (firstn 128 (signalBuffer st ++ valid_signals X reqs)), []))
  /\ (forall st sigCh,
         handleRequests_iter X h st (SelSink sigCh)
         = Continue (mkLoop (sess st) sigCh (signalBuffer st))
             (match signalBuffer st with
              | [] => []
              | _ :: _ => [SpawnFlush sigCh (signalBuffer st)]
              end))
  /\ (forall ch buf, flush_task (Some ch) buf = map (SinkSend ch) buf)
  /\ (forall reqs sigCh,
         Forall (fun r => ReqType r = "signal") reqs ->
         iterate X h init (arrivals reqs ++ [SelSink sigCh])
         = Some (mkLoop new_session sigCh (firstn 128 (valid_signals X reqs)),
                 match firstn 128 (valid_signals X reqs) with
                 | [] => []
                 | _ :: _ => [SpawnFlush sigCh (firstn 128 (valid_signals X reqs))]
                 end))
  /\ (forall st req sig ch,
         ReqType req = "signal" ->
         toSignal (Unmarshal_string X (Payload req)) = Ok sig ->
         signalCh st = Some ch ->
         handleRequests_iter X h st (SelReq (Some req)) = Continue st [SinkSend ch sig]).
Proof.
  split; [| split; [| split; [| split; [| split]]]].
  - intros st req sig. apply signal_buffered.
  - intros reqs st Hf. apply signals_buffered_fifo. exact Hf.
  - intros st sigCh. apply sink_registered.
  - intros ch buf. reflexivity.
  - intros reqs sigCh. apply signals_then_sink.
  - intros st req sig ch. apply signal_direct.
Qed.

(** C7. The PTY write normalization (every line feed replaced by carriage
    return and line feed, then every carriage return, carriage return,
    line feed replaced by carriage return and line feed) is idempotent;
    and a [Write] on a session with a PTY puts the normalized bytes on the
    channel and reports a count that is at most the length of its input,
    although the normalized bytes can be longer than the input. *)
Theorem pty_write_normalization :
  (forall p, normalize (normalize p) = normalize p)
  /\ (forall s p chanWrite,
         pty s <> None ->
         fst (fst (Write s p chanWrite)) <= Z.of_nat (length p)
         /\ snd (Write s p chanWrite) = [ChannelWrite (normalize p)])
  /\ (length [LF] < length (normalize [LF]))%nat.
Proof.
  split; [| split].
  - intros p. apply normalize_idempotent.
  - intros s p chanWrite Hp. unfold Write.
    destruct (pty s) as [t |]; [| contradiction].
    destruct (chanWrite (normalize p)) as [n err]. simpl.
    split; [| reflexivity].
    destruct (Z.gtb_spec n (Z.of_nat (length p))); lia.
  - vm_compute. lia.
Qed.

(** C10. [toSignal] returns an error exactly for the names outside the
    thirteen names of RFC 4254; and a [signal] request with such a name
    makes the request loop go round with no reply, no send to a sink,
    nothing buffered and the whole state of the session unchanged. *)
Theorem unknown_signal_ignored :
  length rfc4254_names = 13%nat
  /\ (forall name, is_err (toSignal name) = true <-> ~ In name rfc4254_names)
  /\ (forall st req,
         ReqType req = "signal" ->
         ~ In (Unmarshal_string X (Payload req)) rfc4254_names ->
         handleRequests_iter X h st (SelReq (Some req)) = Continue st [])
  /\ (forall y req,
         ReqType req = "signal" ->
         ~ In (Unmarshal_string X (Payload req)) rfc4254_names ->
         sys_step X h y (LoopIter (SelReq (Some req))) = (y, [])).
Proof.
  split; [reflexivity | split; [| split]].
  - intros name. apply toSignal_err_iff.
  - intros st req. apply unknown_signal_iter.
  - intros y req. apply unknown_signal_step.
Qed.

End SessionClaims.

(** *** The session claims on concrete sessions *)

(** A first [shell] request on a fresh session is granted and starts the
    handler; a second one on the resulting session is refused and changes
    nothing. *)
Lemma handler_invoked_at_most_once_witness :
  Session.handleRequests_iter Examples.demoX Examples.demoH Session.init
    (Session.SelReq (Some Examples.shell_request))
  = Session.Continue
      (Session.mkLoop (Session.mkSession 1 0 0 [] [""] None None) None [])
      [Session.Reply true; Session.SpawnHandler]
  /\ Session.handleRequests_iter Examples.demoX Examples.demoH
       (Session.mkLoop (Session.mkSession 1 0 0 [] [""] None None) None [])
       (Session.SelReq (Some Examples.shell_request))
     = Session.Continue
         (Session.mkLoop (Session.mkSession 1 0 0 [] [""] None None) None [])
         [Session.Reply false].
Proof.
  pose proof (handler_invoked_at_most_once Examples.demoX Examples.demoH)
    as (_ & Hfirst & Hnext & _).
  split.
  - exact (Hfirst Session.init Examples.shell_request (or_introl eq_refl)).
  - apply Hnext; [left; reflexivity | simpl; lia].
Defined.

(** The session after an accepted PTY request and a shell request, its
    handler started: the first [Exit] with code 3, the send succeeding. *)
Lemma Exit_once_witness :
  Session.Exit LateExamples.handled_pty_session 3 None
  = (Session.mkSession 1 1 0 [] [""]
       (Some (Session.mkPty "xterm" Examples.window80x24 []))
       (Some (Session.mkWinChan [Examples.window80x24] true)),
     Session.RetNil,
     [Session.SendRequest "exit-status" false [x00; x00; x00; x03];
      Session.CloseWinch; Session.ChannelClose; Session.ConnClose]).
Proof.
  pose proof (Exit_once Examples.demoX Examples.demoH) as (Hfirst & _).
  exact (Hfirst LateExamples.handled_pty_session 3 _ eq_refl eq_refl eq_refl).
Defined.

(** A PTY request and a shell request start the handler of a session. Its
    first call of [Exit], the send failing: the exit status is sent, the
    error comes back, and neither the window channel nor the channel nor
    the connection is closed. *)
Lemma Exit_send_failure_closes_nothing :
  Session.sess
    (Session.loop
       (fst (Session.run Examples.demoX Examples.demoH Session.start
               [Session.LoopIter (Session.SelReq (Some LateExamples.pty_request));
                Session.LoopIter (Session.SelReq (Some Examples.shell_request))])))
  = LateExamples.handled_pty_session
  /\ Session.Exit LateExamples.handled_pty_session 0 (Some "EOF")
     = (Session.mkSession 1 1 0 [] [""]
          (Some (Session.mkPty "xterm" Examples.window80x24 []))
          (Some (Session.mkWinChan [Examples.window80x24] false)),
        Session.RetErr "EOF",
        [Session.SendRequest "exit-status" false [x00; x00; x00; x00]])
  /\ Session.closes (snd (Session.Exit LateExamples.handled_pty_session 0 (Some "EOF")))
     = 0%nat.
Proof. split; [reflexivity | split; reflexivity]. Qed.

(** The loop returns when the context case is taken after two idle
    iterations. *)
Lemma request_loop_returns_on_cancel_witness :
  Session.returns Examples.demoX Examples.demoH Session.init
    ([Session.SelReq None; Session.SelDefault] ++ [Session.SelDone]) = true.
Proof.
  pose proof (request_loop_returns_on_cancel Examples.demoX Examples.demoH)
    as (_ & Hdone & _).
  apply (Hdone Session.init [Session.SelReq None; Session.SelDefault] []
           Session.init []).
  reflexivity.
Defined.

(** With the request stream closed and the context not cancelled, an
    iteration leaves the loop where it was, and a thousand of them have
    not made it return. *)
Lemma closed_stream_does_not_end_loop :
  Session.handleRequests_iter Examples.demoX Examples.demoH Session.init
    (Session.SelReq None)
  = Session.Continue Session.init []
  /\ Session.returns Examples.demoX Examples.demoH Session.init
       (repeat (Session.SelReq None) 1000) = false.
Proof. split; [reflexivity | vm_compute; reflexivity]. Qed.

(** [signal INT] and [signal TERM], then a sink registered: the flush
    task gets SIGINT and SIGTERM, in this order, for that sink. *)
Lemma signal_buffer_and_sink_witness :
  Session.iterate Examples.demoX Examples.demoH Session.init
    (Session.arrivals [Examples.signal_request "INT"; Examples.signal_request "TERM"]
     ++ [Session.SelSink (Some 7%nat)])
  = Some (Session.mkLoop Session.new_session (Some 7%nat)
            [Signals.syscall_SIGINT; Signals.syscall_SIGTERM],
          [Session.SpawnFlush (Some 7%nat)
             [Signals.syscall_SIGINT; Signals.syscall_SIGTERM]]).
Proof.
  pose proof (signal_buffer_and_sink Examples.demoX Examples.demoH)
    as (_ & _ & _ & _ & Hflush & _).
  apply (Hflush [Examples.signal_request "INT"; Examples.signal_request "TERM"]
           (Some 7%nat)).
  repeat constructor.
Defined.

(** A one-byte write on a session with a PTY reports one byte although
    two go on the wire. *)
Lemma pty_write_normalization_witness :
  fst (fst (Session.Write Examples.pty_session [GoBytes.LF]
              (fun p => (Z.of_nat (length p), None)))) <= 1
  /\ snd (Session.Write Examples.pty_session [GoBytes.LF]
            (fun p => (Z.of_nat (length p), None)))
     = [Session.ChannelWrite [GoBytes.CR; GoBytes.LF]].
Proof.
  pose proof pty_write_normalization as (_ & Hw & _).
  apply (Hw Examples.pty_session [GoBytes.LF] (fun p => (Z.of_nat (length p), None))).
  discriminate.
Defined.

(** A [signal] request naming [FOO] is ignored. *)
Lemma unknown_signal_ignored_witness :
  Session.handleRequests_iter Examples.demoX Examples.demoH Session.init
    (Session.SelReq (Some (Examples.signal_request "FOO")))
  = Session.Continue Session.init [].
Proof.
  pose proof (unknown_signal_ignored Examples.demoX Examples.demoH) as (_ & _ & Hi & _).
  apply Hi; [reflexivity |].
  vm_compute. intros H.
  repeat (destruct H as [H | H]; [discriminate H |]). exact H.
Defined.

(** ** The public-key permission wrapper *)

Section AuthFacts.
Import Net Auth.

Variable L : SSHLib.

Lemma wrapper_error (cb : PublicKeyCallback) meta key perm e :
  cb meta key = (perm, Some e) ->
  pubKeyCallbackWrapper L (Some cb) meta key = (None, Some e).
Proof. intros H. unfold pubKeyCallbackWrapper. rewrite H. reflexivity. Qed.

Lemma wrapper_success (cb : PublicKeyCallback) meta key perm :
  cb meta key = (perm, None) ->
  pubKeyCallbackWrapper L (Some cb) meta key
  = (Some (mkPermissions (base_options perm)
             (Some (<[permKeyFingerprint := FingerprintLegacyMD5 L key]>
                      (<[permKeyData := string_of_list_byte (key_Marshal key)]>
                         (<[permKeyType := key_Type key]> (base_extensions perm)))))),
     None).
Proof.
  intros H. unfold pubKeyCallbackWrapper. rewrite H.
  destruct perm as [[co [ext |]] |]; reflexivity.
Qed.

Lemma injected_lookups (m : gmap string string) (t d f : string) :
  let ext := <[permKeyFingerprint := f]> (<[permKeyData := d]> (<[permKeyType := t]> m)) in
  ext !! permKeyType = Some t
  /\ ext !! permKeyData = Some d
  /\ ext !! permKeyFingerprint = Some f
  /\ (forall k, k <> permKeyType -> k <> permKeyData -> k <> permKeyFingerprint ->
      ext !! k = m !! k).
Proof.
  simpl. repeat split.
  - rewrite lookup_insert_ne by discriminate.
    rewrite lookup_insert_ne by discriminate. apply lookup_insert_eq.
  - rewrite lookup_insert_ne by discriminate. apply lookup_insert_eq.
  - apply lookup_insert_eq.
  - intros k H1 H2 H3. rewrite !lookup_insert_ne by congruence. reflexivity.
Qed.

(** The session of a connection authenticated through the wrapper gets
    back whatever the library parses from the marshaled key. *)
Lemma PublicKey_after_wrapper (cb : PublicKeyCallback) meta key conn :
  authenticated (pubKeyCallbackWrapper L (Some cb)) meta key = Some conn ->
  session_PublicKey L conn
  = match ParsePublicKey L (key_Marshal key) with
    | Ok k => Some k
    | Err _ => None
    end.
Proof.
  unfold authenticated. destruct (cb meta key) as [perm [e |]] eqn:Hcb.
  - rewrite (wrapper_error _ _ _ _ _ Hcb). discriminate.
  - rewrite (wrapper_success _ _ _ _ Hcb). intros H. inversion H; subst; clear H.
    unfold session_PublicKey. simpl.
    rewrite lookup_insert_ne by discriminate. rewrite lookup_insert_eq.
    rewrite list_byte_of_string_of_list_byte. reflexivity.
Qed.

End AuthFacts.

Section SharedFacts.
Import Net Auth Shared.

Variable L : SSHLib.

Lemma map_store_other m k v h a : a <> m -> maps (map_store m k v h) !! a = maps h !! a.
Proof. intros N. unfold map_store. simpl. apply list_lookup_alter_ne. congruence. Qed.

Lemma map_store_entries m k v h :
  is_Some (maps h !! m) ->
  entries (map_store m k v h) (Some m) = <[k := v]> (entries h (Some m))
  /\ is_Some (maps (map_store m k v h) !! m).
Proof.
  intros [t Ht]. unfold entries, map_store. simpl.
  rewrite !list_lookup_alter_eq, !Ht. simpl. split; [reflexivity | eauto].
Qed.

(** The three stores of the wrapper: they write into one map and leave
    the objects and the other maps as they were. *)
Lemma three_stores m t d f h :
  is_Some (maps h !! m) ->
  let h' := map_store m permKeyFingerprint f
              (map_store m permKeyData d (map_store m permKeyType t h)) in
  entries h' (Some m)
  = <[permKeyFingerprint := f]> (<[permKeyData := d]> (<[permKeyType := t]>
                                                          (entries h (Some m))))
  /\ is_Some (maps h' !! m)
  /\ objs h' = objs h
  /\ (forall a, a <> m -> maps h' !! a = maps h !! a).
Proof.
  intros H0.
  destruct (map_store_entries m permKeyType t h H0) as [E1 H1].
  destruct (map_store_entries m permKeyData d _ H1) as [E2 H2].
  destruct (map_store_entries m permKeyFingerprint f _ H2) as [E3 H3].
  cbv zeta. rewrite E3, E2, E1.
  split; [reflexivity |]. split; [exact H3 |]. split; [reflexivity |].
  intros a N. rewrite !map_store_other by exact N. reflexivity.
Qed.

Lemma shared_wrapper_success (cb : PublicKeyCallback) meta key h perm h1 :
  cb meta key h = ((perm, None), h1) ->
  pubKeyCallbackWrapper L (Some cb) meta key h
  = ((Some (fst (fst (ensure_Extensions h1 perm))), None),
     map_store (snd (fst (ensure_Extensions h1 perm))) permKeyFingerprint (FingerprintLegacyMD5 L key)
       (map_store (snd (fst (ensure_Extensions h1 perm))) permKeyData
          (string_of_list_byte (key_Marshal key))
          (map_store (snd (fst (ensure_Extensions h1 perm))) permKeyType (key_Type key)
             (snd (ensure_Extensions h1 perm))))).
Proof.
  intros H. unfold pubKeyCallbackWrapper. rewrite H.
  destruct (ensure_Extensions h1 perm) as [[p m] h2]. reflexivity.
Qed.

Lemma ensure_Extensions_spec h1 perm :
  allocated h1 perm ->
  let p := fst (fst (ensure_Extensions h1 perm)) in
  let m := snd (fst (ensure_Extensions h1 perm)) in
  let h2 := snd (ensure_Extensions h1 perm) in
  Extensions_of h2 p = Some m
  /\ is_Some (maps h2 !! m)
  /\ entries h2 (Some m)
     = entries h1 (match perm with Some p0 => Extensions_of h1 p0 | None => None end)
  /\ (forall a, a <> m -> maps h2 !! a = maps h1 !! a)
  /\ (forall q, q <> p -> objs h2 !! q = objs h1 !! q)
  /\ (perm = None ->
      p = length (objs h1) /\ m = length (maps h1)
      /\ objs h2 !! p = Some (mkPermObj None (Some m)))
  /\ (forall p0, perm = Some p0 -> p = p0)
  /\ (forall p0 m0, perm = Some p0 -> Extensions_of h1 p0 = Some m0 -> m = m0 /\ h2 = h1)
  /\ (forall p0 o,
         perm = Some p0 -> objs h1 !! p0 = Some o ->
         exists o2, objs h2 !! p0 = Some o2
                    /\ CriticalOptionsRef o2 = CriticalOptionsRef o).
Proof.
  intros Hal. unfold ensure_Extensions.
  destruct perm as [p0 |].
  - destruct Hal as (o & Ho & Hc & Hm).
    assert (Hx : Extensions_of h1 p0 = ExtensionsRef o)
      by (unfold Extensions_of; rewrite Ho; reflexivity).
    rewrite Hx.
    destruct (ExtensionsRef o) as [m0 |] eqn:Hext.
    + simpl.
      split; [exact Hx |]. split; [exact Hm |]. split; [reflexivity |].
      split; [reflexivity |]. split; [reflexivity |]. split; [discriminate |].
      split; [intros p1 K; congruence |].
      split; [intros p1 m1 K1 K2; split; [congruence | reflexivity] |].
      intros p1 o1 K1 K2. inversion K1; subst p1. exists o1. split; [exact K2 | reflexivity].
    + simpl. unfold Extensions_of at 1. simpl.
      rewrite list_lookup_alter_eq, Ho. simpl.
      split; [reflexivity |].
      split; [rewrite list_lookup_middle by reflexivity; eauto |].
      split; [unfold entries; rewrite list_lookup_middle by reflexivity; reflexivity |].
      split.
      { intros a N. destruct (decide (a < length (maps h1))%nat) as [Hlt | Hge].
        - apply lookup_app_l. exact Hlt.
        - rewrite lookup_ge_None_2 by (rewrite length_app; simpl; lia).
          symmetry. apply lookup_ge_None_2. lia. }
      split; [intros q N; apply list_lookup_alter_ne; congruence |].
      split; [discriminate |].
      split; [intros p1 K; congruence |].
      split; [intros p1 m1 K1 K2; inversion K1; subst p1; rewrite Hx in K2;
              discriminate K2 |].
      intros p1 o1 K1 K2. inversion K1; subst p1. rewrite Ho in K2. inversion K2; subst o1.
      eexists. split; [rewrite list_lookup_alter_eq, Ho; reflexivity | reflexivity].
  - simpl.
    split; [unfold Extensions_of; simpl; rewrite list_lookup_middle by reflexivity;
            reflexivity |].
    split; [rewrite list_lookup_middle by reflexivity; eauto |].
    split; [unfold entries; simpl; rewrite list_lookup_middle by reflexivity; reflexivity |].
    split.
    { intros a N. destruct (decide (a < length (maps h1))%nat) as [Hlt | Hge].
      - apply lookup_app_l. exact Hlt.
      - rewrite lookup_ge_None_2 by (rewrite length_app; simpl; lia).
        symmetry. apply lookup_ge_None_2. lia. }
    split.
    { intros q N. destruct (decide (q < length (objs h1))%nat) as [Hlt | Hge].
      - apply lookup_app_l. exact Hlt.
      - rewrite lookup_ge_None_2 by (rewrite length_app; simpl; lia).
        symmetry. apply lookup_ge_None_2. lia. }
    split; [intros _; split; [reflexivity | split; [reflexivity |]];
            rewrite list_lookup_middle by reflexivity; reflexivity |].
    split; [discriminate |]. split; discriminate.
Qed.




(** What the wrapper leaves after a successful call of the caller's
    callback. *)
Lemma shared_wrapper_spec (cb : PublicKeyCallback) meta key h perm h1 :
  cb meta key h = ((perm, None), h1) ->
  allocated h1 perm ->
  exists p m h2,
    pubKeyCallbackWrapper L (Some cb) meta key h = ((Some p, None), h2)
    /\ Extensions_of h2 p = Some m
    /\ is_Some (maps h2 !! m)
    /\ entries h2 (Some m)
       = <[permKeyFingerprint := FingerprintLegacyMD5 L key]>
           (<[permKeyData := string_of_list_byte (key_Marshal key)]>
              (<[permKeyType := key_Type key]>
                 (entries h1 (match perm with
                              | Some p0 => Extensions_of h1 p0
                              | None => None
                              end))))
    /\ (perm = None ->
        p = length (objs h1) /\ m = length (maps h1)
        /\ objs h2 !! p = Some (mkPermObj None (Some m)))
    /\ (forall p0, perm = Some p0 -> p = p0)
    /\ (forall q, q <> p -> objs h2 !! q = objs h1 !! q)
    /\ (forall a, a <> m -> maps h2 !! a = maps h1 !! a)
    /\ (forall p0 o,
           perm = Some p0 -> objs h1 !! p0 = Some o ->
           exists o2, objs h2 !! p0 = Some o2
                      /\ CriticalOptionsRef o2 = CriticalOptionsRef o)
    /\ (forall m0,
           match perm with Some p0 => Extensions_of h1 p0 | None => None end = Some m0 ->
           m = m0)
    /\ (match perm with Some p0 => Extensions_of h1 p0 | None => None end = None ->
        m = length (maps h1)).
Proof.
  intros Hcb Hal. rewrite (shared_wrapper_success cb meta key h perm h1 Hcb).
  destruct (ensure_Extensions_spec h1 perm Hal)
    as (T1 & T2 & T3 & T4 & T5 & T6 & T7 & T8 & T9).
  destruct (three_stores (snd (fst (ensure_Extensions h1 perm))) (key_Type key)
              (string_of_list_byte (key_Marshal key)) (FingerprintLegacyMD5 L key)
              (snd (ensure_Extensions h1 perm)) T2) as (S1 & S2 & S3 & S4).
  eexists _, _, _. split; [reflexivity |].
  split; [unfold Extensions_of; rewrite S3; exact T1 |].
  split; [exact S2 |].
  split; [rewrite S1, T3; reflexivity |].
  split; [intros Hn; destruct (T6 Hn) as (A & B & C); split; [exact A |];
          split; [exact B |]; rewrite S3; exact C |].
  split; [exact T7 |].
  split; [intros q N; rewrite S3; apply T5; exact N |].
  split; [intros a N; rewrite S4 by exact N; apply T4; exact N |].
  split; [intros p0 o K1 K2; rewrite S3; exact (T9 p0 o K1 K2) |].
  split.
  - intros m0 K. destruct perm as [p0 |]; [| discriminate K].
    destruct (T8 p0 m0 eq_refl K) as [A _]. exact A.
  - intros K. destruct perm as [p0 |].
    + unfold ensure_Extensions. rewrite K. reflexivity.
    + reflexivity.
Qed.


(** The permissions the wrapper returns hold what [Auth.pubKeyCallbackWrapper]
    computes from what the caller's permissions held, when the two maps of
    the caller's object are not one map. *)
Lemma content_after_wrapper (cb : PublicKeyCallback) meta key h perm h1 :
  cb meta key h = ((perm, None), h1) ->
  allocated h1 perm ->
  distinct_maps h1 perm ->
  content (snd (pubKeyCallbackWrapper L (Some cb) meta key h))
    (fst (fst (pubKeyCallbackWrapper L (Some cb) meta key h)))
  = fst (Auth.pubKeyCallbackWrapper L (Some (fun _ _ => (content h1 perm, None))) meta key).
Proof.
  intros Hcb Hal Hd.
  destruct (shared_wrapper_spec cb meta key h perm h1 Hcb Hal)
    as (p & m & h2 & HW & E1 & E2 & E3 & E4 & E5 & E6 & E7 & E8 & E9 & E10).
  rewrite HW. cbn [fst snd].
  erewrite wrapper_success by reflexivity.
  cbn [fst]. unfold content at 1.
  destruct perm as [p0 |].
  - destruct Hal as (o & Ho & Hc & Hm).
    pose proof (E5 p0 eq_refl) as ->.
    destruct (E8 p0 o eq_refl Ho) as (o2 & Ho2 & Hco).
    rewrite Ho2. unfold Extensions_of in E1. rewrite Ho2 in E1. rewrite E1, Hco.
    unfold content. rewrite Ho. cbn [option_map base_options base_extensions
                                     Auth.CriticalOptions Auth.Extensions].
    f_equal. f_equal.
    + destruct (CriticalOptionsRef o) as [c |] eqn:Hcr; [| reflexivity].
      cbn [option_map]. f_equal. unfold entries. rewrite E7; [reflexivity |].
      unfold Extensions_of in E9, E10. rewrite Ho in E9, E10.
      destruct (ExtensionsRef o) as [m0 |] eqn:Hex.
      * rewrite (E9 m0 eq_refl). intros ->.
        unfold distinct_maps in Hd. rewrite Ho in Hd. exact (Hd m0 Hcr Hex).
      * rewrite (E10 eq_refl). simpl in Hc.
        apply lookup_lt_is_Some in Hc. lia.
    + cbn [option_map]. rewrite E3. unfold Extensions_of. rewrite Ho.
      destruct (ExtensionsRef o); reflexivity.
  - destruct (E4 eq_refl) as (A & B & C). rewrite C.
    cbn [option_map CriticalOptionsRef ExtensionsRef]. rewrite E3. reflexivity.
Qed.

End SharedFacts.

Section AuthClaims.
Import Net Auth Shared.

Variable L : SSHLib.


End AuthClaims.



(** ** The accept loop *)

Section AcceptorFacts.
Import Net Auth Acceptor.

Lemma wrap64_sub1 x : wrap64 (wrap64 x - 1) = wrap64 (x - 1).
Proof.
  replace (wrap64 x - 1) with (wrap64 x + -1) by ring.
  rewrite wrap64_idem_add. reflexivity.
Qed.

Lemma wrap64_nat_small (n : nat) : Z.of_nat n < 2 ^ 63 -> wrap64 (Z.of_nat n) = Z.of_nat n.
Proof. intros H. apply wrap64_small. lia. Qed.

Lemma TCPConn_eqb_eq a b : TCPConn_eqb a b = true -> a = b.
Proof.
  unfold TCPConn_eqb. rewrite !andb_true_iff.
  intros [[[[H1 H2] H3] H4] H5].
  apply Nat.eqb_eq in H1. apply String.eqb_eq in H2. apply Z.eqb_eq in H3.
  apply String.eqb_eq in H4. apply Z.eqb_eq in H5.
  destruct a as [ia [la pa] [ra qa]], b as [ib [lb pb] [rb qb]]. simpl in *.
  congruence.
Qed.

Lemma from_ip_own c : from_ip (IP (RemoteAddr c)) c = true.
Proof. unfold from_ip. apply String.eqb_refl. Qed.

Lemma from_ip_other ip c : ip <> IP (RemoteAddr c) -> from_ip ip c = false.
Proof. intros H. unfold from_ip. apply String.eqb_neq. congruence. Qed.

Lemma count_ip_cons ip c l :
  count_ip ip (c :: l) = ((if from_ip ip c then 1 else 0) + count_ip ip l)%nat.
Proof. unfold count_ip. simpl. destruct (from_ip ip c); reflexivity. Qed.

Lemma count_ip_app ip l1 l2 : count_ip ip (l1 ++ l2) = (count_ip ip l1 + count_ip ip l2)%nat.
Proof. unfold count_ip. rewrite List.filter_app, length_app. reflexivity. Qed.

Lemma count_ip_le ip l : (count_ip ip l <= length l)%nat.
Proof. unfold count_ip. apply List.filter_length_le. Qed.

Lemma remove_task_spec c l r :
  remove_task c l = Some r ->
  length l = S (length r)
  /\ forall ip, count_ip ip l = ((if from_ip ip c then 1 else 0) + count_ip ip r)%nat.
Proof.
  revert r. induction l as [| x l IH]; intros r; simpl; [discriminate |].
  destruct (TCPConn_eqb c x) eqn:E.
  - apply TCPConn_eqb_eq in E. subst x. intros H. inversion H; subst.
    split; [reflexivity |]. intros ip. apply count_ip_cons.
  - destruct (remove_task c l) as [r' |]; [| discriminate].
    intros H. inversion H; subst. destruct (IH r' eq_refl) as [Hl Hc].
    split; [simpl; lia |]. intros ip. rewrite !count_ip_cons, Hc. lia.
Qed.

(** The invariant reads only the counters and the connections in flight. *)
Lemma registry_inv_ext st st' :
  openConnections st' = openConnections st ->
  wg st' = wg st ->
  panicked st' = panicked st ->
  clientConnections st' = clientConnections st ->
  in_flight st' = in_flight st ->
  registry_inv st -> registry_inv st'.
Proof.
  unfold registry_inv. intros -> -> -> -> ->. tauto.
Qed.

Lemma registry_inv_start s : closeCh s = [] -> registry_inv (listen_start s).
Proof.
  intros H. unfold registry_inv, listen_start, in_flight. simpl. rewrite H. simpl.
  split; [reflexivity | split; [reflexivity | split; [reflexivity |]]].
  intros ip. rewrite lookup_empty. reflexivity.
Qed.

(** Admission keeps the invariant. *)
Lemma admission_inv st c st' tr v :
  registry_inv st -> admission st c = (st', tr, v) -> registry_inv st'.
Proof.
  intros Hinv. unfold admission.
  destruct (_ && _); [intros H; inversion H; subst; exact Hinv |].
  destruct (_ && _); [intros H; inversion H; subst; exact Hinv |].
  intros H; inversion H; subst; clear H.
  destruct Hinv as (Ho & Hw & Hp & Hm).
  unfold registry_inv, in_flight in *. simpl.
  rewrite Ho, Hw. unfold int_add. rewrite wrap64_idem_add.
  repeat split.
  - f_equal. lia.
  - lia.
  - exact Hp.
  - intros ip. rewrite count_ip_cons.
    destruct (decide (ip = IP (RemoteAddr c))) as [-> | Hne].
    + rewrite lookup_insert_eq, from_ip_own. specialize (Hm (IP (RemoteAddr c))).
      unfold ipCount.
      destruct (clientConnections st !! IP (RemoteAddr c)) as [v0 |]; simpl.
      * rewrite Hm, wrap64_idem_add. f_equal. lia.
      * rewrite Hm. reflexivity.
    + rewrite lookup_insert_ne by congruence. rewrite from_ip_other by exact Hne.
      apply Hm.
Qed.

(** One iteration of the loop keeps the invariant. *)
Lemma listen_iter_inv st i :
  registry_inv st -> ready st i = true -> registry_inv (fst (listen_iter st i)).
Proof.
  intros Hinv Hr. unfold listen_iter.
  destruct i as [| | | [| e | c]].
  - eapply registry_inv_ext; [.. | exact Hinv]; reflexivity.
  - eapply registry_inv_ext; [.. | exact Hinv]; reflexivity.
  - simpl in Hr.
    destruct (closeCh (srv st)) as [| c rest] eqn:Hq; [discriminate Hr |].
    destruct Hinv as (Ho & Hw & Hp & Hm).
    unfold in_flight in *. rewrite Hq in *.
    rewrite length_app in Hw, Ho. simpl in Hw, Ho.
    destruct (Z.ltb_spec (wg st - 1) 0) as [Hneg | Hpos]; [lia |].
    unfold registry_inv, in_flight. simpl.
    rewrite Ho, Hw, length_app. unfold int_sub. rewrite wrap64_sub1.
    repeat split.
    + f_equal. lia.
    + lia.
    + exact Hp.
    + intros ip. pose proof (Hm ip) as Hip.
      rewrite count_ip_app, count_ip_cons in Hip. rewrite count_ip_app.
      destruct (decide (ip = IP (RemoteAddr c))) as [-> | Hne].
      * rewrite from_ip_own in Hip.
        destruct (clientConnections st !! IP (RemoteAddr c)) as [v0 |] eqn:Hl; [| lia].
        rewrite lookup_insert_eq. rewrite Hip, wrap64_sub1. f_equal. lia.
      * rewrite from_ip_other in Hip by exact Hne.
        destruct (clientConnections st !! IP (RemoteAddr c)) as [v0 |] eqn:Hl.
        -- rewrite lookup_insert_ne by congruence. exact Hip.
        -- exact Hip.
  - eapply registry_inv_ext; [.. | exact Hinv]; reflexivity.
  - eapply registry_inv_ext; [.. | exact Hinv]; reflexivity.
  - destruct (admission _ c) as [[st2 tr] v] eqn:Ha. simpl.
    eapply admission_inv; [| exact Ha].
    eapply registry_inv_ext; [.. | exact Hinv]; reflexivity.
Qed.

(** Every step of the server keeps the invariant. *)
Lemma step_inv st a : registry_inv st -> registry_inv (fst (step st a)).
Proof.
  intros Hinv. unfold step.
  destruct (panicked st) eqn:Hpan; [exact Hinv |].
  destruct a as [i | c | |].
  - destruct (at_ st); try exact Hinv.
    destruct (ready st i) eqn:Hr; [| exact Hinv].
    apply listen_iter_inv; assumption.
  - destruct (remove_task c (tasks st)) as [rest |] eqn:Hrm; [| exact Hinv].
    destruct (length (closeCh (srv st)) <? closeCh_cap)%nat; [| exact Hinv].
    apply remove_task_spec in Hrm as [Hl Hc].
    destruct Hinv as (Ho & Hw & Hp & Hm).
    unfold registry_inv, in_flight in *. simpl.
    rewrite Ho, Hw, !length_app, Hl. simpl.
    split; [f_equal; lia | split; [lia | split; [reflexivity |]]].
    intros ip. specialize (Hm ip).
    rewrite count_ip_app, Hc in Hm.
    rewrite !count_ip_app, count_ip_cons.
    replace (count_ip ip rest + (count_ip ip (closeCh (srv st))
               + ((if from_ip ip c then 1 else 0) + count_ip ip [])))%nat
      with ((if from_ip ip c then 1 else 0) + count_ip ip rest
            + count_ip ip (closeCh (srv st)))%nat
      by (change (count_ip ip []) with 0%nat; lia).
    exact Hm.
  - eapply registry_inv_ext; [.. | exact Hinv]; first [reflexivity | symmetry; exact Hpan].
  - destruct (at_ st); try exact Hinv.
    destruct (wg st =? 0); [| exact Hinv].
    eapply registry_inv_ext; [.. | exact Hinv]; first [reflexivity | symmetry; exact Hpan].
Qed.

Lemma run_inv l : forall st, registry_inv st -> registry_inv (fst (run st l)).
Proof.
  induction l as [| a l IH]; intros st Hinv; simpl; [exact Hinv |].
  pose proof (step_inv st a Hinv) as H1.
  destruct (step st a) as [st1 tr1]. simpl in H1.
  specialize (IH st1 H1). destruct (run st1 l) as [st2 tr2]. exact IH.
Qed.

(** *** The sum of the per-IP counts *)

Lemma count_ip_partition k l :
  length l = (count_ip k l + length (List.filter (fun c => negb (from_ip k c)) l))%nat.
Proof.
  unfold count_ip. induction l as [| c l IH]; simpl; [reflexivity |].
  destruct (from_ip k c); simpl; lia.
Qed.

Lemma count_ip_filter_own k l :
  count_ip k (List.filter (fun c => negb (from_ip k c)) l) = 0%nat.
Proof.
  unfold count_ip. induction l as [| c l IH]; simpl; [reflexivity |].
  destruct (from_ip k c) eqn:E; simpl; [exact IH |]. rewrite E. exact IH.
Qed.

Lemma count_ip_filter_other ip k l :
  ip <> k -> count_ip ip (List.filter (fun c => negb (from_ip k c)) l) = count_ip ip l.
Proof.
  intros Hne. unfold count_ip. induction l as [| c l IH]; simpl; [reflexivity |].
  destruct (from_ip k c) eqn:E; simpl.
  - assert (from_ip ip c = false) as ->; [| exact IH].
    unfold from_ip in *. apply String.eqb_eq in E. apply String.eqb_neq. congruence.
  - destruct (from_ip ip c); simpl; rewrite IH; reflexivity.
Qed.

(** A map whose entries count the connections of a list by address, and
    which has an entry for every address of the list, sums to the length
    of the list. *)
Lemma sum_counts_length (m : gmap string Z) :
  forall l,
    (forall ip, match m !! ip with
                | Some v => v = Z.of_nat (count_ip ip l)
                | None => count_ip ip l = 0%nat
                end) ->
    sum_counts m = Z.of_nat (length l).
Proof.
  induction m as [| k v m Hk IH] using map_ind; intros l H.
  - destruct l as [| c l]; [reflexivity |].
    specialize (H (IP (RemoteAddr c))). rewrite lookup_empty in H.
    rewrite count_ip_cons, from_ip_own in H. discriminate H.
  - unfold sum_counts. rewrite map_fold_insert_L; [| intros; lia | exact Hk].
    fold (sum_counts m).
    rewrite (IH (List.filter (fun c => negb (from_ip k c)) l)).
    + pose proof (H k) as Hkk. rewrite lookup_insert_eq in Hkk. subst v.
      pose proof (count_ip_partition k l) as Hpart. lia.
    + intros ip. destruct (decide (ip = k)) as [-> | Hne].
      * rewrite Hk. apply count_ip_filter_own.
      * specialize (H ip). rewrite lookup_insert_ne in H by congruence.
        rewrite count_ip_filter_other by exact Hne. exact H.
Qed.

(** Below 2^63 connections in flight the counters are their true counts. *)
Lemma registry_inv_exact st :
  registry_inv st ->
  Z.of_nat (length (in_flight st)) < 2 ^ 63 ->
  openConnections st = Z.of_nat (length (in_flight st))
  /\ openConnections st = sum_counts (clientConnections st)
  /\ forall ip, ipCount (clientConnections st) ip = Z.of_nat (count_ip ip (in_flight st)).
Proof.
  intros (Ho & Hw & Hp & Hm) Hb.
  assert (Hexact : forall ip,
             match clientConnections st !! ip with
             | Some v => v = Z.of_nat (count_ip ip (in_flight st))
             | None => count_ip ip (in_flight st) = 0%nat
             end).
  { intros ip. specialize (Hm ip). pose proof (count_ip_le ip (in_flight st)).
    destruct (clientConnections st !! ip); [| exact Hm].
    rewrite Hm. apply wrap64_nat_small. lia. }
  rewrite wrap64_nat_small in Ho by exact Hb.
  split; [exact Ho | split].
  - rewrite Ho. symmetry. apply sum_counts_length. exact Hexact.
  - intros ip. unfold ipCount. specialize (Hexact ip).
    destruct (clientConnections st !! ip); simpl; [exact Hexact |].
    rewrite Hexact. reflexivity.
Qed.

(** *** Who changes the counters *)

Lemma off_task_keeps_counters st a :
  on_acceptor_task a = false ->
  openConnections (fst (step st a)) = openConnections st
  /\ clientConnections (fst (step st a)) = clientConnections st.
Proof.
  intros H. unfold step. destruct (panicked st); [split; reflexivity |].
  destruct a as [i | c | |]; try discriminate H.
  - destruct (remove_task c (tasks st)); [| split; reflexivity].
    destruct (length (closeCh (srv st)) <? closeCh_cap)%nat; split; reflexivity.
  - split; reflexivity.
Qed.

Lemma close_decrements st c rest :
  closeCh (srv st) = c :: rest -> 0 <= wg st - 1 ->
  openConnections (fst (listen_iter st LClose)) = int_sub (openConnections st) 1
  /\ clientConnections (fst (listen_iter st LClose))
     = match clientConnections st !! IP (RemoteAddr c) with
       | Some v => <[IP (RemoteAddr c) := int_sub v 1]> (clientConnections st)
       | None => clientConnections st
       end.
Proof.
  intros Hq Hw. unfold listen_iter. rewrite Hq.
  destruct (Z.ltb_spec (wg st - 1) 0); [lia |]. split; reflexivity.
Qed.

Lemma other_cases_keep_counters st i :
  match i with LClose | LDefault (AcceptConn _) => False | _ => True end ->
  openConnections (fst (listen_iter st i)) = openConnections st
  /\ clientConnections (fst (listen_iter st i)) = clientConnections st.
Proof.
  destruct i as [| | | [| e | c]]; intros H; try contradiction; split; reflexivity.
Qed.

(** *** Admission *)

Lemma ipCount_insert_eq (m : gmap string Z) ip v : ipCount (<[ip := v]> m) ip = v.
Proof. unfold ipCount. rewrite lookup_insert_eq. reflexivity. Qed.

Lemma ipCount_insert_ne (m : gmap string Z) ip ip' v :
  ip' <> ip -> ipCount (<[ip := v]> m) ip' = ipCount m ip'.
Proof. intros H. unfold ipCount. rewrite lookup_insert_ne by congruence. reflexivity. Qed.

Lemma admission_server_cap st c :
  server_cap_met st = true ->
  admission st c = (st, [TCPClose c; closedEvent c], RefusedByServerCap).
Proof. unfold server_cap_met, admission. intros ->. reflexivity. Qed.

Lemma admission_client_cap st c :
  server_cap_met st = false -> client_cap_met st c = true ->
  admission st c = (st, [TCPClose c; closedEvent c], RefusedByClientCap).
Proof. unfold server_cap_met, client_cap_met, admission. intros -> ->. reflexivity. Qed.

Lemma admission_accepts st c :
  server_cap_met st = false -> client_cap_met st c = false ->
  admission st c
  = (mkAcc (srv st) (wg st + 1) (int_add (openConnections st) 1)
       (<[IP (RemoteAddr c) := int_add (ipCount (clientConnections st) (IP (RemoteAddr c))) 1]>
          (clientConnections st))
       (deadline st) (c :: tasks st) (at_ st) (panicked st),
     (if int_add (openConnections st) 1 =? MaxConnections (config (srv st))
      then [Emit MaxConnectionsEvent] else [])
     ++ (if int_add (ipCount (clientConnections st) (IP (RemoteAddr c))) 1
            =? MaxClientConnections (config (srv st))
         then [Emit (MaxClientConnectionsEvent (LocalAddr c) (RemoteAddr c))] else [])
     ++ (if MaxConnectionDuration (config (srv st)) >? 0
         then [TCPSetDeadline c (MaxConnectionDuration (config (srv st)))] else [])
     ++ [Emit (ConnectionOpenedEvent (LocalAddr c) (RemoteAddr c)); Spawn_handleTCPConn c],
     Accepted).
Proof.
  unfold server_cap_met, client_cap_met, admission. intros -> ->.
  rewrite ipCount_insert_eq. reflexivity.
Qed.

Lemma admission_srv st c : srv (fst (fst (admission st c))) = srv st.
Proof.
  destruct (server_cap_met st) eqn:E1.
  - rewrite admission_server_cap by exact E1. reflexivity.
  - destruct (client_cap_met st c) eqn:E2.
    + rewrite admission_client_cap by assumption. reflexivity.
    + rewrite admission_accepts by assumption. reflexivity.
Qed.

(** *** The configuration *)

Lemma listen_iter_config st i : config (srv (fst (listen_iter st i))) = config (srv st).
Proof.
  unfold listen_iter. destruct i as [| | | [| e | c]]; try reflexivity.
  - destruct (closeCh (srv st)); [reflexivity |].
    destruct (wg st - 1 <? 0); reflexivity.
  - pose proof (admission_srv (at_admission st) c) as H. unfold at_admission in H.
    destruct (admission _ c) as [[st2 tr] v]. simpl in *. rewrite H. reflexivity.
Qed.

Lemma step_config st a : config (srv (fst (step st a))) = config (srv st).
Proof.
  unfold step. destruct (panicked st); [reflexivity |].
  destruct a as [i | c | |].
  - destruct (at_ st); try reflexivity.
    destruct (ready st i); [apply listen_iter_config | reflexivity].
  - destruct (remove_task c (tasks st)); [| reflexivity].
    destruct (length (closeCh (srv st)) <? closeCh_cap)%nat; reflexivity.
  - reflexivity.
  - destruct (at_ st); try reflexivity. destruct (wg st =? 0); reflexivity.
Qed.

Lemma run_config l : forall st, config (srv (fst (run st l))) = config (srv st).
Proof.
  induction l as [| a l IH]; intros st; simpl; [reflexivity |].
  pose proof (step_config st a) as H1. destruct (step st a) as [st1 tr1].
  specialize (IH st1). destruct (run st1 l) as [st2 tr2]. simpl in *. congruence.
Qed.

Lemma ListenAndServe_open_config N s :
  config (fst (fst (ListenAndServe_open N s)))
  = if String.eqb (Addr (config s)) "" then set_Addr (config s) ":22" else config s.
Proof.
  unfold ListenAndServe_open.
  destruct (ResolveTCPAddr N _) as [a | e]; [| reflexivity].
  destruct (ListenTCP N a); reflexivity.
Qed.

Lemma ListenAndServe_config N s sched :
  config (srv (fst (fst (ListenAndServe N s sched))))
  = if String.eqb (Addr (config s)) "" then set_Addr (config s) ":22" else config s.
Proof.
  unfold ListenAndServe. pose proof (ListenAndServe_open_config N s) as H.
  destruct (ListenAndServe_open N s) as [[s1 [u | e]] tr]; simpl in *.
  - pose proof (run_config sched (listen_start s1)) as Hr.
    destruct (run (listen_start s1) sched) as [st tr']. simpl in *. congruence.
  - exact H.
Qed.

End AcceptorFacts.

(** ** The claims about the server *)

Section AcceptorClaims.
Import Net Auth Acceptor.

(** C3. In every state the accept loop reaches from a freshly built
    server, with fewer than 2^63 connections in flight, the open count
    equals the sum of the per-IP counts (and the number of connections in
    flight), and the open count and every per-IP count are not negative.
    The counters change on the acceptor task only: a step of a connection
    task or a cancellation leaves both as they are, a close notification
    decrements the open count and the entry of the connection's address
    when there is one, an admission increments the open count and the
    entry of the connection's address, a refusal changes nothing, and the
    other cases of the loop leave both as they are. *)
Theorem registry_counts_agree s sched :
  closeCh s = [] ->
  Z.of_nat (length (in_flight (reached s sched))) < 2 ^ 63 ->
  openConnections (reached s sched) = sum_counts (clientConnections (reached s sched))
  /\ openConnections (reached s sched) = Z.of_nat (length (in_flight (reached s sched)))
  /\ 0 <= openConnections (reached s sched)
  /\ (forall ip, 0 <= ipCount (clientConnections (reached s sched)) ip)
  /\ (forall st a,
         on_acceptor_task a = false ->
         openConnections (fst (step st a)) = openConnections st
         /\ clientConnections (fst (step st a)) = clientConnections st)
  /\ (forall st c rest,
         closeCh (srv st) = c :: rest -> 0 <= wg st - 1 ->
         openConnections (fst (listen_iter st LClose)) = int_sub (openConnections st) 1
         /\ clientConnections (fst (listen_iter st LClose))
            = match clientConnections st !! IP (RemoteAddr c) with
              | Some v => <[IP (RemoteAddr c) := int_sub v 1]> (clientConnections st)
              | None => clientConnections st
              end)
  /\ (forall st c,
         server_cap_met st = false -> client_cap_met st c = false ->
         openConnections (fst (fst (admission st c))) = int_add (openConnections st) 1
         /\ clientConnections (fst (fst (admission st c)))
            = <[IP (RemoteAddr c) :=
                  int_add (ipCount (clientConnections st) (IP (RemoteAddr c))) 1]>
                (clientConnections st))
  /\ (forall st c,
         server_cap_met st = true \/ client_cap_met st c = true ->
         fst (fst (admission st c)) = st)
  /\ (forall st i,
         match i with LClose | LDefault (AcceptConn _) => False | _ => True end ->
         openConnections (fst (listen_iter st i)) = openConnections st
         /\ clientConnections (fst (listen_iter st i)) = clientConnections st).
Proof.
  intros Hq Hb.
  assert (Hinv : registry_inv (reached s sched)).
  { unfold reached. apply run_inv. apply registry_inv_start. exact Hq. }
  destruct (registry_inv_exact _ Hinv Hb) as (Hlen & Hsum & Hip).
  split; [exact Hsum | split; [exact Hlen | split; [lia |]]].
  split; [| split; [| split; [| split; [| split]]]].
  - intros ip. rewrite Hip. lia.
  - intros st a. apply off_task_keeps_counters.
  - intros st c rest. apply close_decrements.
  - intros st c H1 H2. rewrite (admission_accepts _ _ H1 H2). split; reflexivity.
  - intros st c [H1 | H2].
    + rewrite (admission_server_cap _ _ H1). reflexivity.
    + destruct (server_cap_met st) eqn:H1.
      * rewrite (admission_server_cap _ _ H1). reflexivity.
      * rewrite (admission_client_cap _ _ H1 H2). reflexivity.
  - intros st i. apply other_cases_keep_counters.
Qed.

(** C4. The loop applies admission to every connection it accepts. The
    server-wide cap is tested first: when it is met the connection is
    refused on it, whatever the count of its address. Otherwise the cap of
    the address is tested. A refused connection is closed and one
    [ConnectionClosed] is emitted; the state, and so every counter, stays
    as it is, and nothing else is emitted. An admitted connection adds one
    to the wait barrier, to the open count and to the count of its address
    and leaves the other addresses alone; [MaxConnectionsEvent] is emitted
    if and only if the new open count equals [MaxConnections],
    [MaxClientConnectionsEvent] if and only if the new count of the
    address equals [MaxClientConnections], and [ConnectionOpened] is
    emitted and the connection task started. *)
Theorem admission_order_and_events st c :
  listen_iter st (LDefault (AcceptConn c))
  = (fst (fst (admission (at_admission st) c)),
     ListenerSetDeadline (capped_deadline st) :: snd (fst (admission (at_admission st) c)))
  /\ (server_cap_met st = true ->
      admission st c = (st, [TCPClose c; closedEvent c], RefusedByServerCap))
  /\ (server_cap_met st = false -> client_cap_met st c = true ->
      admission st c = (st, [TCPClose c; closedEvent c], RefusedByClientCap))
  /\ (server_cap_met st = false -> client_cap_met st c = false ->
      exists st' tr,
        admission st c = (st', tr, Accepted)
        /\ wg st' = wg st + 1
        /\ openConnections st' = int_add (openConnections st) 1
        /\ ipCount (clientConnections st') (IP (RemoteAddr c))
           = int_add (ipCount (clientConnections st) (IP (RemoteAddr c))) 1
        /\ (forall ip, ip <> IP (RemoteAddr c) ->
            ipCount (clientConnections st') ip = ipCount (clientConnections st) ip)
        /\ tasks st' = c :: tasks st
        /\ (In (Emit MaxConnectionsEvent) tr
            <-> openConnections st' = MaxConnections (config (srv st)))
        /\ (In (Emit (MaxClientConnectionsEvent (LocalAddr c) (RemoteAddr c))) tr
            <-> ipCount (clientConnections st') (IP (RemoteAddr c))
                = MaxClientConnections (config (srv st)))
        /\ In (Emit (ConnectionOpenedEvent (LocalAddr c) (RemoteAddr c))) tr
        /\ In (Spawn_handleTCPConn c) tr
        /\ ~ In (closedEvent c) tr).
Proof.
  split; [| split; [| split]].
  - unfold listen_iter, at_admission, capped_deadline.
    destruct (admission _ c) as [[st2 tr] v]. reflexivity.
  - apply admission_server_cap.
  - apply admission_client_cap.
  - intros H1 H2. rewrite (admission_accepts _ _ H1 H2). eexists _, _.
    split; [reflexivity |]. simpl.
    split; [reflexivity | split; [reflexivity | split; [| split; [| split; [reflexivity |]]]]].
    + apply ipCount_insert_eq.
    + intros ip Hne. apply ipCount_insert_ne. exact Hne.
    + rewrite ipCount_insert_eq.
      destruct (Z.eqb_spec (int_add (openConnections st) 1) (MaxConnections (config (srv st))));
        destruct (Z.eqb_spec
                    (int_add (ipCount (clientConnections st) (IP (RemoteAddr c))) 1)
                    (MaxClientConnections (config (srv st))));
        destruct (MaxConnectionDuration (config (srv st)) >? 0);
        unfold closedEvent; simpl;
        repeat split; unfold not; intros; try assumption; try tauto;
        repeat match goal with
               | H : _ \/ _ |- _ => destruct H
               | H : False |- _ => destruct H
               end;
        try discriminate; try congruence; auto 10.
Qed.

(** C9, as the code has it. After construction, [ListenAndServe] under
    any schedule leaves the configuration as it was, except that it
    replaces an empty [Addr] by [":22"]: a bind address that is not empty,
    the caps, the deadlines, the handler maps and the callbacks are never
    changed, and no step of the accept loop or around it changes any
    field. *)
Theorem ListenAndServe_config_frame N s sched :
  config_after N s sched
  = (if String.eqb (Addr (config s)) "" then set_Addr (config s) ":22" else config s)
  /\ (Addr (config s) <> "" -> config_after N s sched = config s)
  /\ MaxConnections (config_after N s sched) = MaxConnections (config s)
  /\ MaxClientConnections (config_after N s sched) = MaxClientConnections (config s)
  /\ MaxDeadline (config_after N s sched) = MaxDeadline (config s)
  /\ MaxConnectionDuration (config_after N s sched) = MaxConnectionDuration (config s)
  /\ RequestHandlers (config_after N s sched) = RequestHandlers (config s)
  /\ ChannelHandlers (config_after N s sched) = ChannelHandlers (config s)
  /\ ConnCallback (config_after N s sched) = ConnCallback (config s)
  /\ EvtHandler (config_after N s sched) = EvtHandler (config s)
  /\ PrivateKey (config_after N s sched) = PrivateKey (config s)
  /\ SrvConfig (config_after N s sched) = SrvConfig (config s)
  /\ SigChan (config_after N s sched) = SigChan (config s)
  /\ (forall st a, config (srv (fst (step st a))) = config (srv st)).
Proof.
  unfold config_after. rewrite ListenAndServe_config.
  split; [reflexivity |]. split.
  - intros Hne. destruct (String.eqb_spec (Addr (config s)) ""); [contradiction | reflexivity].
  - destruct (String.eqb (Addr (config s)) ""); simpl;
      repeat split; try reflexivity; intros st a; apply step_config.
Qed.

End AcceptorClaims.

(** *** The server claims on concrete servers *)

(** Two connections admitted from one address, one of them ended and
    reported closed. *)
Lemma registry_counts_agree_witness :
  Acceptor.openConnections
    (Acceptor.reached Examples.demo_server
       [Acceptor.Iter (Acceptor.LDefault (Acceptor.AcceptConn (Examples.conn_from 1 "10.0.0.7")));
        Acceptor.Iter (Acceptor.LDefault (Acceptor.AcceptConn (Examples.conn_from 2 "10.0.0.7")));
        Acceptor.TaskEnds (Examples.conn_from 1 "10.0.0.7");
        Acceptor.Iter Acceptor.LClose])
  = Acceptor.sum_counts
      (Acceptor.clientConnections
         (Acceptor.reached Examples.demo_server
            [Acceptor.Iter (Acceptor.LDefault (Acceptor.AcceptConn (Examples.conn_from 1 "10.0.0.7")));
             Acceptor.Iter (Acceptor.LDefault (Acceptor.AcceptConn (Examples.conn_from 2 "10.0.0.7")));
             Acceptor.TaskEnds (Examples.conn_from 1 "10.0.0.7");
             Acceptor.Iter Acceptor.LClose])).
Proof.
  apply registry_counts_agree; [reflexivity | vm_compute; reflexivity].
Defined.

(** The third connection from an address with two open connections and a
    cap of two is refused on the cap of the address. *)
Lemma admission_order_and_events_witness :
  Acceptor.admission
    (Acceptor.reached Examples.demo_server
       [Acceptor.Iter (Acceptor.LDefault (Acceptor.AcceptConn (Examples.conn_from 1 "10.0.0.7")));
        Acceptor.Iter (Acceptor.LDefault (Acceptor.AcceptConn (Examples.conn_from 2 "10.0.0.7")))])
    (Examples.conn_from 3 "10.0.0.7")
  = (Acceptor.reached Examples.demo_server
       [Acceptor.Iter (Acceptor.LDefault (Acceptor.AcceptConn (Examples.conn_from 1 "10.0.0.7")));
        Acceptor.Iter (Acceptor.LDefault (Acceptor.AcceptConn (Examples.conn_from 2 "10.0.0.7")))],
     [Acceptor.TCPClose (Examples.conn_from 3 "10.0.0.7");
      Acceptor.closedEvent (Examples.conn_from 3 "10.0.0.7")],
     Acceptor.RefusedByClientCap).
Proof.
  eapply (proj1 (proj2 (proj2 (admission_order_and_events _ _)))); vm_compute; reflexivity.
Defined.

(** A server configured with the bind address [":2222"] keeps its
    configuration through [ListenAndServe]. *)
Lemma ListenAndServe_config_frame_witness :
  Acceptor.config_after Examples.demoN
    (Acceptor.set_config Examples.demo_server
       (Acceptor.set_Addr Examples.demo_config ":2222")) []
  = Acceptor.set_Addr Examples.demo_config ":2222".
Proof.
  apply (proj1 (proj2 (ListenAndServe_config_frame Examples.demoN
                         (Acceptor.set_config Examples.demo_server
                            (Acceptor.set_Addr Examples.demo_config ":2222")) []))).
  discriminate.
Defined.

(** A server built with an empty bind address has [":22"] in its
    configuration once [ListenAndServe] has started. *)
Lemma ListenAndServe_overwrites_empty_Addr :
  Acceptor.Addr (Acceptor.config Examples.demo_server) = ""
  /\ Acceptor.Addr (Acceptor.config_after Examples.demoN Examples.demo_server []) = ":22".
Proof. split; reflexivity. Qed.

(** ** More about the session *)

Section SessionMore.
Import Signals GoBytes Session SessionSurface.

Variable X : Extern.
Variable h : sessionChannelHandler.

(** Case analysis on every test met while an iteration is unfolded. *)
Ltac case_tests :=
  repeat match goal with
         | E : context [match ?c with _ => _ end] |- _ => destruct c eqn:?
         end.

Ltac open_iter :=
  unfold handleRequests_iter, handle, handlePtyReq, handleWindowChange, handleSignal,
    hasBeenHandled, CompareAndSwapUint64 in *.

(** *** Once the handler has been started *)

Lemma iter_frozen st i st1 tr :
  handled (sess st) = 1 ->
  handleRequests_iter X h st i = Continue st1 tr ->
  handled (sess st1) = 1
  /\ env (sess st1) = env (sess st)
  /\ cmd (sess st1) = cmd (sess st)
  /\ pty_identity (sess st1) = pty_identity (sess st).
Proof.
  intros Hh H. open_iter. rewrite Hh in H. simpl in H. unfold pty_identity.
  case_tests; inversion H; subst; clear H; simpl;
    repeat match goal with
           | E : pty _ = _ |- _ => rewrite E
           end;
    repeat split; try assumption; try reflexivity; try congruence.
Qed.

Lemma Exit_keeps_rest s code sendErr :
  handled (fst (fst (Exit s code sendErr))) = handled s
  /\ env (fst (fst (Exit s code sendErr))) = env s
  /\ cmd (fst (fst (Exit s code sendErr))) = cmd s
  /\ pty (fst (fst (Exit s code sendErr))) = pty s
  /\ agentRequested (fst (fst (Exit s code sendErr))) = agentRequested s.
Proof.
  unfold Exit, CompareAndSwapUint64.
  destruct (exited s =? 0); simpl; [| repeat split; reflexivity].
  destruct sendErr; simpl; [repeat split; reflexivity |].
  destruct (winch s) as [ch |]; simpl; [| repeat split; reflexivity].
  destruct (closed ch); repeat split; reflexivity.
Qed.

Lemma sys_step_frozen y a :
  handled (sess (loop y)) = 1 ->
  handled (sess (loop (fst (sys_step X h y a)))) = 1
  /\ env (sess (loop (fst (sys_step X h y a)))) = env (sess (loop y))
  /\ cmd (sess (loop (fst (sys_step X h y a)))) = cmd (sess (loop y))
  /\ pty_identity (sess (loop (fst (sys_step X h y a)))) = pty_identity (sess (loop y)).
Proof.
  intros Hh. unfold sys_step. destruct (crashed y); [repeat split; assumption |].
  destruct a as [i | code sendErr |].
  - destruct (returned y); [repeat split; assumption |].
    destruct (handleRequests_iter X h (loop y) i) as [st tr | | | tr] eqn:Hi;
      simpl; try (repeat split; assumption).
    apply (iter_frozen _ _ _ _ Hh Hi).
  - pose proof (Exit_keeps_rest (sess (loop y)) code sendErr) as (E1 & E2 & E3 & E4 & _).
    destruct (Exit (sess (loop y)) code sendErr) as [[s1 r] tr]. simpl in *.
    unfold pty_identity.
    destruct r; simpl; rewrite E1, E2, E3, E4; repeat split; assumption.
  - destruct (winch (sess (loop y))) as [[[| w ws] c] |]; simpl;
      repeat split; assumption.
Qed.

Lemma run_frozen l : forall y,
  handled (sess (loop y)) = 1 ->
  handled (sess (loop (fst (run X h y l)))) = 1
  /\ env (sess (loop (fst (run X h y l)))) = env (sess (loop y))
  /\ cmd (sess (loop (fst (run X h y l)))) = cmd (sess (loop y))
  /\ pty_identity (sess (loop (fst (run X h y l)))) = pty_identity (sess (loop y)).
Proof.
  induction l as [| a l IH]; intros y Hh; simpl; [repeat split; assumption |].
  pose proof (sys_step_frozen y a Hh) as (H1 & H2 & H3 & H4).
  destruct (sys_step X h y a) as [y1 tr1]. simpl in *.
  destruct (IH y1 H1) as (K1 & K2 & K3 & K4).
  destruct (run X h y1 l) as [y2 tr2]. simpl in *.
  repeat split; congruence.
Qed.

Lemma env_refused_when_handled st req :
  ReqType req = "env" -> handled (sess st) = 1 ->
  handleRequests_iter X h st (SelReq (Some req)) = Continue st [Reply false].
Proof.
  intros Ht Hh. unfold handleRequests_iter, hasBeenHandled. rewrite Ht, Hh. reflexivity.
Qed.

Lemma pty_refused_when_handled st req :
  ReqType req = "pty-req" -> handled (sess st) = 1 ->
  handleRequests_iter X h st (SelReq (Some req)) = Continue st [Reply false].
Proof.
  intros Ht Hh. unfold handleRequests_iter, handlePtyReq, hasBeenHandled.
  rewrite Ht, Hh. simpl. destruct (allowPty h); simpl; [| reflexivity].
  rewrite set_sess_same. reflexivity.
Qed.

(** *** The environment before the handler is started *)

Lemma env_accepted st req :
  ReqType req = "env" -> handled (sess st) <> 1 ->
  handleRequests_iter X h st (SelReq (Some req))
  = Continue (set_sess st (set_env (sess st) (env (sess st) ++ [env_entry X req])))
      [Reply true].
Proof.
  intros Ht Hh. unfold handleRequests_iter, hasBeenHandled, env_entry. rewrite Ht. simpl.
  destruct (Z.eqb_spec (handled (sess st)) 1); [contradiction |].
  destruct (Unmarshal_KeyValue X (Payload req)). reflexivity.
Qed.

Lemma env_requests_accumulate reqs :
  Forall (fun r => ReqType r = "env") reqs ->
  forall st, handled (sess st) <> 1 ->
    iterate X h st (arrivals reqs)
    = Some (set_sess st (set_env (sess st) (env (sess st) ++ map (env_entry X) reqs)),
            repeat (Reply true) (length reqs)).
Proof.
  induction 1 as [| r reqs Hr _ IH]; intros st Hh.
  - simpl. rewrite app_nil_r. destruct st as [[] ? ?]; reflexivity.
  - change (arrivals (r :: reqs)) with (SelReq (Some r) :: arrivals reqs).
    rewrite iterate_cons, env_accepted by assumption.
    rewrite IH by exact Hh. simpl. rewrite <- app_assoc. reflexivity.
Qed.

(** *** What the fields of a session keep to *)

Lemma session_inv_new : session_inv new_session.
Proof.
  unfold session_inv, is_flag, new_session. simpl.
  repeat split; try (left; reflexivity); try discriminate; try reflexivity.
Qed.

Ltac inv_flags :=
  first [ assumption | right; reflexivity | left; reflexivity ].

Lemma iter_session_inv st i st1 tr :
  session_inv (sess st) ->
  handleRequests_iter X h st i = Continue st1 tr ->
  session_inv (sess st1).
Proof.
  intros (F1 & F2 & F3 & Hpw & Hch) H. open_iter.
  case_tests; inversion H; subst; clear H;
    repeat match goal with
           | E : (_, _) = (_, _) |- _ => inversion E; subst; clear E
           end;
    unfold session_inv, is_flag in *; simpl in *;
    (split; [inv_flags | split; [inv_flags | split; [inv_flags | split]]]);
    repeat match goal with
           | E : pty _ = _ |- _ => rewrite E
           end;
    try exact Hpw; try exact Hch;
    try (split; discriminate);
    try (intros ch0 Hc0; inversion Hc0; subst; clear Hc0; simpl;
         split; [| discriminate]).
  - unfold winch_cap. simpl. lia.
  - rewrite length_app. simpl.
    match goal with
    | E : (_ <? _)%nat = true |- _ => apply Nat.ltb_lt in E; unfold winch_cap in *; lia
    end.
Qed.

Lemma Exit_session_inv s code sendErr :
  session_inv s -> session_inv (fst (fst (Exit s code sendErr))).
Proof.
  intros (F1 & F2 & F3 & Hpw & Hch). unfold Exit, CompareAndSwapUint64.
  destruct (Z.eqb_spec (exited s) 0) as [E | E]; simpl.
  - destruct sendErr as [err |]; simpl.
    + unfold session_inv, is_flag in *. simpl.
      split; [inv_flags | split; [inv_flags | split; [inv_flags | split; [exact Hpw |]]]].
      intros ch Hc. split; [apply (Hch ch Hc) | reflexivity].
    + destruct (winch s) as [ch |] eqn:Hw; simpl.
      * destruct (closed ch) eqn:Hc; simpl; unfold session_inv, is_flag in *; simpl;
          (split; [inv_flags | split; [inv_flags | split; [inv_flags | split]]]).
        -- rewrite Hw. exact Hpw.
        -- rewrite Hw. intros ch0 Hc0. split; [apply (Hch ch0 Hc0) | reflexivity].
        -- split; intros K; [| discriminate].
           apply Hpw in K. discriminate.
        -- intros ch0 Hc0. inversion Hc0; subst; simpl.
           split; [apply (Hch ch eq_refl) | reflexivity].
      * unfold session_inv, is_flag in *. simpl.
        split; [inv_flags | split; [inv_flags | split; [inv_flags | split]]].
        -- rewrite Hw. exact Hpw.
        -- rewrite Hw. discriminate.
  - unfold session_inv, is_flag. simpl.
    split; [inv_flags | split; [inv_flags | split; [inv_flags | split; [exact Hpw | exact Hch]]]].
Qed.

Lemma sys_step_session_inv y a :
  session_inv (sess (loop y)) -> session_inv (sess (loop (fst (sys_step X h y a)))).
Proof.
  intros Hinv. unfold sys_step. destruct (crashed y); [exact Hinv |].
  destruct a as [i | code sendErr |].
  - destruct (returned y); [exact Hinv |].
    destruct (handleRequests_iter X h (loop y) i) as [st tr | | | tr] eqn:Hi;
      simpl; try exact Hinv.
    eapply iter_session_inv; eassumption.
  - pose proof (Exit_session_inv (sess (loop y)) code sendErr Hinv) as H.
    destruct (Exit (sess (loop y)) code sendErr) as [[s1 r] tr]. simpl in *.
    destruct r; exact H.
  - destruct (winch (sess (loop y))) as [[[| w ws] c] |] eqn:Hw; simpl; try exact Hinv.
    destruct Hinv as (F1 & F2 & F3 & Hpw & Hch).
    unfold session_inv. simpl.
    split; [exact F1 | split; [exact F2 | split; [exact F3 | split]]].
    + rewrite Hw in Hpw. split; intros K; [apply Hpw in K |]; discriminate.
    + intros ch0 Hc0. inversion Hc0; subst; simpl.
      destruct (Hch _ Hw) as [Hl Hcl]. simpl in *. split; [lia | exact Hcl].
Qed.

Lemma run_session_inv l : forall y,
  session_inv (sess (loop y)) -> session_inv (sess (loop (fst (run X h y l)))).
Proof.
  induction l as [| a l IH]; intros y Hinv; simpl; [exact Hinv |].
  pose proof (sys_step_session_inv y a Hinv) as H1.
  destruct (sys_step X h y a) as [y1 tr1]. simpl in *.
  specialize (IH y1 H1). destruct (run X h y1 l) as [y2 tr2]. exact IH.
Qed.

(** *** Replies *)

Lemma replies_app tr1 tr2 : replies (tr1 ++ tr2) = (replies tr1 + replies tr2)%nat.
Proof. unfold replies. rewrite List.filter_app, length_app. reflexivity. Qed.

Lemma iter_replies st i st1 tr :
  handleRequests_iter X h st i = Continue st1 tr ->
  replies tr = if answerable i then 1%nat else 0%nat.
Proof.
  intros H. destruct i as [| c | [req |] |]; simpl answerable;
    try (unfold handleRequests_iter in H; simpl in H;
         repeat match type of H with
                | context [match ?c with _ => _ end] => destruct c
                end;
         inversion H; reflexivity).
  unfold wants_answer. destruct (String.eqb_spec (ReqType req) "signal") as [E | E]; simpl.
  - rewrite signal_dispatch in H by exact E. unfold handleSignal in H.
    case_tests; inversion H; reflexivity.
  - open_iter. apply String.eqb_neq in E.
    case_tests; try congruence; inversion H; subst; clear H;
      repeat match goal with
             | K : (_, _) = (_, _) |- _ => inversion K; subst; clear K
             end;
      reflexivity.
Qed.

Lemma iterate_replies l : forall st st1 tr,
  iterate X h st l = Some (st1, tr) ->
  replies tr = length (List.filter answerable l).
Proof.
  induction l as [| i l IH]; intros st st1 tr H.
  - inversion H. reflexivity.
  - rewrite iterate_cons in H.
    destruct (handleRequests_iter X h st i) as [st2 tr2 | | |] eqn:Hi; try discriminate.
    destruct (iterate X h st2 l) as [[st3 tr3] |] eqn:Hl; [| discriminate].
    inversion H; subst; clear H. rewrite replies_app.
    rewrite (iter_replies _ _ _ _ Hi), (IH _ _ _ Hl). simpl.
    destruct (answerable i); reflexivity.
Qed.

(** *** The signal buffer *)

Lemma iter_buffer_grows st i st1 tr :
  handleRequests_iter X h st i = Continue st1 tr ->
  exists suf,
    signalBuffer st1 = signalBuffer st ++ suf
    /\ ((length (signalBuffer st) <= 128)%nat -> (length (signalBuffer st1) <= 128)%nat).
Proof.
  intros H. open_iter.
  case_tests; inversion H; subst; clear H; simpl;
    try (exists []; rewrite app_nil_r; split; [reflexivity | tauto]).
  eexists. split; [reflexivity |]. intros _. rewrite length_app. simpl.
  match goal with
  | E : (_ <? _)%nat = true |- _ => apply Nat.ltb_lt in E; lia
  end.
Qed.

Lemma iterate_buffer_grows l : forall st st1 tr,
  iterate X h st l = Some (st1, tr) ->
  exists suf,
    signalBuffer st1 = signalBuffer st ++ suf
    /\ ((length (signalBuffer st) <= 128)%nat -> (length (signalBuffer st1) <= 128)%nat).
Proof.
  induction l as [| i l IH]; intros st st1 tr H.
  - inversion H; subst. exists []. rewrite app_nil_r. split; [reflexivity | tauto].
  - rewrite iterate_cons in H.
    destruct (handleRequests_iter X h st i) as [st2 tr2 | | |] eqn:Hi; try discriminate.
    destruct (iterate X h st2 l) as [[st3 tr3] |] eqn:Hl; [| discriminate].
    inversion H; subst; clear H.
    destruct (iter_buffer_grows _ _ _ _ Hi) as (s1 & E1 & B1).
    destruct (IH _ _ _ Hl) as (s2 & E2 & B2).
    exists (s1 ++ s2). split; [rewrite E2, E1, app_assoc; reflexivity |].
    intros Hb. auto.
Qed.

Lemma iterate_snoc l i st st1 tr :
  iterate X h st (l ++ [i]) = Some (st1, tr) ->
  exists st0 tr0 tr1,
    iterate X h st l = Some (st0, tr0)
    /\ handleRequests_iter X h st0 i = Continue st1 tr1
    /\ tr = tr0 ++ tr1.
Proof.
  rewrite iterate_app.
  destruct (iterate X h st l) as [[st0 tr0] |]; [| discriminate].
  rewrite iterate_cons.
  destruct (handleRequests_iter X h st0 i) as [st2 tr2 | | |] eqn:Hi; try discriminate.
  simpl. intros H. inversion H; subst. rewrite app_nil_r.
  exists st0, tr0, tr2. split; [reflexivity | split; [exact Hi | reflexivity]].
Qed.

(** *** Exit without a PTY *)

Lemma iter_no_pty st i st1 tr :
  allowPty h = false -> pty (sess st) = None ->
  handleRequests_iter X h st i = Continue st1 tr -> pty (sess st1) = None.
Proof.
  intros Ha Hp H. open_iter. rewrite Ha, Hp in H. simpl in H.
  case_tests; inversion H; subst; clear H;
    repeat match goal with
           | K : (_, _) = (_, _) |- _ => inversion K; subst; clear K
           end;
    simpl; assumption.
Qed.

Lemma sys_step_no_pty y a :
  allowPty h = false -> pty (sess (loop y)) = None ->
  pty (sess (loop (fst (sys_step X h y a)))) = None.
Proof.
  intros Ha Hp. unfold sys_step. destruct (crashed y); [exact Hp |].
  destruct a as [i | code sendErr |].
  - destruct (returned y); [exact Hp |].
    destruct (handleRequests_iter X h (loop y) i) as [st tr | | | tr] eqn:Hi;
      simpl; try exact Hp.
    eapply iter_no_pty; eassumption.
  - pose proof (Exit_keeps_rest (sess (loop y)) code sendErr) as (_ & _ & _ & E & _).
    destruct (Exit (sess (loop y)) code sendErr) as [[s1 r] tr]. simpl in *.
    destruct r; simpl; congruence.
  - destruct (winch (sess (loop y))) as [[[| w ws] c] |]; simpl; exact Hp.
Qed.

Lemma run_no_pty l : forall y,
  allowPty h = false -> pty (sess (loop y)) = None ->
  pty (sess (loop (fst (run X h y l)))) = None.
Proof.
  induction l as [| a l IH]; intros y Ha Hp; simpl; [exact Hp |].
  pose proof (sys_step_no_pty y a Ha Hp) as H1.
  destruct (sys_step X h y a) as [y1 tr1]. simpl in *.
  specialize (IH y1 Ha H1). destruct (run X h y1 l) as [y2 tr2]. exact IH.
Qed.

(** A first [Exit] whose send succeeds, on a session that keeps to
    [session_inv]: it panics exactly when there is no PTY. *)
Lemma first_Exit_outcome s code :
  session_inv s -> exited s = 0 ->
  (pty s = None ->
   Exit s code None
   = (set_exited s 1, RetPanic "close of nil channel",
      [SendRequest "exit-status" false (Marshal_uint32 (uint32 code))]))
  /\ (pty s <> None ->
      exists ch,
        winch s = Some ch
        /\ Exit s code None
           = (set_winch (set_exited s 1) (Some (mkWinChan (buffered ch) true)), RetNil,
              [SendRequest "exit-status" false (Marshal_uint32 (uint32 code));
               CloseWinch; ChannelClose; ConnClose])).
Proof.
  intros (_ & _ & _ & Hpw & Hch) He. split.
  - intros Hp. apply Hpw in Hp. unfold Exit, CompareAndSwapUint64.
    rewrite He. simpl. rewrite Hp. reflexivity.
  - intros Hp. destruct (winch s) as [ch |] eqn:Hw.
    + exists ch. split; [reflexivity |]. apply Exit_first_ok; [exact He | exact Hw |].
      destruct (closed ch) eqn:Hc; [| reflexivity].
      destruct (Hch ch eq_refl) as [_ K]. specialize (K Hc). lia.
    + exfalso. apply Hp. apply Hpw. reflexivity.
Qed.

End SessionMore.

(** ** More about the PTY write normalization and the exit status *)

Section WriteMore.
Import Signals GoBytes Session SessionSurface.

Lemma crlf_length c p :
  (length p <= length (crlf c p) <= 2 * length p)%nat.
Proof.
  revert c. induction p as [| b p IH]; intros c; simpl; [lia |].
  destruct (Byte.eqb b LF).
  - specialize (IH false). destruct c; simpl; lia.
  - specialize (IH (Byte.eqb b CR)). simpl. lia.
Qed.

Lemma crlf_without_cr c p : without_cr (crlf c p) = without_cr p.
Proof.
  revert c. induction p as [| b p IH]; intros c; simpl; [reflexivity |].
  destruct (Byte.eqb b LF) eqn:E.
  - apply Byte.byte_dec_bl in E. subst b.
    destruct c; simpl; rewrite IH; reflexivity.
  - simpl. rewrite IH. reflexivity.
Qed.

Lemma normalize_normal p : crlf_normal false (normalize p) = true.
Proof. rewrite normalize_crlf. apply crlf_is_normal. Qed.

Lemma normalize_fixed_iff p : normalize p = p <-> crlf_normal false p = true.
Proof.
  split.
  - intros H. rewrite <- H. apply normalize_normal.
  - intros H. rewrite normalize_crlf. apply crlf_fixes_normal. exact H.
Qed.

(** Without a line feed nothing is rewritten. *)
Lemma normal_without_lf c p : ~ In LF p -> crlf_normal c p = true.
Proof.
  revert c. induction p as [| b p IH]; intros c H; simpl; [reflexivity |].
  rewrite (byte_eqb_neq b LF) by (intros ->; apply H; left; reflexivity).
  simpl. apply IH. intros K. apply H. right. exact K.
Qed.

Lemma Marshal_uint32_inj a b :
  0 <= a < 2 ^ 32 -> 0 <= b < 2 ^ 32 ->
  Marshal_uint32 a = Marshal_uint32 b -> a = b.
Proof.
  intros Ha Hb H. rewrite <- (Marshal_uint32_value a Ha), <- (Marshal_uint32_value b Hb).
  rewrite H. reflexivity.
Qed.

End WriteMore.

(** ** Further properties of the session *)

Section SessionExtras.
Import Signals GoBytes Session SessionSurface.

Variable X : Extern.
Variable h : sessionChannelHandler.

Lemma run_buffer_bound l : forall y,
  (length (signalBuffer (loop y)) <= 128)%nat ->
  (length (signalBuffer (loop (fst (run X h y l)))) <= 128)%nat.
Proof.
  induction l as [| a l IH]; intros y Hb; simpl; [exact Hb |].
  assert (H1 : (length (signalBuffer (loop (fst (sys_step X h y a)))) <= 128)%nat).
  { unfold sys_step. destruct (crashed y); [exact Hb |].
    destruct a as [i | code sendErr |].
    - destruct (returned y); [exact Hb |].
      destruct (handleRequests_iter X h (loop y) i) as [st tr | | | tr] eqn:Hi;
        simpl; try exact Hb.
      destruct (iter_buffer_grows X h _ _ _ _ Hi) as (suf & _ & B). auto.
    - destruct (Exit (sess (loop y)) code sendErr) as [[s1 r] tr].
      destruct r; exact Hb.
    - destruct (winch (sess (loop y))) as [[[| w ws] c] |]; exact Hb. }
  destruct (sys_step X h y a) as [y1 tr1]. simpl in *.
  specialize (IH y1 H1). destruct (run X h y1 l) as [y2 tr2]. exact IH.
Qed.

(** X1. [env] requests that arrive before the handler is started are all
    granted, and the environment grows by one [KEY=VALUE] entry per
    request, in arrival order. *)
Theorem env_collected_before_handler reqs st :
  Forall (fun r => ReqType r = "env") reqs ->
  handled (sess st) <> 1 ->
  iterate X h st (arrivals reqs)
  = Some (set_sess st (set_env (sess st) (env (sess st) ++ map (env_entry X) reqs)),
          repeat (Reply true) (length reqs)).
Proof.
  intros Hf Hh. apply env_requests_accumulate; assumption.
Qed.

(** X2. Once the handled flag is 1, no request, no call of [Exit] and no
    window receive changes the environment, the command, or the term and
    modes of the PTY, and no PTY is added: [env] and [pty-req] requests
    are answered false and leave the loop state as it is. *)
Theorem session_frozen_once_handled y l :
  handled (sess (loop y)) = 1 ->
  env (sess (loop (fst (run X h y l)))) = env (sess (loop y))
  /\ cmd (sess (loop (fst (run X h y l)))) = cmd (sess (loop y))
  /\ pty_identity (sess (loop (fst (run X h y l)))) = pty_identity (sess (loop y))
  /\ handled (sess (loop (fst (run X h y l)))) = 1
  /\ (forall st req,
         ReqType req = "env" \/ ReqType req = "pty-req" ->
         handled (sess st) = 1 ->
         handleRequests_iter X h st (SelReq (Some req)) = Continue st [Reply false]).
Proof.
  intros Hh. destruct (run_frozen X h l y Hh) as (H1 & H2 & H3 & H4).
  split; [exact H2 | split; [exact H3 | split; [exact H4 | split; [exact H1 |]]]].
  intros st req [Ht | Ht] Hs.
  - apply env_refused_when_handled; assumption.
  - apply pty_refused_when_handled; assumption.
Qed.

(** X3. Under every schedule from a fresh session the three flags hold 0
    or 1, the window channel exists exactly when a PTY was accepted (so
    [Pty] reports a PTY exactly when it returns a channel), the window
    channel never holds more than one window, and it is closed only once
    the exited flag is set. *)
Theorem session_fields_invariant l :
  session_inv (sess (loop (fst (run X h start l))))
  /\ (snd (session_Pty (sess (loop (fst (run X h start l))))) = true
      <-> snd (fst (session_Pty (sess (loop (fst (run X h start l)))))) <> None).
Proof.
  assert (Hinv : session_inv (sess (loop (fst (run X h start l))))).
  { apply run_session_inv. exact session_inv_new. }
  split; [exact Hinv |].
  destruct Hinv as (_ & _ & _ & Hpw & _). unfold session_Pty.
  destruct (pty (sess (loop (fst (run X h start l))))) as [p |]; simpl.
  - split; [| reflexivity]. intros _ K. apply Hpw in K. discriminate.
  - split; [discriminate |]. intros K. exfalso. apply K. apply Hpw. reflexivity.
Qed.

(** X4. After any schedule from a fresh session, a first call of [Exit]
    whose send succeeds panics exactly when no PTY was accepted: it has
    then sent the exit status and closed nothing. When PTY requests are
    not allowed, no schedule gives the session a PTY. *)
Theorem first_Exit_panics_without_pty l code :
  exited (sess (loop (fst (run X h start l)))) = 0 ->
  crashed (fst (run X h start l)) = false ->
  (crashed (fst (sys_step X h (fst (run X h start l)) (CallExit code None))) = true
   <-> pty (sess (loop (fst (run X h start l)))) = None)
  /\ (pty (sess (loop (fst (run X h start l)))) = None ->
      snd (sys_step X h (fst (run X h start l)) (CallExit code None))
      = [SendRequest "exit-status" false (Marshal_uint32 (uint32 code))])
  /\ (allowPty h = false -> pty (sess (loop (fst (run X h start l)))) = None).
Proof.
  intros He Hc.
  assert (Hinv : session_inv (sess (loop (fst (run X h start l))))).
  { apply run_session_inv. exact session_inv_new. }
  destruct (first_Exit_outcome _ code Hinv He) as [Hnone Hsome].
  unfold sys_step. rewrite Hc.
  destruct (pty (sess (loop (fst (run X h start l))))) as [p |] eqn:Hp.
  - destruct Hsome as (ch & Hw & Hx); [discriminate |]. rewrite Hx. simpl.
    split; [split; discriminate | split; [discriminate |]].
    intros Ha. pose proof (run_no_pty X h l start Ha eq_refl) as K. congruence.
  - rewrite (Hnone eq_refl). simpl.
    split; [split; reflexivity | split; reflexivity].
Qed.

(** X5. When the loop serves a sequence of select cases to the end, it
    has replied exactly once to every request other than a [signal]
    request and never to anything else. *)
Theorem one_reply_per_request l st st1 tr :
  iterate X h st l = Some (st1, tr) ->
  replies tr = length (List.filter answerable l).
Proof.
  intros H. eapply iterate_replies. exact H.
Qed.

(** X6. The signal buffer is never emptied: whatever the loop serves, the
    buffer it had stays a prefix of the buffer it has, and it never holds
    more than 128 signals. So a registration that follows any number of
    iterations, other registrations included, starts a flush of a buffer
    that begins with every signal buffered before. *)
Theorem signal_buffer_never_cleared :
  (forall l st st1 tr,
      iterate X h st l = Some (st1, tr) ->
      exists suf, signalBuffer st1 = signalBuffer st ++ suf)
  /\ (forall l, (length (signalBuffer (loop (fst (run X h start l)))) <= 128)%nat)
  /\ (forall l sigCh st st1 tr,
         signalBuffer st <> [] ->
         iterate X h st (l ++ [SelSink sigCh]) = Some (st1, tr) ->
         exists tr0 suf, tr = tr0 ++ [SpawnFlush sigCh (signalBuffer st ++ suf)]).
Proof.
  split; [| split].
  - intros l st st1 tr H.
    destruct (iterate_buffer_grows X h l _ _ _ H) as (suf & E & _).
    exists suf. exact E.
  - intros l. apply run_buffer_bound. simpl. lia.
  - intros l sigCh st st1 tr Hne H.
    destruct (iterate_snoc X h _ _ _ _ _ H) as (st0 & tr0 & tr1 & H0 & H1 & ->).
    destruct (iterate_buffer_grows X h l _ _ _ H0) as (suf & E & _).
    rewrite sink_registered in H1. inversion H1; subst; clear H1.
    exists tr0, suf. rewrite E.
    destruct (signalBuffer st) as [| s0 b0]; [contradiction | reflexivity].
Qed.

End SessionExtras.

Section WriteExtras.
Import Signals GoBytes Session SessionSurface.

(** X7. In the output of the PTY write normalization every line feed has
    a carriage return in front of it; the byte strings the normalization
    leaves unchanged are exactly those of this form, among them all
    without a line feed. *)
Theorem normalize_output_normal p :
  crlf_normal false (normalize p) = true
  /\ (normalize p = p <-> crlf_normal false p = true)
  /\ (~ In LF p -> normalize p = p).
Proof.
  split; [apply normalize_normal | split; [apply normalize_fixed_iff |]].
  intros H. apply normalize_fixed_iff. apply normal_without_lf. exact H.
Qed.

(** X8. The normalization only inserts carriage returns: with the carriage
    returns taken out, output and input are the same bytes, and the output
    is at least as long as the input and at most twice as long. A [Write]
    on a session with a PTY whose channel takes all normalized bytes
    without error reports the whole input as written, and [WriteString]
    does the same for the bytes of its string. *)
Theorem normalize_only_inserts_cr p :
  without_cr (normalize p) = without_cr p
  /\ (length p <= length (normalize p) <= 2 * length p)%nat
  /\ (forall s chanWrite,
         pty s <> None ->
         chanWrite (normalize p) = (Z.of_nat (length (normalize p)), None) ->
         fst (Write s p chanWrite) = (Z.of_nat (length p), None))
  /\ (forall s msg chanWrite,
         WriteString s msg chanWrite = Write s (list_byte_of_string msg) chanWrite).
Proof.
  split; [| split; [| split]].
  - rewrite normalize_crlf. apply crlf_without_cr.
  - rewrite normalize_crlf. apply crlf_length.
  - intros s chanWrite Hp Hw. unfold Write.
    destruct (pty s) as [t |]; [| contradiction]. rewrite Hw. simpl.
    pose proof (crlf_length false p) as Hl. rewrite <- normalize_crlf in Hl.
    destruct (Z.gtb_spec (Z.of_nat (length (normalize p))) (Z.of_nat (length p)));
      f_equal; lia.
  - intros s msg chanWrite. reflexivity.
Qed.

(** X9. The exit status on the wire is the exit code reduced modulo 2^32:
    two first calls of [Exit] on the same session send the same request
    exactly when their codes are congruent modulo 2^32. *)
Theorem exit_status_congruence s a b sendErr :
  exited s = 0 ->
  (snd (Exit s a sendErr) = snd (Exit s b sendErr) <-> a mod 2 ^ 32 = b mod 2 ^ 32).
Proof.
  intros He. unfold Exit, CompareAndSwapUint64. rewrite He. simpl.
  assert (Hinj : Marshal_uint32 (uint32 a) = Marshal_uint32 (uint32 b)
                 -> a mod 2 ^ 32 = b mod 2 ^ 32).
  { intros H. apply Marshal_uint32_inj in H; [exact H | apply uint32_range ..]. }
  destruct sendErr as [err |]; [| destruct (winch s) as [ch |]; [destruct (closed ch) |]];
    simpl; (split; intros H;
            [apply Hinj; unfold Marshal_uint32; inversion H; congruence
            | unfold uint32; rewrite H; reflexivity]).
Qed.

End WriteExtras.

(** *** The further session properties on concrete sessions *)

Lemma env_collected_before_handler_witness :
  Session.iterate Examples.demoX Examples.demoH Session.init
    (Session.arrivals [MoreExamples.env_request_FOO; MoreExamples.env_request_FOO])
  = Some (Session.mkLoop (Session.mkSession 0 0 0 ["FOO="; "FOO="] [] None None) None [],
          [Session.Reply true; Session.Reply true]).
Proof.
  apply (env_collected_before_handler Examples.demoX Examples.demoH
           [MoreExamples.env_request_FOO; MoreExamples.env_request_FOO] Session.init).
  - repeat constructor.
  - discriminate.
Defined.

Lemma session_frozen_once_handled_witness :
  Session.env
    (Session.sess
       (Session.loop
          (fst (Session.run Examples.demoX Examples.demoH MoreExamples.handled_sys
                  [Session.LoopIter (Session.SelReq (Some MoreExamples.env_request_FOO));
                   Session.CallExit 0 None]))))
  = ["A=1"].
Proof.
  apply (proj1 (session_frozen_once_handled Examples.demoX Examples.demoH
                  MoreExamples.handled_sys
                  [Session.LoopIter (Session.SelReq (Some MoreExamples.env_request_FOO));
                   Session.CallExit 0 None]
                  eq_refl)).
Defined.

(** A [shell] request without a PTY, then the handler's exit: the process
    panics. *)
Lemma first_Exit_panics_without_pty_witness :
  Session.crashed
    (fst (Session.sys_step Examples.demoX Examples.demoH
            (fst (Session.run Examples.demoX Examples.demoH Session.start
                    [Session.LoopIter (Session.SelReq (Some Examples.shell_request))]))
            (Session.CallExit 0 None)))
  = true.
Proof.
  apply (proj1 (first_Exit_panics_without_pty Examples.demoX Examples.demoH
                  [Session.LoopIter (Session.SelReq (Some Examples.shell_request))]
                  0 eq_refl eq_refl)).
  reflexivity.
Defined.

(** A [shell] request, a [signal], an idle iteration and an [env] request:
    two replies. *)
Lemma one_reply_per_request_witness :
  exists st1 tr,
    Session.iterate Examples.demoX Examples.demoH Session.init
      [Session.SelReq (Some Examples.shell_request);
       Session.SelReq (Some (Examples.signal_request "INT"));
       Session.SelDefault;
       Session.SelReq (Some MoreExamples.env_request_FOO)]
    = Some (st1, tr)
    /\ SessionSurface.replies tr = 2%nat.
Proof.
  eexists _, _. split; [reflexivity |].
  apply (one_reply_per_request Examples.demoX Examples.demoH
           [Session.SelReq (Some Examples.shell_request);
            Session.SelReq (Some (Examples.signal_request "INT"));
            Session.SelDefault;
            Session.SelReq (Some MoreExamples.env_request_FOO)]
           Session.init _ _ eq_refl).
Defined.

(** Two registrations in a row with one signal buffered: the second one
    flushes the same signal again. *)
Lemma signal_buffer_never_cleared_witness :
  exists tr0 suf,
    [Session.SpawnFlush (Some 1%nat) [Signals.syscall_SIGINT];
     Session.SpawnFlush (Some 2%nat) [Signals.syscall_SIGINT]]
    = tr0 ++ [Session.SpawnFlush (Some 2%nat) ([Signals.syscall_SIGINT] ++ suf)].
Proof.
  pose proof (signal_buffer_never_cleared Examples.demoX Examples.demoH) as (_ & _ & Hre).
  apply (Hre [Session.SelSink (Some 1%nat)] (Some 2%nat) MoreExamples.one_buffered
           (Session.mkLoop Session.new_session (Some 2%nat) [Signals.syscall_SIGINT])).
  - discriminate.
  - reflexivity.
Defined.

Lemma normalize_only_inserts_cr_witness :
  fst (Session.Write Examples.pty_session [GoBytes.LF]
         (fun p => (Z.of_nat (length p), None)))
  = (1, None).
Proof.
  pose proof (normalize_only_inserts_cr [GoBytes.LF]) as (_ & _ & Hw & _).
  apply (Hw Examples.pty_session (fun p => (Z.of_nat (length p), None))).
  - discriminate.
  - reflexivity.
Defined.

(** [Exit(-1)] and [Exit(4294967295)] send the same request. *)
Lemma exit_status_congruence_witness :
  snd (Session.Exit Examples.pty_session (-1) None)
  = snd (Session.Exit Examples.pty_session 4294967295 None).
Proof.
  apply (proj2 (exit_status_congruence Examples.pty_session (-1) 4294967295 None eq_refl)).
  reflexivity.
Defined.

(** ** More about the accept loop *)

Section AcceptorMoreFacts.
Import Net Auth Acceptor AcceptorMore.

(** How a step changes the connections in flight: it takes none in, or it
    admits one connection that passed both caps. *)
Lemma step_in_flight st a :
  registry_inv st ->
  (length (in_flight (fst (step st a))) <= length (in_flight st)
   /\ forall ip, count_ip ip (in_flight (fst (step st a))) <= count_ip ip (in_flight st))%nat
  \/ exists c,
       server_cap_met st = false /\ client_cap_met st c = false
       /\ length (in_flight (fst (step st a))) = S (length (in_flight st))
       /\ forall ip, count_ip ip (in_flight (fst (step st a)))
                     = ((if from_ip ip c then 1 else 0) + count_ip ip (in_flight st))%nat.
Proof.
  intros Hinv. unfold step.
  destruct (panicked st); [left; split; [unfold in_flight; simpl; lia | intros; unfold in_flight; simpl; lia] |].
  destruct a as [i | c | |].
  - destruct (at_ st); try (left; split; [unfold in_flight; simpl; lia | intros; unfold in_flight; simpl; lia]).
    destruct (ready st i) eqn:Hr; [| left; split; [unfold in_flight; simpl; lia | intros; unfold in_flight; simpl; lia]].
    unfold listen_iter. destruct i as [| | | [| e | c]];
      try (left; split; [unfold in_flight; simpl; lia | intros; unfold in_flight; simpl; lia]).
    + simpl in Hr. destruct (closeCh (srv st)) as [| c rest] eqn:Hq; [discriminate |].
      left. destruct (wg st - 1 <? 0); unfold in_flight; simpl; rewrite Hq;
        (split; [rewrite !length_app; simpl; lia
                | intros ip; rewrite !count_ip_app, count_ip_cons; lia]).
    + change (mkAcc (srv st) (wg st) (openConnections st) (clientConnections st)
                initialDeadline (tasks st) (at_ st) (panicked st))
        with (at_admission st).
      destruct (server_cap_met st) eqn:E1.
      * rewrite (admission_server_cap (at_admission st) c) by exact E1.
        left. split; [unfold in_flight; simpl; lia | intros; unfold in_flight; simpl; lia].
      * destruct (client_cap_met st c) eqn:E2.
        -- rewrite (admission_client_cap (at_admission st) c) by assumption.
           left. split; [unfold in_flight; simpl; lia | intros; unfold in_flight; simpl; lia].
        -- rewrite (admission_accepts (at_admission st) c) by assumption.
           right. exists c.
           split; [first [reflexivity | assumption] |
                   split; [first [reflexivity | assumption] |]].
           unfold in_flight. simpl. split; [reflexivity |].
           intros ip. apply count_ip_cons.
  - destruct (remove_task c (tasks st)) as [rest |] eqn:Hrm;
      [| left; split; [unfold in_flight; simpl; lia | intros; unfold in_flight; simpl; lia]].
    destruct (length (closeCh (srv st)) <? closeCh_cap)%nat;
      [| left; split; [unfold in_flight; simpl; lia | intros; unfold in_flight; simpl; lia]].
    apply remove_task_spec in Hrm as [Hl Hc]. left.
    unfold in_flight. simpl. split.
    + rewrite !length_app, Hl. simpl. lia.
    + intros ip. rewrite !count_ip_app, Hc, count_ip_cons.
      change (count_ip ip []) with 0%nat. lia.
  - left. split; [unfold in_flight; simpl; lia | intros; unfold in_flight; simpl; lia].
  - destruct (at_ st); try (left; split; [unfold in_flight; simpl; lia | intros; unfold in_flight; simpl; lia]).
    destruct (wg st =? 0); left; split; unfold in_flight; simpl; try lia; intros; lia.
Qed.

(** The server-wide cap holds from step to step. *)
Lemma step_server_cap st a :
  registry_inv st ->
  0 < MaxConnections (config (srv st)) < 2 ^ 63 ->
  Z.of_nat (length (in_flight st)) <= MaxConnections (config (srv st)) ->
  Z.of_nat (length (in_flight (fst (step st a)))) <= MaxConnections (config (srv st)).
Proof.
  intros Hinv Hmax Hcap.
  destruct (step_in_flight st a Hinv) as [[Hl _] | (c & E1 & _ & Hl & _)]; [lia |].
  rewrite Hl. destruct Hinv as (Ho & _).
  rewrite wrap64_nat_small in Ho by lia.
  unfold server_cap_met in E1. rewrite Ho in E1.
  apply andb_false_iff in E1 as [E1 | E1].
  - rewrite Z.gtb_ltb in E1. apply Z.ltb_ge in E1. lia.
  - rewrite Z.geb_leb in E1. apply Z.leb_gt in E1. lia.
Qed.

(** The cap per address holds from step to step. *)
Lemma step_client_cap st a :
  registry_inv st ->
  0 < MaxClientConnections (config (srv st)) < 2 ^ 63 ->
  (forall ip, Z.of_nat (count_ip ip (in_flight st)) <= MaxClientConnections (config (srv st))) ->
  forall ip,
    Z.of_nat (count_ip ip (in_flight (fst (step st a))))
    <= MaxClientConnections (config (srv st)).
Proof.
  intros Hinv Hmax Hcap ip.
  destruct (step_in_flight st a Hinv) as [[_ Hc] | (c & _ & E2 & _ & Hc)].
  - specialize (Hc ip). specialize (Hcap ip). lia.
  - rewrite Hc. destruct (from_ip ip c) eqn:Hf; [| apply Hcap].
    unfold from_ip in Hf. apply String.eqb_eq in Hf. subst ip.
    destruct Hinv as (_ & _ & _ & Hm). specialize (Hm (IP (RemoteAddr c))).
    specialize (Hcap (IP (RemoteAddr c))).
    unfold client_cap_met in E2.
    destruct (clientConnections st !! IP (RemoteAddr c)) as [v |].
    + rewrite wrap64_nat_small in Hm by lia. subst v.
      apply andb_false_iff in E2 as [E2 | E2].
      * rewrite Z.gtb_ltb in E2. apply Z.ltb_ge in E2. lia.
      * rewrite Z.geb_leb in E2. apply Z.leb_gt in E2. lia.
    + rewrite Hm. simpl. lia.
Qed.

Lemma run_caps l : forall st,
  registry_inv st ->
  (0 < MaxConnections (config (srv st)) < 2 ^ 63 ->
   Z.of_nat (length (in_flight st)) <= MaxConnections (config (srv st)) ->
   Z.of_nat (length (in_flight (fst (run st l)))) <= MaxConnections (config (srv st)))
  /\ (0 < MaxClientConnections (config (srv st)) < 2 ^ 63 ->
      (forall ip, Z.of_nat (count_ip ip (in_flight st))
                  <= MaxClientConnections (config (srv st))) ->
      forall ip, Z.of_nat (count_ip ip (in_flight (fst (run st l))))
                 <= MaxClientConnections (config (srv st))).
Proof.
  induction l as [| a l IH]; intros st Hinv; simpl; [split; auto |].
  pose proof (step_inv st a Hinv) as Hinv1.
  pose proof (step_config st a) as Hc.
  pose proof (step_server_cap st a Hinv) as Hs.
  pose proof (step_client_cap st a Hinv) as Hk.
  destruct (step st a) as [st1 tr1]. simpl in *.
  destruct (IH st1 Hinv1) as [I1 I2]. rewrite Hc in I1, I2.
  destruct (run st1 l) as [st2 tr2]. simpl in *.
  split.
  - intros Hmax Hcap. apply I1; [exact Hmax | apply Hs; assumption].
  - intros Hmax Hcap. apply I2; [exact Hmax | apply Hk; assumption].
Qed.

(** *** Leaving the loop *)

Lemma step_after_loop st a :
  at_ st = Draining -> wg st <> 0 ->
  at_ (fst (step st a)) = Draining
  /\ wg (fst (step st a)) = wg st
  /\ ~ In CloseDoneCh (snd (step st a)).
Proof.
  intros Hd Hw. unfold step. destruct (panicked st); [simpl; auto |].
  destruct a as [i | c | |]; rewrite ?Hd; simpl; auto.
  - destruct (remove_task c (tasks st)); simpl; auto.
    destruct (length (closeCh (srv st)) <? closeCh_cap)%nat; simpl; auto.
    repeat split; auto. intros [K | K]; [discriminate | exact K].
  - destruct (Z.eqb_spec (wg st) 0); [contradiction |]. simpl. auto.
Qed.

Lemma run_after_loop l : forall st,
  at_ st = Draining -> wg st <> 0 ->
  at_ (fst (run st l)) = Draining
  /\ wg (fst (run st l)) = wg st
  /\ ~ In CloseDoneCh (snd (run st l)).
Proof.
  induction l as [| a l IH]; intros st Hd Hw; simpl; [auto |].
  destruct (step_after_loop st a Hd Hw) as (H1 & H2 & H3).
  destruct (step st a) as [st1 tr1]. simpl in *.
  destruct (IH st1 H1 ltac:(congruence)) as (K1 & K2 & K3).
  destruct (run st1 l) as [st2 tr2]. simpl in *.
  split; [exact K1 | split; [congruence |]].
  intros K. apply in_app_iff in K as [K | K]; contradiction.
Qed.

(** *** The accept deadline *)

Lemma listen_iter_deadline st i :
  0 < MaxDeadline (config (srv st)) < 2 ^ 62 ->
  0 < deadline st ->
  0 < deadline (fst (listen_iter st i))
  /\ Forall (deadline_in_range (config (srv st))) (snd (listen_iter st i)).
Proof.
  intros Hm Hd. unfold listen_iter.
  set (d0 := if deadline st >? MaxDeadline (config (srv st))
             then MaxDeadline (config (srv st)) else deadline st).
  assert (Hd0 : 0 < d0 <= MaxDeadline (config (srv st))).
  { unfold d0. destruct (Z.gtb_spec (deadline st) (MaxDeadline (config (srv st)))); lia. }
  assert (Hini : 0 < initialDeadline) by (unfold initialDeadline, Millisecond; lia).
  destruct i as [| | | [| e | c]]; simpl.
  - split; [lia |]. repeat constructor; simpl; try lia; auto.
  - split; [lia |]. repeat constructor; simpl; try lia; auto.
  - destruct (closeCh (srv st)) as [| c rest]; simpl.
    + split; [lia |]. repeat constructor; simpl; try lia; auto.
    + destruct (wg st - 1 <? 0); simpl; (split; [lia |]); repeat constructor; simpl; try lia; auto.
  - split; [| repeat constructor; simpl; try lia; auto].
    unfold int_mul. rewrite wrap64_small; lia.
  - split; [lia |]. repeat constructor; simpl; try lia; auto.
  - change (mkAcc (srv st) (wg st) (openConnections st) (clientConnections st)
              initialDeadline (tasks st) (at_ st) (panicked st))
      with (at_admission st).
    destruct (server_cap_met st) eqn:E1.
    + rewrite (admission_server_cap (at_admission st) c) by exact E1. simpl.
      split; [exact Hini |]. repeat constructor; simpl; try lia; auto.
    + destruct (client_cap_met st c) eqn:E2.
      * rewrite (admission_client_cap (at_admission st) c) by assumption. simpl.
        split; [exact Hini |]. repeat constructor; simpl; try lia; auto.
      * rewrite (admission_accepts (at_admission st) c) by assumption. simpl.
        split; [exact Hini |]. constructor; [simpl; auto |].
        repeat (apply Forall_app; split);
          repeat match goal with
                 | |- Forall _ (if ?b then _ else _) => destruct b
                 end;
          repeat constructor; simpl; try lia; auto.
Qed.

Lemma step_deadline st a :
  0 < MaxDeadline (config (srv st)) < 2 ^ 62 ->
  0 < deadline st ->
  0 < deadline (fst (step st a))
  /\ Forall (deadline_in_range (config (srv st))) (snd (step st a)).
Proof.
  intros Hm Hd. unfold step. destruct (panicked st); [simpl; auto |].
  destruct a as [i | c | |].
  - destruct (at_ st); simpl; auto.
    destruct (ready st i); [apply listen_iter_deadline; assumption | simpl; auto].
  - destruct (remove_task c (tasks st)); simpl; auto.
    destruct (length (closeCh (srv st)) <? closeCh_cap)%nat; simpl; auto.
    split; [exact Hd |]. repeat constructor; simpl; try lia; auto.
  - simpl. auto.
  - destruct (at_ st); simpl; auto.
    destruct (wg st =? 0); simpl; auto.
    split; [exact Hd |]. repeat constructor; simpl; try lia; auto.
Qed.

Lemma run_deadline l : forall st,
  0 < MaxDeadline (config (srv st)) < 2 ^ 62 ->
  0 < deadline st ->
  0 < deadline (fst (run st l))
  /\ Forall (deadline_in_range (config (srv st))) (snd (run st l)).
Proof.
  induction l as [| a l IH]; intros st Hm Hd; simpl; [auto |].
  destruct (step_deadline st a Hm Hd) as [H1 H2].
  pose proof (step_config st a) as Hc.
  destruct (step st a) as [st1 tr1]. simpl in *.
  destruct (IH st1 ltac:(rewrite Hc; exact Hm) H1) as [K1 K2]. rewrite Hc in K2.
  destruct (run st1 l) as [st2 tr2]. simpl in *.
  split; [exact K1 | apply Forall_app; split; assumption].
Qed.

Lemma timeout_step st :
  idle st ->
  0 < MaxDeadline (config (srv st)) < 2 ^ 62 ->
  0 < deadline st ->
  idle (fst (step st (Iter (LDefault AcceptTimeout))))
  /\ config (srv (fst (step st (Iter (LDefault AcceptTimeout))))) = config (srv st)
  /\ deadline (fst (step st (Iter (LDefault AcceptTimeout)))) = 2 * capped_deadline st.
Proof.
  intros (Ha & Hp & Hc & Hq) Hm Hd. unfold step, ready. rewrite Hp, Ha, Hc, Hq. simpl.
  unfold idle. simpl. repeat split; try assumption.
  unfold int_mul, capped_deadline. rewrite wrap64_small; [lia |].
  destruct (Z.gtb_spec (deadline st) (MaxDeadline (config (srv st)))); lia.
Qed.

Lemma timeouts_backoff n : forall st,
  idle st ->
  0 < MaxDeadline (config (srv st)) < 2 ^ 62 ->
  0 < deadline st ->
  capped_deadline (fst (run st (timeouts n)))
  = Z.min (deadline st * 2 ^ Z.of_nat n) (MaxDeadline (config (srv st))).
Proof.
  induction n as [| n IH]; intros st Hi Hm Hd.
  - simpl. unfold capped_deadline.
    destruct (Z.gtb_spec (deadline st) (MaxDeadline (config (srv st)))); lia.
  - change (timeouts (S n)) with (Iter (LDefault AcceptTimeout) :: timeouts n).
    simpl run.
    destruct (timeout_step st Hi Hm Hd) as (Hi1 & Hc1 & Hd1).
    destruct (step st (Iter (LDefault AcceptTimeout))) as [st1 tr1]. simpl in *.
    assert (Hcap : 0 < capped_deadline st <= MaxDeadline (config (srv st))).
    { unfold capped_deadline.
      destruct (Z.gtb_spec (deadline st) (MaxDeadline (config (srv st)))); lia. }
    specialize (IH st1 Hi1 ltac:(rewrite Hc1; exact Hm) ltac:(lia)).
    destruct (run st1 (timeouts n)) as [st2 tr2]. simpl in *.
    rewrite IH, Hc1, Hd1.
    rewrite Nat2Z.inj_succ, Z.pow_succ_r by lia.
    assert (Hp : 0 < 2 ^ Z.of_nat n) by (apply Z.pow_pos_nonneg; lia).
    unfold capped_deadline.
    destruct (Z.gtb_spec (deadline st) (MaxDeadline (config (srv st)))); nia.
Qed.

End AcceptorMoreFacts.

(** ** Further properties of the server *)

Section AcceptorExtras.
Import Net Auth Acceptor AcceptorMore.

Lemma reached_inv s sched : closeCh s = [] -> registry_inv (reached s sched).
Proof. intros H. unfold reached. apply run_inv. apply registry_inv_start. exact H. Qed.

Lemma reached_config s sched : config (srv (reached s sched)) = config s.
Proof. unfold reached. rewrite run_config. reflexivity. Qed.

(** X10. With a positive cap on connections, the accept loop never has
    more connections in flight than the cap, and its open count never
    exceeds the cap, under any schedule. *)
Theorem server_cap_enforced s sched :
  closeCh s = [] ->
  0 < MaxConnections (config s) < 2 ^ 63 ->
  Z.of_nat (length (in_flight (reached s sched))) <= MaxConnections (config s)
  /\ 0 <= openConnections (reached s sched) <= MaxConnections (config s).
Proof.
  intros Hq Hmax.
  assert (Hlen : Z.of_nat (length (in_flight (reached s sched))) <= MaxConnections (config s)).
  { unfold reached.
    apply (proj1 (run_caps sched (listen_start s) (registry_inv_start s Hq))).
    - exact Hmax.
    - unfold in_flight. simpl. rewrite Hq. simpl. lia. }
  split; [exact Hlen |].
  destruct (reached_inv s sched Hq) as (Ho & _).
  rewrite wrap64_nat_small in Ho by lia. lia.
Qed.

(** X11. With a positive cap per address, no address ever has more
    connections in flight than the cap, and no per-IP count exceeds it,
    under any schedule. *)
Theorem client_cap_enforced s sched ip :
  closeCh s = [] ->
  0 < MaxClientConnections (config s) < 2 ^ 63 ->
  Z.of_nat (count_ip ip (in_flight (reached s sched))) <= MaxClientConnections (config s)
  /\ 0 <= ipCount (clientConnections (reached s sched)) ip <= MaxClientConnections (config s).
Proof.
  intros Hq Hmax.
  assert (Hc : Z.of_nat (count_ip ip (in_flight (reached s sched)))
               <= MaxClientConnections (config s)).
  { unfold reached.
    apply (proj2 (run_caps sched (listen_start s) (registry_inv_start s Hq))).
    - exact Hmax.
    - intros ip'. unfold in_flight. simpl. rewrite Hq. simpl.
      change (count_ip ip' []) with 0%nat. lia. }
  split; [exact Hc |].
  destruct (reached_inv s sched Hq) as (_ & _ & _ & Hm). specialize (Hm ip).
  unfold ipCount. destruct (clientConnections (reached s sched) !! ip) as [v |]; simpl.
  - rewrite wrap64_nat_small in Hm by lia. lia.
  - lia.
Qed.

(** X12. Once the accept loop has been left while connections are in
    flight, nothing decrements the wait barrier any more: [listen] stays
    in [wg.Wait()] under every further schedule, the done channel is never
    closed, and [ListenAndServe] does not return. *)
Theorem listen_never_returns_with_open_connections s sched1 sched2 :
  closeCh s = [] ->
  at_ (reached s sched1) = Draining ->
  in_flight (reached s sched1) <> [] ->
  at_ (fst (run (reached s sched1) sched2)) = Draining
  /\ wg (fst (run (reached s sched1) sched2)) = Z.of_nat (length (in_flight (reached s sched1)))
  /\ ~ In CloseDoneCh (snd (run (reached s sched1) sched2)).
Proof.
  intros Hq Hd Hne.
  destruct (reached_inv s sched1 Hq) as (_ & Hw & _).
  assert (Hwg : wg (reached s sched1) <> 0).
  { rewrite Hw. destruct (in_flight (reached s sched1)); [contradiction | simpl; lia]. }
  destruct (run_after_loop sched2 _ Hd Hwg) as (H1 & H2 & H3).
  split; [exact H1 | split; [congruence | exact H3]].
Qed.

(** X13. With a maximum deadline between 0 and 2^62 nanoseconds, every
    deadline the loop sets on the listener is positive and at most the
    maximum, and the loop's own deadline stays positive. *)
Theorem accept_deadline_in_range s sched :
  0 < MaxDeadline (config s) < 2 ^ 62 ->
  Forall (deadline_in_range (config s)) (snd (run (listen_start s) sched))
  /\ 0 < deadline (reached s sched).
Proof.
  intros Hm.
  destruct (run_deadline sched (listen_start s) Hm) as [H1 H2].
  - unfold listen_start, initialDeadline, Millisecond. simpl. lia.
  - split; [exact H2 | exact H1].
Qed.

(** X14. While [Accept] keeps timing out, the deadline set on the listener
    doubles from 5 ms up to the maximum deadline and stays there: before
    the iteration that follows [n] timeouts it is the smaller of 5 ms
    times 2^n and the maximum. *)
Theorem idle_backoff_doubles s n :
  ctx_done s = false -> closeCh s = [] ->
  0 < MaxDeadline (config s) < 2 ^ 62 ->
  capped_deadline (reached s (timeouts n))
  = Z.min (initialDeadline * 2 ^ Z.of_nat n) (MaxDeadline (config s)).
Proof.
  intros Hc Hq Hm. unfold reached.
  rewrite (timeouts_backoff n (listen_start s)).
  - reflexivity.
  - unfold idle, listen_start. simpl. auto.
  - exact Hm.
  - unfold listen_start, initialDeadline, Millisecond. simpl. lia.
Qed.

(** X15. Under any schedule from a server with an empty close channel,
    [wg.Done()] never drives the wait barrier below zero: the loop does
    not panic, and the barrier counts the connections in flight. *)
Theorem wait_barrier_never_negative s sched :
  closeCh s = [] ->
  panicked (reached s sched) = false
  /\ wg (reached s sched) = Z.of_nat (length (in_flight (reached s sched)))
  /\ 0 <= wg (reached s sched).
Proof.
  intros Hq. destruct (reached_inv s sched Hq) as (_ & Hw & Hp & _).
  split; [exact Hp | split; [exact Hw | lia]].
Qed.

End AcceptorExtras.

Section NewFacts.
Import Net Auth Acceptor.

Variable L : SSHLib.

Lemma New_none ctx conf :
  SrvConfig conf = None ->
  New L ctx conf
  = (if MaxDeadline conf =? 0 then set_MaxDeadline conf Second else conf,
     Err "ssh.ServerConfig must be provided").
Proof.
  intros H. unfold New.
  assert (E : SrvConfig (if MaxDeadline conf =? 0
                         then set_MaxDeadline conf Second else conf) = None)
    by (destruct (MaxDeadline conf =? 0); exact H).
  rewrite E. reflexivity.
Qed.

Lemma New_some ctx conf sc :
  SrvConfig conf = Some sc ->
  New L ctx conf
  = let conf1 := if MaxDeadline conf =? 0 then set_MaxDeadline conf Second else conf in
    let sc1 :=
      match PublicKeyCallback sc with
      | Some cb =>
          mkServerConfig (NoClientAuth sc) (PasswordCallback sc)
            (Some (pubKeyCallbackWrapper L (Some cb))) (AuthLogCallback sc) (hostKeys sc)
      | None => sc
      end in
    let sc2 :=
      match PrivateKey conf1 with
      | Some k => AddHostKey sc1 k
      | None => sc1
      end in
    (set_SrvConfig conf1 (Some sc2),
     Ok (mkServer ctx [] (set_SrvConfig conf1 (Some sc2)) (Some sc2) None None)).
Proof.
  intros H. unfold New.
  assert (E : SrvConfig (if MaxDeadline conf =? 0
                         then set_MaxDeadline conf Second else conf) = Some sc)
    by (destruct (MaxDeadline conf =? 0); exact H).
  rewrite E. reflexivity.
Qed.

Lemma replace_same_type_spec key l :
  match replace_same_type key l with
  | Some l' =>
      In key l'
      /\ List.filter (fun k' => negb (String.eqb (signer_Type k') (signer_Type key))) l'
         = List.filter (fun k' => negb (String.eqb (signer_Type k') (signer_Type key))) l
      /\ length l' = length l
      /\ ~ Forall (fun k' => signer_Type k' <> signer_Type key) l
  | None => Forall (fun k' => signer_Type k' <> signer_Type key) l
  end.
Proof.
  induction l as [| k rest IH]; simpl; [constructor |].
  destruct (String.eqb (signer_Type k) (signer_Type key)) eqn:E.
  - split; [left; reflexivity |]. split.
    + simpl. rewrite String.eqb_refl. reflexivity.
    + split; [reflexivity |]. intros HF. inversion HF; subst.
      apply String.eqb_eq in E. contradiction.
  - destruct (replace_same_type key rest) as [rest' |].
    + destruct IH as (Hin & Hf & Hlen & Hnot).
      split; [right; exact Hin |]. split.
      * simpl. rewrite E, Hf. reflexivity.
      * split; [simpl; rewrite Hlen; reflexivity |].
        intros HF. inversion HF; subst. contradiction.
    + constructor; [apply String.eqb_neq; exact E | exact IH].
Qed.

Lemma AddHostKey_hostKeys sc k :
  In k (hostKeys (AddHostKey sc k))
  /\ List.filter (fun k' => negb (String.eqb (signer_Type k') (signer_Type k)))
        (hostKeys (AddHostKey sc k))
     = List.filter (fun k' => negb (String.eqb (signer_Type k') (signer_Type k)))
         (hostKeys sc)
  /\ (length (hostKeys sc) <= length (hostKeys (AddHostKey sc k))
      <= S (length (hostKeys sc)))%nat
  /\ (Forall (fun k' => signer_Type k' <> signer_Type k) (hostKeys sc) ->
      hostKeys (AddHostKey sc k) = hostKeys sc ++ [k])
  /\ (~ Forall (fun k' => signer_Type k' <> signer_Type k) (hostKeys sc) ->
      length (hostKeys (AddHostKey sc k)) = length (hostKeys sc)).
Proof.
  unfold AddHostKey. simpl.
  pose proof (replace_same_type_spec k (hostKeys sc)) as H.
  destruct (replace_same_type k (hostKeys sc)) as [l' |].
  - destruct H as (Hin & Hf & Hlen & Hnot).
    split; [exact Hin |]. split; [exact Hf |]. split; [lia |].
    split; [intros HF; contradiction | intros _; exact Hlen].
  - split; [apply in_or_app; right; left; reflexivity |]. split.
    + rewrite List.filter_app. simpl. rewrite String.eqb_refl. simpl.
      apply app_nil_r.
    + split; [rewrite length_app; simpl; lia |].
      split; [reflexivity | intros Hn; contradiction].
Qed.

End NewFacts.

Section NewExtras.
Import Net Auth Acceptor.

Variable L : SSHLib.

(** X16. [New] fails exactly when the configuration has no SSH server
    configuration. In every case it leaves a maximum deadline that is not
    zero (one second for zero) and the other options as they were. On
    success the server shares the configuration, has an empty close
    channel and no listener, and its context is cancelled from the start
    exactly when the caller's is. Its SSH configuration has the public-key
    callback wrapped when there is one. A private key is among its host
    keys: it has taken the place of the first host key of its key type,
    or, when there was none, it is the last one; the host keys of other
    types are as they were. *)
Theorem New_result ctx conf :
  (SrvConfig conf = None ->
   snd (New L ctx conf) = Err "ssh.ServerConfig must be provided")
  /\ (forall sc,
         SrvConfig conf = Some sc ->
         exists s sc',
           snd (New L ctx conf) = Ok s
           /\ config s = fst (New L ctx conf)
           /\ sshConfig s = Some sc' /\ SrvConfig (config s) = Some sc'
           /\ closeCh s = [] /\ ctx_done s = ctx /\ listener s = None
           /\ (PrivateKey conf = None -> hostKeys sc' = hostKeys sc)
           /\ (forall k,
                  PrivateKey conf = Some k ->
                  In k (hostKeys sc')
                  /\ List.filter (fun k' => negb (String.eqb (signer_Type k') (signer_Type k)))
                        (hostKeys sc')
                     = List.filter
                         (fun k' => negb (String.eqb (signer_Type k') (signer_Type k)))
                         (hostKeys sc)
                  /\ (length (hostKeys sc) <= length (hostKeys sc')
                      <= S (length (hostKeys sc)))%nat
                  /\ (Forall (fun k' => signer_Type k' <> signer_Type k) (hostKeys sc) ->
                      hostKeys sc' = hostKeys sc ++ [k])
                  /\ (~ Forall (fun k' => signer_Type k' <> signer_Type k) (hostKeys sc) ->
                      length (hostKeys sc') = length (hostKeys sc)))
           /\ PublicKeyCallback sc'
              = option_map (fun cb => pubKeyCallbackWrapper L (Some cb)) (PublicKeyCallback sc)
           /\ NoClientAuth sc' = NoClientAuth sc
           /\ PasswordCallback sc' = PasswordCallback sc
           /\ AuthLogCallback sc' = AuthLogCallback sc)
  /\ MaxDeadline (fst (New L ctx conf))
     = (if MaxDeadline conf =? 0 then Second else MaxDeadline conf)
  /\ MaxDeadline (fst (New L ctx conf)) <> 0
  /\ Addr (fst (New L ctx conf)) = Addr conf
  /\ MaxConnections (fst (New L ctx conf)) = MaxConnections conf
  /\ MaxClientConnections (fst (New L ctx conf)) = MaxClientConnections conf
  /\ MaxConnectionDuration (fst (New L ctx conf)) = MaxConnectionDuration conf
  /\ RequestHandlers (fst (New L ctx conf)) = RequestHandlers conf
  /\ ChannelHandlers (fst (New L ctx conf)) = ChannelHandlers conf
  /\ ConnCallback (fst (New L ctx conf)) = ConnCallback conf
  /\ EvtHandler (fst (New L ctx conf)) = EvtHandler conf
  /\ PrivateKey (fst (New L ctx conf)) = PrivateKey conf
  /\ SigChan (fst (New L ctx conf)) = SigChan conf.
Proof.
  split; [intros H; rewrite (New_none L ctx conf H); reflexivity |]. split.
  - intros sc H. rewrite (New_some L ctx conf sc H). cbv zeta.
    eexists _, _.
    split; [reflexivity |]. split; [reflexivity |]. split; [reflexivity |].
    split; [reflexivity |]. split; [reflexivity |]. split; [reflexivity |].
    split; [reflexivity |].
    assert (Hpk : PrivateKey (if MaxDeadline conf =? 0
                              then set_MaxDeadline conf Second else conf)
                  = PrivateKey conf) by (destruct (MaxDeadline conf =? 0); reflexivity).
    rewrite Hpk.
    split; [| split].
    + intros Hk. rewrite Hk. destruct (PublicKeyCallback sc); reflexivity.
    + intros k Hk. rewrite Hk.
      pose proof (AddHostKey_hostKeys
                    (match PublicKeyCallback sc with
                     | Some cb =>
                         mkServerConfig (NoClientAuth sc) (PasswordCallback sc)
                           (Some (pubKeyCallbackWrapper L (Some cb)))
                           (AuthLogCallback sc) (hostKeys sc)
                     | None => sc
                     end) k) as Hadd.
      assert (Hhk : hostKeys (match PublicKeyCallback sc with
                              | Some cb =>
                                  mkServerConfig (NoClientAuth sc) (PasswordCallback sc)
                                    (Some (pubKeyCallbackWrapper L (Some cb)))
                                    (AuthLogCallback sc) (hostKeys sc)
                              | None => sc
                              end) = hostKeys sc)
        by (destruct (PublicKeyCallback sc); reflexivity).
      rewrite Hhk in Hadd. exact Hadd.
    + destruct (PrivateKey conf) as [k |];
        destruct (PublicKeyCallback sc) as [cb |] eqn:Hcb;
        simpl; rewrite ?Hcb; repeat split; reflexivity.
  - unfold New. destruct (Z.eqb_spec (MaxDeadline conf) 0) as [E | E]; simpl;
      destruct (SrvConfig conf); simpl;
      repeat split; try reflexivity; try exact E; unfold Second; lia.
Qed.

(** X17. Wrapping a wrapped callback changes nothing: for every
    connection and key it returns what the wrapped callback returns. So a
    configuration passed to [New] twice authenticates as after the first
    call. *)
Theorem wrapper_idempotent (cb : option Auth.PublicKeyCallback) meta key :
  pubKeyCallbackWrapper L (Some (pubKeyCallbackWrapper L cb)) meta key
  = pubKeyCallbackWrapper L cb meta key.
Proof.
  destruct cb as [f |]; [| reflexivity].
  destruct (f meta key) as [perm [e |]] eqn:Hf.
  - pose proof (wrapper_error L f meta key perm e Hf) as H1.
    rewrite (wrapper_error L _ meta key None e H1). symmetry. exact H1.
  - pose proof (wrapper_success L f meta key perm Hf) as H1.
    rewrite (wrapper_success L _ meta key _ H1). rewrite H1. simpl.
    f_equal. f_equal. f_equal. f_equal. apply map_eq. intros k.
    pose proof (injected_lookups (base_extensions perm) (key_Type key)
                  (string_of_list_byte (key_Marshal key)) (FingerprintLegacyMD5 L key))
      as (A1 & A2 & A3 & A4).
    match goal with
    | |- ?lhs !! k = ?rhs !! k =>
        pose proof (injected_lookups rhs (key_Type key)
                      (string_of_list_byte (key_Marshal key)) (FingerprintLegacyMD5 L key))
          as (B1 & B2 & B3 & B4)
    end.
    simpl in *.
    destruct (decide (k = permKeyType)) as [-> | N1]; [rewrite B1, A1; reflexivity |].
    destruct (decide (k = permKeyData)) as [-> | N2]; [rewrite B2, A2; reflexivity |].
    destruct (decide (k = permKeyFingerprint)) as [-> | N3]; [rewrite B3, A3; reflexivity |].
    apply B4; assumption.
Qed.

End NewExtras.

(** *** The further server properties on concrete servers *)

Lemma server_cap_enforced_witness :
  Acceptor.openConnections
    (Acceptor.reached MoreExamples.capped_server MoreExamples.three_from_one_address) <= 1.
Proof.
  apply (server_cap_enforced MoreExamples.capped_server MoreExamples.three_from_one_address).
  - reflexivity.
  - vm_compute. split; reflexivity.
Defined.

Lemma client_cap_enforced_witness :
  Acceptor.ipCount
    (Acceptor.clientConnections
       (Acceptor.reached Examples.demo_server MoreExamples.three_from_one_address))
    "10.0.0.7" <= 2.
Proof.
  apply (client_cap_enforced Examples.demo_server MoreExamples.three_from_one_address
           "10.0.0.7").
  - reflexivity.
  - vm_compute. split; reflexivity.
Defined.

(** The server is stopped with one connection open; the connection then
    ends and is sent on the close channel, but [wg.Wait()] does not
    return. *)
Lemma listen_never_returns_with_open_connections_witness :
  Acceptor.at_
    (fst (Acceptor.run
            (Acceptor.reached Examples.demo_server MoreExamples.shutdown_with_one_open)
            [Acceptor.TaskEnds (Examples.conn_from 1 "10.0.0.7");
             Acceptor.Iter Acceptor.LClose; Acceptor.WaitReturns]))
  = Acceptor.Draining.
Proof.
  apply (listen_never_returns_with_open_connections Examples.demo_server
           MoreExamples.shutdown_with_one_open
           [Acceptor.TaskEnds (Examples.conn_from 1 "10.0.0.7");
            Acceptor.Iter Acceptor.LClose; Acceptor.WaitReturns]).
  - reflexivity.
  - vm_compute. reflexivity.
  - vm_compute. discriminate.
Defined.

Lemma accept_deadline_in_range_witness :
  0 < Acceptor.deadline
        (Acceptor.reached MoreExamples.capped_server (AcceptorMore.timeouts 10)).
Proof.
  apply (accept_deadline_in_range MoreExamples.capped_server (AcceptorMore.timeouts 10)).
  vm_compute. split; reflexivity.
Defined.

(** After ten timeouts the deadline has reached the maximum of one
    second. *)
Lemma idle_backoff_doubles_witness :
  Acceptor.capped_deadline
    (Acceptor.reached MoreExamples.capped_server (AcceptorMore.timeouts 10))
  = Z.min (Acceptor.initialDeadline * 2 ^ 10) Net.Second.
Proof.
  apply (idle_backoff_doubles MoreExamples.capped_server 10).
  - reflexivity.
  - reflexivity.
  - vm_compute. split; reflexivity.
Defined.

Lemma wait_barrier_never_negative_witness :
  Acceptor.panicked
    (Acceptor.reached Examples.demo_server MoreExamples.shutdown_with_one_open) = false.
Proof.
  apply (wait_barrier_never_negative Examples.demo_server
           MoreExamples.shutdown_with_one_open).
  reflexivity.
Defined.

(** * Connections *)

Section ConnFacts.
Import Net Auth Acceptor Conn.

Lemma key_eqb_refl (k : key) : key_eqb k k = true.
Proof.
  destruct k; simpl; rewrite ?String.eqb_refl; reflexivity.
Qed.

Lemma Value_skips (more ctx : Context) (k : key) :
  Forall (fun kv => key_eqb (fst kv) k = false) more ->
  Value (more ++ ctx) k = Value ctx k.
Proof.
  induction 1 as [|[k' v] more Hk _ IH]; simpl; [reflexivity|].
  simpl in Hk. rewrite Hk. exact IH.
Qed.

Lemma SSHServerConn_stored (ctx : Context) (c : option ServerConn) :
  SSHServerConn (WithServerConn ctx c) = (c, true).
Proof. reflexivity. Qed.

Lemma conn_replies_app (a b : list effect) : replies (a ++ b) = replies a ++ replies b.
Proof. unfold replies. apply flat_map_app. Qed.

Lemma conn_calls_app (a b : list effect) : calls (a ++ b) = calls a ++ calls b.
Proof. unfold calls. apply flat_map_app. Qed.

Lemma conn_events_app (a b : list effect) : events (a ++ b) = events a ++ events b.
Proof. unfold events. apply flat_map_app. Qed.

Lemma conn_spawned_app (a b : list effect) : spawned (a ++ b) = spawned a ++ spawned b.
Proof. unfold spawned. apply flat_map_app. Qed.

Lemma conn_rejected_app (a b : list effect) : rejected (a ++ b) = rejected a ++ rejected b.
Proof. unfold rejected. apply flat_map_app. Qed.

Lemma conn_close_sent_app (a b : list effect) :
  close_sent (a ++ b) = close_sent a ++ close_sent b.
Proof. unfold close_sent. apply flat_map_app. Qed.

(** An event handed to [handleEvent] is no reply, call, spawn, rejection
    or close notification. *)
Lemma handleEvent_silent (cfg : Config) (evt : Event) :
  replies (handleEvent cfg evt) = [] /\ calls (handleEvent cfg evt) = []
  /\ spawned (handleEvent cfg evt) = [] /\ rejected (handleEvent cfg evt) = []
  /\ close_sent (handleEvent cfg evt) = [].
Proof.
  unfold handleEvent. destruct (EvtHandler cfg); repeat split; reflexivity.
Qed.

Lemma handleEvent_events (cfg : Config) (evt : Event) :
  events (handleEvent cfg evt) = match EvtHandler cfg with Some _ => [evt] | None => [] end.
Proof. unfold handleEvent. destruct (EvtHandler cfg); reflexivity. Qed.

Lemma serve_request_replies cfg H ctx conn i req :
  replies (serve_request cfg H ctx conn i req)
  = if Session.WantReply req
    then [(req, fst (answer cfg H i req), snd (answer cfg H i req))] else [].
Proof.
  unfold serve_request, answer.
  destruct (find_handler (RequestHandlers cfg) (Session.ReqType req)) as [hd|].
  - rewrite !conn_replies_app.
    destruct (handleEvent_silent cfg (RequestEvent conn (Session.ReqType req))) as [-> _].
    destruct (H i hd req) as [ret payload].
    destruct (Session.WantReply req); reflexivity.
  - rewrite !conn_replies_app.
    destruct (handleEvent_silent cfg (UnknownRequestEvent conn (Session.ReqType req))) as [-> _].
    destruct (Session.WantReply req); reflexivity.
Qed.

Lemma serve_request_calls cfg H ctx conn i req :
  map snd (calls (serve_request cfg H ctx conn i req))
  = if known_request cfg req then [req] else [].
Proof.
  unfold serve_request, known_request.
  destruct (find_handler (RequestHandlers cfg) (Session.ReqType req)) as [hd|].
  - rewrite !conn_calls_app.
    destruct (handleEvent_silent cfg (RequestEvent conn (Session.ReqType req))) as (_ & -> & _).
    destruct (H i hd req) as [ret payload].
    destruct (Session.WantReply req); reflexivity.
  - rewrite !conn_calls_app.
    destruct (handleEvent_silent cfg (UnknownRequestEvent conn (Session.ReqType req)))
      as (_ & -> & _).
    destruct (Session.WantReply req); reflexivity.
Qed.

Lemma serve_request_events cfg H ctx conn i req :
  events (serve_request cfg H ctx conn i req)
  = match EvtHandler cfg with
    | Some _ =>
        [if known_request cfg req then RequestEvent conn (Session.ReqType req)
         else UnknownRequestEvent conn (Session.ReqType req)]
    | None => []
    end.
Proof.
  unfold serve_request, known_request.
  destruct (find_handler (RequestHandlers cfg) (Session.ReqType req)) as [hd|].
  - rewrite !conn_events_app, handleEvent_events.
    destruct (H i hd req) as [ret payload].
    destruct (EvtHandler cfg), (Session.WantReply req); reflexivity.
  - rewrite !conn_events_app, handleEvent_events.
    destruct (EvtHandler cfg), (Session.WantReply req); reflexivity.
Qed.

Lemma handleRequests_from_replies cfg H ctx conn in_ : forall i,
  replies (handleRequests_from cfg H ctx conn i in_)
  = flat_map (fun ir =>
                if Session.WantReply (snd ir)
                then [(snd ir, fst (answer cfg H (fst ir) (snd ir)),
                       snd (answer cfg H (fst ir) (snd ir)))]
                else [])
             (numbered i in_).
Proof.
  induction in_ as [|req rest IH]; intro i; simpl; [reflexivity|].
  rewrite conn_replies_app, serve_request_replies, IH. reflexivity.
Qed.

Lemma handleRequests_from_calls cfg H ctx conn in_ : forall i,
  map snd (calls (handleRequests_from cfg H ctx conn i in_))
  = List.filter (known_request cfg) in_.
Proof.
  induction in_ as [|req rest IH]; intro i; simpl; [reflexivity|].
  rewrite conn_calls_app, map_app, serve_request_calls, IH.
  destruct (known_request cfg req); reflexivity.
Qed.

Lemma handleRequests_from_events cfg H ctx conn in_ : forall i,
  events (handleRequests_from cfg H ctx conn i in_)
  = match EvtHandler cfg with
    | Some _ =>
        map (fun req => if known_request cfg req
                        then RequestEvent conn (Session.ReqType req)
                        else UnknownRequestEvent conn (Session.ReqType req)) in_
    | None => []
    end.
Proof.
  induction in_ as [|req rest IH]; intro i; simpl.
  - destruct (EvtHandler cfg); reflexivity.
  - rewrite conn_events_app, serve_request_events, IH.
    destruct (EvtHandler cfg); reflexivity.
Qed.

Lemma dispatch_channel_spawned cfg sshConn ctx ch :
  spawned (dispatch_channel cfg sshConn ctx ch)
  = match find_handler (ChannelHandlers cfg) (ChannelType ch) with
    | Some hd => [(hd, ctx, ch)]
    | None => []
    end.
Proof.
  unfold dispatch_channel.
  destruct (find_handler (ChannelHandlers cfg) (ChannelType ch)) as [hd|];
    rewrite conn_spawned_app.
  - destruct (handleEvent_silent cfg (ChannelEvent (Some sshConn) (ChannelType ch)))
      as (_ & _ & -> & _).
    reflexivity.
  - destruct (handleEvent_silent cfg (UnknownChannelEvent (Some sshConn) (ChannelType ch)))
      as (_ & _ & -> & _).
    reflexivity.
Qed.

Lemma dispatch_channel_rejected cfg sshConn ctx ch :
  rejected (dispatch_channel cfg sshConn ctx ch)
  = if known_channel cfg ch then [] else [ch].
Proof.
  unfold dispatch_channel, known_channel.
  destruct (find_handler (ChannelHandlers cfg) (ChannelType ch)) as [hd|];
    rewrite conn_rejected_app.
  - destruct (handleEvent_silent cfg (ChannelEvent (Some sshConn) (ChannelType ch)))
      as (_ & _ & _ & -> & _).
    reflexivity.
  - destruct (handleEvent_silent cfg (UnknownChannelEvent (Some sshConn) (ChannelType ch)))
      as (_ & _ & _ & -> & _).
    reflexivity.
Qed.

Lemma dispatch_channel_close_sent cfg sshConn ctx ch :
  close_sent (dispatch_channel cfg sshConn ctx ch) = [].
Proof.
  unfold dispatch_channel.
  destruct (find_handler (ChannelHandlers cfg) (ChannelType ch)) as [hd|];
    rewrite conn_close_sent_app.
  - destruct (handleEvent_silent cfg (ChannelEvent (Some sshConn) (ChannelType ch)))
      as (_ & _ & _ & _ & ->).
    reflexivity.
  - destruct (handleEvent_silent cfg (UnknownChannelEvent (Some sshConn) (ChannelType ch)))
      as (_ & _ & _ & _ & ->).
    reflexivity.
Qed.

Lemma channels_spawned cfg sshConn ctx channels :
  map snd (spawned (flat_map (dispatch_channel cfg sshConn ctx) channels))
  = List.filter (known_channel cfg) channels
  /\ Forall (fun x => snd (fst x) = ctx
                      /\ find_handler (ChannelHandlers cfg) (ChannelType (snd x))
                         = Some (fst (fst x)))
            (spawned (flat_map (dispatch_channel cfg sshConn ctx) channels)).
Proof.
  induction channels as [|ch rest [IH1 IH2]]; simpl; [split; [reflexivity|constructor]|].
  rewrite conn_spawned_app, map_app, dispatch_channel_spawned, IH1.
  unfold known_channel.
  destruct (find_handler (ChannelHandlers cfg) (ChannelType ch)) as [hd|] eqn:E; simpl.
  - split; [reflexivity|]. constructor; [|exact IH2]. simpl. split; [reflexivity|exact E].
  - split; [reflexivity|exact IH2].
Qed.

Lemma channels_rejected cfg sshConn ctx channels :
  rejected (flat_map (dispatch_channel cfg sshConn ctx) channels)
  = List.filter (fun ch => negb (known_channel cfg ch)) channels.
Proof.
  induction channels as [|ch rest IH]; simpl; [reflexivity|].
  rewrite conn_rejected_app, dispatch_channel_rejected, IH.
  destruct (known_channel cfg ch); reflexivity.
Qed.

Lemma channels_close_sent cfg sshConn ctx channels :
  close_sent (flat_map (dispatch_channel cfg sshConn ctx) channels) = [].
Proof.
  induction channels as [|ch rest IH]; simpl; [reflexivity|].
  rewrite conn_close_sent_app, dispatch_channel_close_sent, IH. reflexivity.
Qed.

End ConnFacts.

Section ConnExtras.
Import Net Auth Acceptor Conn.

(** X18. [SSHServerConn] finds the connection [WithServerConn] stored, nil
    or not, whatever was stored before it and whatever values are bound
    under other keys after it. *)
Theorem server_conn_round_trip (ctx more : Context) (c : option ServerConn)
    (Hmore : Forall (fun kv => key_eqb (fst kv) keySSHConn = false) more) :
  SSHServerConn (more ++ WithServerConn ctx c) = (c, true).
Proof.
  unfold SSHServerConn. rewrite (Value_skips more _ keySSHConn Hmore).
  reflexivity.
Qed.

(** X19. [Server.handleRequests] answers exactly the global requests that
    want a reply, in arrival order, each once: with the handler's answer
    when its type has a handler, with a refusal and no payload when it has
    none. The handlers are called on exactly the requests whose type has
    one, and with an event handler configured every request gives one
    event, [RequestEvent] or [UnknownRequestEvent], carrying the
    connection found in the context. *)
Theorem global_requests_answered (cfg : Config) (H : Answers) (ctx : Context)
    (in_ : list Session.Request) :
  let tr := handleRequests cfg H ctx in_ in
  replies tr
  = flat_map (fun ir =>
                if Session.WantReply (snd ir)
                then [(snd ir, fst (answer cfg H (fst ir) (snd ir)),
                       snd (answer cfg H (fst ir) (snd ir)))]
                else [])
             (numbered 0 in_)
  /\ map snd (calls tr) = List.filter (known_request cfg) in_
  /\ events tr
     = match EvtHandler cfg with
       | Some _ =>
           map (fun req => if known_request cfg req
                           then RequestEvent (fst (SSHServerConn ctx)) (Session.ReqType req)
                           else UnknownRequestEvent (fst (SSHServerConn ctx))
                                  (Session.ReqType req)) in_
       | None => []
       end.
Proof.
  unfold handleRequests. destruct (SSHServerConn ctx) as [conn ok]. simpl.
  split; [apply handleRequests_from_replies|].
  split; [apply handleRequests_from_calls|apply handleRequests_from_events].
Qed.

(** X20. Every run of [handleTCPConn] ends with closing the TCP
    connection and sending it on the close channel, and sends it there
    only that once. After a failed handshake no channel is handed to a
    handler or rejected. After a successful one every channel of the
    connection is either handed to the handler registered for its type or
    rejected, in arrival order, and every handler gets a context in which
    [SSHServerConn] finds the connection. *)
Theorem connection_task_closes_once (s : Server) (sctx : Context) (tcpConn : TCPConn)
    (hs : handshake) :
  exists body,
    handleTCPConn s sctx tcpConn hs = body ++ [TCPConnClose tcpConn; CloseChSend tcpConn]
    /\ close_sent body = []
    /\ match hs with
       | HandshakeError _ => spawned body = [] /\ rejected body = []
       | Handshaken sshConn channels _ =>
           map snd (spawned body) = List.filter (known_channel (config s)) channels
           /\ rejected body
              = List.filter (fun ch => negb (known_channel (config s) ch)) channels
           /\ Forall (fun x => SSHServerConn (snd (fst x)) = (Some sshConn, true)
                               /\ find_handler (ChannelHandlers (config s))
                                    (ChannelType (snd x)) = Some (fst (fst x)))
                     (spawned body)
       end.
Proof.
  unfold handleTCPConn, closeConn.
  rewrite app_assoc. eexists. split; [reflexivity|].
  assert (Hcb : forall (o : option ConnectionCallback),
             close_sent (match o with
                         | Some cb => [CallConnectionCallback cb tcpConn]
                         | None => []
                         end) = []
             /\ spawned (match o with
                         | Some cb => [CallConnectionCallback cb tcpConn]
                         | None => []
                         end) = []
             /\ rejected (match o with
                          | Some cb => [CallConnectionCallback cb tcpConn]
                          | None => []
                          end) = [])
    by (intros [cb|]; repeat split; reflexivity).
  destruct (Hcb (ConnCallback (config s))) as (Hc1 & Hc2 & Hc3).
  rewrite conn_close_sent_app, conn_spawned_app, conn_rejected_app, Hc1, Hc2, Hc3.
  rewrite !app_nil_l.
  destruct hs as [err | sshConn channels requests].
  - destruct (handleEvent_silent (config s)
                (HandshakeFailedEvent (LocalAddr tcpConn) (RemoteAddr tcpConn) err))
      as (_ & _ & Hs & Hr & Hc).
    rewrite Hs, Hr, Hc. repeat split; reflexivity.
  - set (ctx := WithServerConn sctx (Some sshConn)).
    destruct (handleEvent_silent (config s)
                (HandshakeSuccessfulEvent (LocalAddr tcpConn) (RemoteAddr tcpConn)))
      as (_ & _ & Hs & Hr & Hc).
    rewrite !conn_close_sent_app, !conn_spawned_app, !conn_rejected_app, Hs, Hr, Hc.
    rewrite channels_close_sent, channels_rejected.
    destruct (channels_spawned (config s) sshConn ctx channels) as [Hsp Hall].
    simpl. rewrite !app_nil_r.
    split; [reflexivity|]. split; [exact Hsp|]. split; [reflexivity|].
    eapply Forall_impl; [exact Hall|]. intros [[hd c] ch] [Hctx Hhd]. simpl in *.
    subst c. split; [|exact Hhd].
    apply SSHServerConn_stored.
Qed.

End ConnExtras.

Section HandleChannelExtras.
Import Net Auth Acceptor Conn.

(** X21. [HandleChannel], called with a context the server built for a
    connection, never rejects the channel with "server error", and
    whenever it returns or is left by a panic of the request loop, its
    last effect is closing the whole SSH connection: also when accepting
    the channel failed. *)
Theorem session_channel_closes_connection (X : Session.Extern)
    (h : Session.sessionChannelHandler) (sctx : Context) (conn : ServerConn)
    (newch : NewChannel) (accept : result unit) (l : list Session.action)
    (Hend : snd (HandleChannel X h (WithServerConn sctx (Some conn)) newch accept l) = Ended
            \/ snd (HandleChannel X h (WithServerConn sctx (Some conn)) newch accept l)
               = Crashed) :
  (exists pre,
      fst (HandleChannel X h (WithServerConn sctx (Some conn)) newch accept l)
      = pre ++ [SSHClose conn])
  /\ ~ In (Reject newch ConnectionFailed "server error")
          (fst (HandleChannel X h (WithServerConn sctx (Some conn)) newch accept l)).
Proof.
  revert Hend. unfold HandleChannel. rewrite SSHServerConn_stored.
  assert (Hno : forall tr rest,
             (forall e, In e rest -> e <> Reject newch ConnectionFailed "server error") ->
             ~ In (Reject newch ConnectionFailed "server error")
                 (map InSession tr ++ rest)).
  { intros tr rest Hrest Hin. apply in_app_or in Hin. destruct Hin as [Hin | Hin].
    - apply in_map_iff in Hin. destruct Hin as (e & He & _). discriminate He.
    - exact (Hrest _ Hin eq_refl). }
  destruct accept as [u | err].
  - destruct (session_run X h Session.start l) as [tr e].
    destruct e; simpl; intros [Hend | Hend]; try discriminate Hend.
    all: split;
      [exists (map InSession tr ++ [InSession Session.ChannelClose]);
       rewrite <- app_assoc; reflexivity
      | apply Hno; intros e [<- | [<- | []]]; discriminate].
  - simpl. intros _. split.
    + exists [Reject newch ConnectionFailed "failed to accept channel"]. reflexivity.
    + intros [Hin | [Hin | []]]; discriminate Hin.
Qed.

End HandleChannelExtras.

Section OptionFacts.
Import Net Auth Acceptor Options.

Variable F : FileEnv.
Variable L : SSHLib.

Lemma option_step (o : OptionFunc) (conf : Config) :
  library_option F L o ->
  handlers_ok conf ->
  match o conf with
  | NilMapPanic => False
  | Failed e =>
      (SrvConfig conf = None /\ e = ErrNilServerConfig)
      \/ (exists path, o = WithHostKeyFile F path /\ host_key F path = Err e)
  | Applied c =>
      handlers_ok c /\ Addr c = Addr conf
      /\ (SrvConfig c = None -> SrvConfig conf = None \/ o = WithServerConfig None)
  end.
Proof.
  intros Ho [(m & Hm & Hs) Hr].
  destruct Ho; cbv beta delta [WithMaxConnections WithMaxClientConnections WithMaxDeadline
    WithMaxConnectionDuration WithRequestHandler WithChannelHandler WithConnectionCallback
    WithEventHandler WithHostKey WithSignalCh WithServerConfig
    WithPasswordAuth WithPublicKeyAuth WithAuthLogCallback WithNoClientAuth].
  all: try (split; [split; [exists m; split; assumption | exact Hr]
                   | split; [reflexivity | intros H; left; exact H]]).
  - (* WithRequestHandler *)
    destruct Hr as [r Hr]. rewrite Hr.
    split; [split; [exists m; split; assumption | simpl; eauto]
           | split; [reflexivity | intros H; left; exact H]].
  - (* WithChannelHandler *)
    rewrite Hm.
    split; [split; [eexists; split; [reflexivity |] | exact Hr]
           | split; [reflexivity | intros H; left; exact H]].
    destruct (decide (t = "session")) as [-> | N].
    + rewrite lookup_insert_eq. eauto.
    + rewrite lookup_insert_ne by exact N. exact Hs.
  - (* WithHostKeyFile *)
    assert (Hk : WithHostKeyFile F path conf
                 = match host_key F path with
                   | Ok signer => Applied (set_PrivateKey conf (Some signer))
                   | Err e => Failed e
                   end)
      by (unfold WithHostKeyFile, host_key; destruct (ReadFile F path); reflexivity).
    rewrite Hk. destruct (host_key F path) as [k | e] eqn:E.
    + split; [split; [exists m; split; assumption | exact Hr]
             | split; [reflexivity | intros H; left; exact H]].
    + right. exists path. split; [reflexivity | exact E].
  - (* WithServerConfig *)
    split; [split; [exists m; split; assumption | exact Hr]
           | split; [reflexivity | intros H; right; simpl in H; rewrite H; reflexivity]].
  - destruct (SrvConfig conf) as [sc |]; [| left; split; reflexivity].
    split; [split; [exists m; split; assumption | exact Hr]
           | split; [reflexivity | discriminate]].
  - destruct (SrvConfig conf) as [sc |]; [| left; split; reflexivity].
    split; [split; [exists m; split; assumption | exact Hr]
           | split; [reflexivity | discriminate]].
  - destruct (SrvConfig conf) as [sc |]; [| left; split; reflexivity].
    split; [split; [exists m; split; assumption | exact Hr]
           | split; [reflexivity | discriminate]].
  - destruct (SrvConfig conf) as [sc |]; [| left; split; reflexivity].
    split; [split; [exists m; split; assumption | exact Hr]
           | split; [reflexivity | discriminate]].
Qed.

Lemma read_opts_outcomes (opts : list OptionFunc) :
  Forall (library_option F L) opts ->
  forall conf,
    handlers_ok conf ->
    match read_opts opts conf with
    | NilMapPanic => False
    | Failed e =>
        ((SrvConfig conf = None \/ In (WithServerConfig None) opts)
         /\ e = ErrNilServerConfig)
        \/ (exists path, In (WithHostKeyFile F path) opts /\ host_key F path = Err e)
    | Applied c =>
        handlers_ok c /\ Addr c = Addr conf
        /\ (SrvConfig c = None -> SrvConfig conf = None \/ In (WithServerConfig None) opts)
    end.
Proof.
  induction 1 as [| o opts Ho _ IH]; intros conf Hok.
  - simpl. split; [exact Hok | split; [reflexivity | intros H; left; exact H]].
  - simpl. pose proof (option_step o conf Ho Hok) as Hstep.
    destruct (o conf) as [c1 | e | ].
    + destruct Hstep as (Hok1 & Haddr1 & Hnil1).
      specialize (IH c1 Hok1).
      destruct (read_opts opts c1) as [c | e | ].
      * destruct IH as (Hokc & Haddr & Hnil).
        split; [exact Hokc |]. split; [congruence |].
        intros Hc. destruct (Hnil Hc) as [H1 | H1].
        -- destruct (Hnil1 H1) as [H2 | H2]; [left; exact H2 | right; left; exact H2].
        -- right. right. exact H1.
      * destruct IH as [[[H1 | H1] He] | (path & Hin & Hk)].
        -- left. split; [| exact He].
           destruct (Hnil1 H1) as [H2 | H2]; [left; exact H2 | right; left; exact H2].
        -- left. split; [right; right; exact H1 | exact He].
        -- right. exists path. split; [right; exact Hin | exact Hk].
      * exact IH.
    + destruct Hstep as [[H1 He] | (path & Hin & Hk)].
      * left. split; [left; exact H1 | exact He].
      * right. exists path. split; [left; exact Hin | exact Hk].
    + exact Hstep.
Qed.

Lemma New_keeps_handlers (ctx : bool) (conf : Config) :
  match snd (New L ctx conf) with
  | Ok srv =>
      ChannelHandlers (config srv) = ChannelHandlers conf
      /\ RequestHandlers (config srv) = RequestHandlers conf
      /\ Addr (config srv) = Addr conf
      /\ MaxDeadline (config srv) <> 0
      /\ SrvConfig conf <> None
  | Err e => e = "ssh.ServerConfig must be provided" /\ SrvConfig conf = None
  end.
Proof.
  unfold New.
  destruct (Z.eqb_spec (MaxDeadline conf) 0) as [E | E]; simpl;
    destruct (SrvConfig conf) as [sc |]; simpl;
    repeat split; try reflexivity; try discriminate; try exact E;
    unfold Second; lia.
Qed.

Lemma string_of_list_byte_eq (pw : list byte) (s : string) :
  string_of_list_byte pw = s <-> pw = list_byte_of_string s.
Proof.
  split; intros H.
  - rewrite <- H. symmetry. apply list_byte_of_string_of_list_byte.
  - rewrite H. apply string_of_list_byte_of_string.
Qed.

End OptionFacts.

Section OptionExtras.
Import Net Auth Acceptor Options.

Variable F : FileEnv.
Variable L : SSHLib.

(** X22. The package's [ListenAndServe], given options of the package,
    never panics on a nil handler map. It stops before a server exists
    only with the error of a host key file that cannot be read or parsed,
    or, when [WithServerConfig(nil)] is among the options, with one of the
    two errors about the missing SSH configuration. Otherwise the server
    it starts has a handler for session channels, a request handler map, a
    maximum deadline that is not zero, and the bind address it was
    given. *)
Theorem package_setup_outcomes (sh : ChannelHandler) (addr : string)
    (opts : list OptionFunc) (Hlib : Forall (library_option F L) opts) :
  match ListenAndServe_setup L sh addr opts with
  | SetupPanic => False
  | Refused err =>
      (In (WithServerConfig None) opts
       /\ (err = ErrNilServerConfig \/ err = "ssh.ServerConfig must be provided"))
      \/ (exists path, In (WithHostKeyFile F path) opts /\ host_key F path = Err err)
  | Started srv =>
      (exists m, ChannelHandlers (config srv) = Some m /\ is_Some (m !! "session"))
      /\ is_Some (RequestHandlers (config srv))
      /\ MaxDeadline (config srv) <> 0
      /\ Addr (config srv) = addr
  end.
Proof.
  unfold ListenAndServe_setup.
  assert (H0 : ensure_session sh (initial_config addr)
               = Applied (set_ChannelHandlers (initial_config addr)
                            (Some (<["session" := sh]> ∅)))) by reflexivity.
  rewrite H0.
  set (conf0 := set_ChannelHandlers (initial_config addr) (Some (<["session" := sh]> ∅))).
  assert (Hok0 : handlers_ok conf0).
  { split; [| simpl; eauto]. eexists. split; [reflexivity |].
    rewrite lookup_insert_eq. eauto. }
  pose proof (read_opts_outcomes F L opts Hlib conf0 Hok0) as Hread.
  destruct (read_opts opts conf0) as [conf | e |].
  - destruct Hread as (Hok & Haddr & Hnil).
    pose proof (New_keeps_handlers L false conf) as Hnew.
    destruct (snd (New L false conf)) as [srv | e].
    + destruct Hnew as (Hch & Hrq & Had & Hmd & _).
      destruct Hok as [(m & Hm & Hs) Hr].
      split; [exists m; split; [congruence | exact Hs] |].
      split; [rewrite Hrq; exact Hr |].
      split; [exact Hmd |]. rewrite Had, Haddr. reflexivity.
    + destruct Hnew as [-> Hnone]. left.
      destruct (Hnil Hnone) as [H1 | H1]; [discriminate H1 |].
      split; [exact H1 | right; reflexivity].
  - destruct Hread as [[[H1 | H1] He] | Hfile].
    + discriminate H1.
    + left. split; [exact H1 | left; exact He].
    + right. exact Hfile.
  - exact Hread.
Qed.

(** X23. The callback [WithPasswordAuth] installs accepts a login exactly
    when the user is the configured user and the password bytes are those
    of the configured password. Every other login gets nil permissions and
    the error "Invalid username or password". An accepted login carries
    empty permissions, so its session reports no public key. *)
Theorem password_auth_exact (user password : string) (meta : ConnMetadata)
    (pw : list byte) :
  (snd (passwordCallback user password meta pw) = None
   <-> meta_User meta = user /\ pw = list_byte_of_string password)
  /\ (snd (passwordCallback user password meta pw) = None
      \/ passwordCallback user password meta pw
         = (None, Some "Invalid username or password"))
  /\ (forall conn,
         password_authenticated (passwordCallback user password) meta pw = Some conn ->
         conn_User conn = user
         /\ conn_Permissions conn = Some (mkPermissions None None)
         /\ session_PublicKey L conn = None).
Proof.
  unfold password_authenticated, passwordCallback.
  destruct (String.eqb_spec (meta_User meta) user) as [Hu | Hu];
    destruct (String.eqb_spec (string_of_list_byte pw) password) as [Hp | Hp]; simpl.
  - split; [| split; [left; reflexivity |]].
    + split; [intros _ | reflexivity].
      split; [exact Hu | apply string_of_list_byte_eq; exact Hp].
    + intros conn H. inversion H; subst conn; clear H. simpl.
      split; [exact Hu | split; reflexivity].
  - split; [| split; [right; reflexivity | discriminate]].
    split; [discriminate |]. intros [_ H]. exfalso. apply Hp.
    apply string_of_list_byte_eq. exact H.
  - split; [| split; [right; reflexivity | discriminate]].
    split; [discriminate |]. intros [H _]. exfalso. exact (Hu H).
  - split; [| split; [right; reflexivity | discriminate]].
    split; [discriminate |]. intros [H _]. exfalso. exact (Hu H).
Qed.

(** X24. After [WithPublicKeyAuth] and [New], the public-key callback of
    the server returns, for every connection and key, what the closure of
    [WithPublicKeyAuth] returns: the wrapper of [New] adds nothing to it.
    It accepts a key exactly when its legacy MD5 fingerprint is that of
    the configured key, and the session of an accepted connection gets
    back whatever the library parses from the marshaled key. *)
Theorem public_key_option_end_to_end (pubkey : PublicKey) (ctx : bool) (conf : Config)
    (sc : ServerConfig) (Hsc : SrvConfig conf = Some sc) :
  exists conf1 srv sc1 cb,
    WithPublicKeyAuth L pubkey conf = Applied conf1
    /\ snd (New L ctx conf1) = Ok srv
    /\ sshConfig srv = Some sc1
    /\ PublicKeyCallback sc1 = Some cb
    /\ forall meta key,
         cb meta key = publicKeyCallback L pubkey meta key
         /\ (snd (cb meta key) = None
             <-> FingerprintLegacyMD5 L key = FingerprintLegacyMD5 L pubkey)
         /\ (forall conn,
                authenticated cb meta key = Some conn ->
                conn_User conn = meta_User meta
                /\ session_PublicKey L conn
                   = match ParsePublicKey L (key_Marshal key) with
                     | Ok k => Some k
                     | Err _ => None
                     end).
Proof.
  assert (Hmain : forall meta key,
             pubKeyCallbackWrapper L (Some (publicKeyCallback L pubkey)) meta key
             = publicKeyCallback L pubkey meta key
             /\ (snd (pubKeyCallbackWrapper L (Some (publicKeyCallback L pubkey)) meta key)
                 = None
                 <-> FingerprintLegacyMD5 L key = FingerprintLegacyMD5 L pubkey)
             /\ (forall conn,
                    authenticated
                      (pubKeyCallbackWrapper L (Some (publicKeyCallback L pubkey)))
                      meta key = Some conn ->
                    conn_User conn = meta_User meta
                    /\ session_PublicKey L conn
                       = match ParsePublicKey L (key_Marshal key) with
                         | Ok k => Some k
                         | Err _ => None
                         end)).
  {
    intros meta key.
    assert (Heq : pubKeyCallbackWrapper L (Some (publicKeyCallback L pubkey)) meta key
                  = publicKeyCallback L pubkey meta key).
    { destruct (publicKeyCallback L pubkey meta key) as [perm [e |]] eqn:Hcb.
      - rewrite (wrapper_error L _ meta key perm e Hcb).
        unfold publicKeyCallback in Hcb.
        destruct (negb (String.eqb (FingerprintLegacyMD5 L key)
                          (FingerprintLegacyMD5 L pubkey)));
          inversion Hcb; reflexivity.
      - rewrite (wrapper_success L _ meta key perm Hcb).
        unfold publicKeyCallback in Hcb.
        destruct (negb (String.eqb (FingerprintLegacyMD5 L key)
                          (FingerprintLegacyMD5 L pubkey))); [discriminate Hcb |].
        inversion Hcb; subst perm; clear Hcb. simpl.
        reflexivity. }
    split; [exact Heq |]. split.
    - rewrite Heq. unfold publicKeyCallback.
      destruct (String.eqb_spec (FingerprintLegacyMD5 L key) (FingerprintLegacyMD5 L pubkey))
        as [E | E]; simpl.
      + split; [intros _; exact E | reflexivity].
      + split; [discriminate | intros H; exfalso; exact (E H)].
    - intros conn Hconn.
      split.
      + unfold authenticated in Hconn.
        destruct (pubKeyCallbackWrapper L (Some (publicKeyCallback L pubkey)) meta key)
          as [perm [e |]]; [discriminate Hconn |].
        inversion Hconn. reflexivity.
      + exact (PublicKey_after_wrapper L _ meta key conn Hconn).
  }
  unfold WithPublicKeyAuth. rewrite Hsc.
  destruct (MaxDeadline conf =? 0) eqn:Hmd.
  all: eexists _, _, _, (pubKeyCallbackWrapper L (Some (publicKeyCallback L pubkey))).
  all: split; [reflexivity |].
  all: split; [unfold New; simpl; rewrite Hmd; simpl; reflexivity |].
  all: split; [reflexivity |].
  all: split; [simpl; destruct (PrivateKey conf); reflexivity |].
  all: exact Hmain.
Qed.

End OptionExtras.

Lemma server_conn_round_trip_witness :
  Conn.SSHServerConn
    (LateExamples.foreign_binding
     ++ Conn.WithServerConn Conn.Background (Some LateExamples.admin_conn))
  = (Some LateExamples.admin_conn, true).
Proof.
  apply (server_conn_round_trip Conn.Background LateExamples.foreign_binding
           (Some LateExamples.admin_conn)).
  repeat constructor.
Defined.

Lemma session_channel_closes_connection_witness :
  (exists pre,
      fst (Conn.HandleChannel Examples.demoX Examples.demoH
             (Conn.WithServerConn Conn.Background (Some LateExamples.admin_conn))
             LateExamples.session_channel (Ok tt) LateExamples.shell_then_done)
      = pre ++ [Conn.SSHClose LateExamples.admin_conn])
  /\ ~ In (Conn.Reject LateExamples.session_channel Conn.ConnectionFailed "server error")
          (fst (Conn.HandleChannel Examples.demoX Examples.demoH
                  (Conn.WithServerConn Conn.Background (Some LateExamples.admin_conn))
                  LateExamples.session_channel (Ok tt) LateExamples.shell_then_done)).
Proof.
  apply (session_channel_closes_connection Examples.demoX Examples.demoH Conn.Background
           LateExamples.admin_conn LateExamples.session_channel (Ok tt)
           LateExamples.shell_then_done).
  left. reflexivity.
Defined.

Lemma package_setup_outcomes_witness :
  match Options.ListenAndServe_setup Examples.demoL 0%nat ":2022"
          [Options.WithMaxConnections 10; Options.WithServerConfig None;
           Options.WithNoClientAuth] with
  | Options.SetupPanic => False
  | Options.Refused err =>
      (In (Options.WithServerConfig None)
          [Options.WithMaxConnections 10; Options.WithServerConfig None;
           Options.WithNoClientAuth]
       /\ (err = Options.ErrNilServerConfig \/ err = "ssh.ServerConfig must be provided"))
      \/ (exists path,
             In (Options.WithHostKeyFile LateExamples.no_files path)
                [Options.WithMaxConnections 10; Options.WithServerConfig None;
                 Options.WithNoClientAuth]
             /\ Options.host_key LateExamples.no_files path = Err err)
  | Options.Started srv =>
      (exists m, Acceptor.ChannelHandlers (Acceptor.config srv) = Some m
                 /\ is_Some (m !! "session"))
      /\ is_Some (Acceptor.RequestHandlers (Acceptor.config srv))
      /\ Acceptor.MaxDeadline (Acceptor.config srv) <> 0
      /\ Acceptor.Addr (Acceptor.config srv) = ":2022"
  end.
Proof.
  apply (package_setup_outcomes LateExamples.no_files Examples.demoL 0%nat ":2022"
           [Options.WithMaxConnections 10; Options.WithServerConfig None;
            Options.WithNoClientAuth]).
  repeat constructor.
Defined.

Lemma public_key_option_end_to_end_witness :
  exists conf1 srv sc1 cb,
    Options.WithPublicKeyAuth Examples.demoL Examples.demo_key LateExamples.default_config
    = Options.Applied conf1
    /\ snd (Acceptor.New Examples.demoL false conf1) = Ok srv
    /\ Acceptor.sshConfig srv = Some sc1
    /\ Acceptor.PublicKeyCallback sc1 = Some cb
    /\ forall meta key,
         cb meta key = Options.publicKeyCallback Examples.demoL Examples.demo_key meta key
         /\ (snd (cb meta key) = None
             <-> Auth.FingerprintLegacyMD5 Examples.demoL key
                 = Auth.FingerprintLegacyMD5 Examples.demoL Examples.demo_key)
         /\ (forall conn,
                Auth.authenticated cb meta key = Some conn ->
                Auth.conn_User conn = Auth.meta_User meta
                /\ Auth.session_PublicKey Examples.demoL conn
                   = match Auth.ParsePublicKey Examples.demoL (Auth.key_Marshal key) with
                     | Ok k => Some k
                     | Err _ => None
                     end).
Proof.
  apply (public_key_option_end_to_end Examples.demoL Examples.demo_key false
           LateExamples.default_config
           (Acceptor.mkServerConfig false None None None [])).
  reflexivity.
Defined.

(** * The window channel between the two tasks *)

Section WindowFacts.
Import Signals Session SessionSurface.

Variable X : Extern.
Variable h : sessionChannelHandler.

Lemma iter_pty_req st req :
  ReqType req = "pty-req" ->
  allowPty h = true ->
  hasBeenHandled (sess st) = false ->
  pty (sess st) = None ->
  snd (parsePtyRequest X (Payload req)) = true ->
  handleRequests_iter X h st (SelReq (Some req))
  = Continue
      (set_sess st
         (set_winch (set_pty (sess st) (Some (fst (parsePtyRequest X (Payload req)))))
            (Some (mkWinChan [Pty_Window (fst (parsePtyRequest X (Payload req)))] false))))
      [Reply true].
Proof.
  intros Ht Ha Hh Hp Hok. unfold handleRequests_iter, handlePtyReq.
  rewrite Ht, Ha, Hh, Hp. simpl.
  destruct (parsePtyRequest X (Payload req)) as [ptyReq ok]. simpl in Hok. subst ok.
  reflexivity.
Qed.

Lemma iter_window_change st req p ch :
  ReqType req = "window-change" ->
  pty (sess st) = Some p ->
  winch (sess st) = Some ch ->
  snd (parseWinchRequest X (Payload req)) = true ->
  handleRequests_iter X h st (SelReq (Some req))
  = if closed ch then Panicked []
    else if (length (buffered ch) <? winch_cap)%nat
         then Continue
                (set_sess st
                   (set_winch
                      (set_pty (sess st)
                         (Some (mkPty (Term p) (fst (parseWinchRequest X (Payload req)))
                                  (Modes p))))
                      (Some (mkWinChan
                               (buffered ch ++ [fst (parseWinchRequest X (Payload req))])
                               false))))
                [Reply true]
         else Blocked.
Proof.
  intros Ht Hp Hw Hok. unfold handleRequests_iter, handleWindowChange.
  rewrite Ht, Hp. simpl.
  destruct (parseWinchRequest X (Payload req)) as [win ok]. simpl in Hok. subst ok.
  simpl. rewrite Hw. reflexivity.
Qed.

Lemma sys_step_LoopIter y i :
  crashed y = false ->
  returned y = false ->
  sys_step X h y (LoopIter i)
  = match handleRequests_iter X h (loop y) i with
    | Continue st tr => (mkSys st false false, tr)
    | Returned => (mkSys (loop y) true false, [])
    | Blocked => (y, [])
    | Panicked tr => (mkSys (loop y) (returned y) true, tr)
    end.
Proof. intros Hc Hr. unfold sys_step. rewrite Hc, Hr. reflexivity. Qed.

Lemma sys_step_Exit_ok y code sendErr s1 tr :
  crashed y = false ->
  Exit (sess (loop y)) code sendErr = (s1, RetNil, tr) ->
  sys_step X h y (CallExit code sendErr)
  = (mkSys (set_sess (loop y) s1) (returned y) false, tr).
Proof. intros Hc Hx. unfold sys_step. rewrite Hc, Hx. reflexivity. Qed.

End WindowFacts.

Section WindowExtras.
Import Signals Session SessionSurface.

Variable X : Extern.
Variable h : sessionChannelHandler.

(** X25. A valid [window-change] request that the loop takes after the
    handler's [Exit] has closed the window channel panics the process: the
    send on the closed channel is reached before any reply. This holds in
    every state a fresh session can reach in which a PTY was accepted,
    [Exit] has not been called and the loop has not returned. *)
Theorem window_change_after_Exit_panics (l : list action) (code : Z) (req : Request)
    (Hexit : exited (sess (loop (fst (run X h start l)))) = 0)
    (Hcrash : crashed (fst (run X h start l)) = false)
    (Hret : returned (fst (run X h start l)) = false)
    (Hpty : pty (sess (loop (fst (run X h start l)))) <> None)
    (Htype : ReqType req = "window-change")
    (Hok : snd (parseWinchRequest X (Payload req)) = true) :
  run X h (fst (run X h start l)) [CallExit code None; LoopIter (SelReq (Some req))]
  = (mkSys (loop (fst (run X h (fst (run X h start l)) [CallExit code None])))
       false true,
     [SendRequest "exit-status" false (Marshal_uint32 (uint32 code));
      CloseWinch; ChannelClose; ConnClose]).
Proof.
  assert (Hinv : session_inv (sess (loop (fst (run X h start l))))).
  { apply run_session_inv. exact session_inv_new. }
  destruct (first_Exit_outcome _ code Hinv Hexit) as [_ Hsome].
  destruct (Hsome Hpty) as (ch & Hw & Hx). clear Hsome.
  destruct (pty (sess (loop (fst (run X h start l))))) as [p |] eqn:Hp;
    [| exfalso; apply Hpty; reflexivity].
  set (y := fst (run X h start l)) in *.
  cbn [run].
  rewrite (sys_step_Exit_ok X h y code None _ _ Hcrash Hx). cbn [fst snd].
  rewrite sys_step_LoopIter by (simpl; first [reflexivity | assumption]).
  rewrite (iter_window_change X h _ req p (mkWinChan (buffered ch) true));
    [| exact Htype | simpl; exact Hp | reflexivity | exact Hok].
  simpl. rewrite Hret. reflexivity.
Qed.

(** X26. A valid [window-change] request that the loop takes after an
    accepted [pty-req] and before any [shell] or [exec] request stops the
    loop for good: the window channel still holds the initial window and
    no handler exists to receive it. The loop has answered the [pty-req]
    only, has assigned the new window to the PTY, and stands at its send;
    whatever select cases would follow, none is taken, so no handler is
    ever started. *)
Theorem window_change_before_shell_parks_loop (st : LoopState) (rp rw : Request)
    (rest : list sel)
    (Hallow : allowPty h = true)
    (Hfresh : hasBeenHandled (sess st) = false)
    (Hpty : pty (sess st) = None)
    (Htp : ReqType rp = "pty-req")
    (Hokp : snd (parsePtyRequest X (Payload rp)) = true)
    (Htw : ReqType rw = "window-change")
    (Hokw : snd (parseWinchRequest X (Payload rw)) = true) :
  exists st',
    Alone.serve X h st (SelReq (Some rp) :: SelReq (Some rw) :: rest)
    = ([Reply true], Alone.ParkedAtSend st')
    /\ pty (sess st')
       = Some (mkPty (Term (fst (parsePtyRequest X (Payload rp))))
                 (fst (parseWinchRequest X (Payload rw)))
                 (Modes (fst (parsePtyRequest X (Payload rp)))))
    /\ winch (sess st')
       = Some (mkWinChan [Pty_Window (fst (parsePtyRequest X (Payload rp)))] false)
    /\ hasBeenHandled (sess st') = false
    /\ spawns (fst (Alone.serve X h st (SelReq (Some rp) :: SelReq (Some rw) :: rest)))
       = 0%nat.
Proof.
  pose proof (iter_pty_req X h st rp Htp Hallow Hfresh Hpty Hokp) as H1.
  set (p := fst (parsePtyRequest X (Payload rp))) in *.
  set (st1 := set_sess st
                (set_winch (set_pty (sess st) (Some p))
                   (Some (mkWinChan [Pty_Window p] false)))) in *.
  assert (H2 : handleRequests_iter X h st1 (SelReq (Some rw)) = Blocked).
  { rewrite (iter_window_change X h st1 rw p (mkWinChan [Pty_Window p] false));
      [reflexivity | exact Htw | reflexivity | reflexivity | exact Hokw]. }
  assert (H3 : Alone.at_send X st1 (SelReq (Some rw))
               = set_sess st1
                   (set_pty (sess st1)
                      (Some (mkPty (Term p) (fst (parseWinchRequest X (Payload rw)))
                               (Modes p))))).
  { unfold Alone.at_send. rewrite Htw. simpl.
    destruct (parseWinchRequest X (Payload rw)) as [win ok]. simpl in Hokw. subst ok.
    reflexivity. }
  exists (Alone.at_send X st1 (SelReq (Some rw))).
  assert (Hs : Alone.serve X h st (SelReq (Some rp) :: SelReq (Some rw) :: rest)
               = ([Reply true], Alone.ParkedAtSend (Alone.at_send X st1 (SelReq (Some rw))))).
  { cbn [Alone.serve]. rewrite H1. cbn [spawns is_spawn List.filter length Nat.ltb Nat.leb].
    rewrite H2. reflexivity. }
  rewrite Hs, H3.
  split; [reflexivity |]. split; [reflexivity |]. split; [reflexivity |].
  split; [exact Hfresh | reflexivity].
Qed.

End WindowExtras.

Lemma window_change_after_Exit_panics_witness :
  Session.run Examples.demoX Examples.demoH
    (fst (Session.run Examples.demoX Examples.demoH Session.start
            [Session.LoopIter (Session.SelReq (Some LateExamples.pty_request))]))
    [Session.CallExit 0 None;
     Session.LoopIter (Session.SelReq (Some LateExamples.resize_request))]
  = (Session.mkSys
       (Session.loop
          (fst (Session.run Examples.demoX Examples.demoH
                  (fst (Session.run Examples.demoX Examples.demoH Session.start
                          [Session.LoopIter (Session.SelReq (Some LateExamples.pty_request))]))
                  [Session.CallExit 0 None])))
       false true,
     [Session.SendRequest "exit-status" false (Session.Marshal_uint32 (uint32 0));
      Session.CloseWinch; Session.ChannelClose; Session.ConnClose]).
Proof.
  apply (window_change_after_Exit_panics Examples.demoX Examples.demoH
           [Session.LoopIter (Session.SelReq (Some LateExamples.pty_request))] 0
           LateExamples.resize_request);
    try reflexivity.
  vm_compute. discriminate.
Defined.

Lemma window_change_before_shell_parks_loop_witness :
  exists st',
    Alone.serve Examples.demoX Examples.demoH Session.init
      (Session.SelReq (Some LateExamples.pty_request)
       :: Session.SelReq (Some LateExamples.resize_request)
       :: LateExamples.shell_and_done)
    = ([Session.Reply true], Alone.ParkedAtSend st')
    /\ Session.pty (Session.sess st')
       = Some (Session.mkPty
                 (Session.Term (fst (Session.parsePtyRequest Examples.demoX
                                       (Session.Payload LateExamples.pty_request))))
                 (fst (Session.parseWinchRequest Examples.demoX
                         (Session.Payload LateExamples.resize_request)))
                 (Session.Modes (fst (Session.parsePtyRequest Examples.demoX
                                        (Session.Payload LateExamples.pty_request)))))
    /\ Session.winch (Session.sess st')
       = Some (Session.mkWinChan
                 [Session.Pty_Window (fst (Session.parsePtyRequest Examples.demoX
                                             (Session.Payload LateExamples.pty_request)))]
                 false)
    /\ Session.hasBeenHandled (Session.sess st') = false
    /\ Session.spawns
         (fst (Alone.serve Examples.demoX Examples.demoH Session.init
                 (Session.SelReq (Some LateExamples.pty_request)
                  :: Session.SelReq (Some LateExamples.resize_request)
                  :: LateExamples.shell_and_done)))
       = 0%nat.
Proof.
  apply (window_change_before_shell_parks_loop Examples.demoX Examples.demoH Session.init
           LateExamples.pty_request LateExamples.resize_request
           LateExamples.shell_and_done);
    reflexivity.
Defined.

Section SignalExtras.
Import Signals.

(** X27. [toSignal] maps no two names to the same signal: two names that
    decode to one signal are the same name. *)
Theorem toSignal_injective (a b : string) (sig : Signal)
    (Ha : toSignal a = Ok sig) (Hb : toSignal b = Ok sig) :
  a = b.
Proof.
  unfold toSignal in Ha, Hb.
  repeat match type of Ha with
         | context [String.eqb a ?c] =>
             destruct (String.eqb_spec a c) as [-> | _]
         end;
    repeat match type of Hb with
           | context [String.eqb b ?c] =>
               destruct (String.eqb_spec b c) as [-> | _]
           end;
    try reflexivity; congruence.
Qed.

End SignalExtras.

Lemma toSignal_injective_witness : "TERM" = Signals.SIGTERM.
Proof.
  apply (toSignal_injective "TERM" Signals.SIGTERM Signals.syscall_SIGTERM); reflexivity.
Defined.
